(** * SumTrees (DendroPy): split support summarization

    Shallow embedding of [applications/sumtrees/sumtrees.py] and of the
    expectations recorded in [dendropy/test/test_datamodel_split_bitmasks.py].

    The [dendropy] library modules the driver calls ([treesplit], [treesum],
    [TaxonNamespace]) are not part of the sources at hand; the pieces of them
    that the driver's behaviour depends on are modelled from the design
    document and marked as such. *)

From Stdlib Require Import ZArith QArith Qcanon List String Bool Lia Permutation.
From stdpp Require Import gmap strings list fin_maps numbers.

Local Open Scope Z_scope.

(** ** Bit masks *)

Module Bitmask.

(** Number of set bits of a positive binary numeral. *)
Fixpoint pos_count_bits (p : positive) : Z :=
  match p with
  | xH => 1
  | xO q => pos_count_bits q
  | xI q => 1 + pos_count_bits q
  end.

(** [treesplit.count_bits]: the population count of a split bitmask
    (bitmasks are non-negative Python integers). *)
Definition count_bits (a : Z) : Z :=
  match a with
  | Zpos p => pos_count_bits p
  | _ => 0
  end.

(** [CountBitsTest.runTest]. *)
Definition CountBitsTest_runTest : bool := count_bits 21 =? 3.

(** Python's [enumerate] over a list. *)
Definition enumerate {A} (l : list A) : list (Z * A) :=
  zip (Z.of_nat <$> seq 0 (length l)) l.

(** The three expectation rows of [IsTrivialTest.runTest], as written there
    ([y = True], [n = False]). *)
Definition IsTrivialTest_row_0xF : list bool :=
  let y := true in let n := false in
  [y; y; y; n; y; n; n; y; y; n; n; y; n; y; y; y;
   y; y; y; n; y; n; n; y; y; n; n; y; n; y; y; y].

Definition IsTrivialTest_row_0x1F : list bool :=
  let y := true in let n := false in
  [y; y; y; n; y; n; n; n; y; n; n; n; n; n; n; y;
   y; n; n; n; n; n; n; y; n; n; n; y; n; y; y; y].

Definition IsTrivialTest_row_0x17 : list bool :=
  let y := true in let n := false in
  [y; y; y; n; y; n; n; y; y; y; y; n; y; n; n; y;
   y; n; n; y; n; y; y; y; y; n; n; y; n; y; y; y].

(** One [for i, r in enumerate(row): assertEqual(r, is_trivial_split(i, mask))]
    loop of the test. *)
Definition IsTrivialTest_loop (is_trivial_split : Z → Z → bool)
    (row : list bool) (mask : Z) : bool :=
  forallb (λ ir, Bool.eqb (snd ir) (is_trivial_split (fst ir) mask))
          (enumerate row).

(** [IsTrivialTest.runTest], over the library function it exercises:
    [true] when every assertion of the test holds. *)
Definition IsTrivialTest_runTest (is_trivial_split : Z → Z → bool) : bool :=
  IsTrivialTest_loop is_trivial_split IsTrivialTest_row_0xF 0xF
  && IsTrivialTest_loop is_trivial_split IsTrivialTest_row_0x1F 0x1F
  && IsTrivialTest_loop is_trivial_split IsTrivialTest_row_0x17 0x17.

(** The masks the test exercises. *)
Definition IsTrivialTest_masks : list Z := [0xF; 0x1F; 0x17].

(** Modelled from the spec: [treesplit.is_trivial_split] is not among the
    sources.  This is the rule of the design document, word for word:
    "true iff popcount(split) == 1 or popcount(split) == popcount(full_mask) - 1". *)
Definition is_trivial_spec (split full_mask : Z) : bool :=
  (count_bits split =? 1) || (count_bits split =? count_bits full_mask - 1).

(** Modelled from the spec: [treesplit.is_trivial_split] is not among the
    sources.  The popcount rule of the design document read on the split
    restricted to the taxa of [mask] (its "effective taxon count"), and with
    the degenerate sides (no taxon of the mask, every taxon of the mask)
    counted as trivial, which is what [IsTrivialTest] expects of the
    library. *)
Definition is_trivial_split (split mask : Z) : bool :=
  let k := count_bits (Z.land split mask) in
  (k <=? 1) || (count_bits mask - 1 <=? k).

(** The same rule as a proposition. *)
Definition trivial_on_mask (split mask : Z) : Prop :=
  count_bits (Z.land split mask) ≤ 1
  ∨ count_bits mask - 1 ≤ count_bits (Z.land split mask).

(** Modelled from the spec: split normalisation is not among the sources;
    "canonical form is min(mask, full_mask XOR mask)". *)
Definition normalize (split full_mask : Z) : Z :=
  Z.min split (Z.lxor full_mask split).

End Bitmask.

(** ** Decimal and binary floating point, as far as the driver uses them *)

Module PyNum.

Local Open Scope Z_scope.

(** A finite non-negative [decimal.Decimal]: [dec_coeff * 10 ^ dec_exp]. *)
Record Decimal := mkDecimal { dec_coeff : Z; dec_exp : Z }.

(** Precision of Python's default decimal context. *)
Definition getcontext_prec : Z := 28.

(** Number of decimal digits of a positive coefficient
    ([len(str(c))] in the Python implementation). *)
Fixpoint digits_go (fuel : nat) (c : Z) : Z :=
  match fuel with
  | O => 0
  | S f => if c <=? 0 then 0 else 1 + digits_go f (c / 10)
  end.

Definition digits (c : Z) : Z := digits_go (Z.to_nat (Z.log2 c + 1)) c.

(** A finite Python [float] is a binary64 number; it is carried by the
    rational it denotes, in lowest terms (what [float.as_integer_ratio]
    returns). *)
Definition Decimal_from_float (f : Q) : Decimal :=
  let n := Qnum (Qred f) in
  let d := Zpos (Qden (Qred f)) in
  let k := Z.log2 d in                       (* d.bit_length() - 1 *)
  mkDecimal (n * 5 ^ k) (- k).

(** [Decimal.next_plus()] in the default context, on a positive operand
    that fits the precision: the coefficient is padded to [prec] digits and
    incremented in its last place. *)
Definition next_plus (d : Decimal) : Decimal :=
  let shift := getcontext_prec - digits (dec_coeff d) in
  mkDecimal (dec_coeff d * 10 ^ shift + 1) (dec_exp d - shift).

(** The exact value of a decimal. *)
Definition Decimal_to_Q (d : Decimal) : Q :=
  if 0 <=? dec_exp d
  then Qmake (dec_coeff d * 10 ^ dec_exp d) 1
  else Qmake (dec_coeff d) (Z.to_pos (10 ^ (- dec_exp d))).

(** Nearest integer to [n / d] ([0 < d]), ties to the even neighbour. *)
Definition round_half_even (n d : Z) : Z :=
  let q := n / d in
  let r := n mod d in
  match 2 * r ?= d with
  | Lt => q
  | Gt => q + 1
  | Eq => if Z.even q then q else q + 1
  end.

(** Correctly rounded conversion of a positive rational to binary64
    (53-bit significand, round-half-even), within the normal range. *)
Definition binary64_of_pos (n d : Z) : Q :=
  let e0 := Z.log2 n - Z.log2 d in
  let e := if d * 2 ^ (Z.max 0 e0) <=? n * 2 ^ (Z.max 0 (- e0))
           then e0 else e0 - 1 in            (* 2^e <= n/d < 2^(e+1) *)
  let s := 52 - e in
  if 0 <=? s
  then Qred (Qmake (round_half_even (n * 2 ^ s) d) (Z.to_pos (2 ^ s)))
  else Qred (Qmake (round_half_even n (d * 2 ^ (- s)) * 2 ^ (- s)) 1).

(** [float(x)] for an exact rational [x] (as [Decimal.__float__] does
    through the correctly rounded string conversion). *)
Definition float_of_Q (x : Q) : Q :=
  match Qnum x with
  | Z0 => 0%Q
  | Zpos _ => binary64_of_pos (Qnum x) (Zpos (Qden x))
  | Zneg _ => Qopp (binary64_of_pos (- Qnum x) (Zpos (Qden x)))
  end.

(** [x + y] on two Python floats: the exact sum, correctly rounded.  The
    floats are carried by the rationals they denote. *)
Definition float_add (x y : Qc) : Qc := Q2Qc (float_of_Q (this (x + y)%Qc)).

(** [GREATER_THAN_50_PERCENT = float(Decimal(0.5).next_plus())]
    (sumtrees.py, line 71). *)
Definition GREATER_THAN_50_PERCENT : Q :=
  float_of_Q (Decimal_to_Q (next_plus (Decimal_from_float (1 # 2)))).

(** Python float values as the option parser can deliver them
    ([type="float"] accepts [inf] and [nan] too). *)
Inductive pyfloat :=
| PFinite (q : Q)
| PInf
| PNegInf
| PNaN.

(** IEEE comparison; [None] when an operand is a NaN (every ordered
    comparison is then false). *)
Definition float_compare (a b : pyfloat) : option comparison :=
  match a, b with
  | PNaN, _ | _, PNaN => None
  | PFinite x, PFinite y => Some (Qcompare x y)
  | PInf, PInf | PNegInf, PNegInf => Some Eq
  | PInf, _ | _, PNegInf => Some Gt
  | PNegInf, _ | _, PInf => Some Lt
  end.

(** [a > b] *)
Definition float_gt (a b : pyfloat) : bool :=
  match float_compare a b with Some Gt => true | _ => false end.

(** [a <= b] *)
Definition float_le (a b : pyfloat) : bool :=
  match float_compare a b with Some Lt | Some Eq => true | _ => false end.

(** [a >= b] *)
Definition float_ge (a b : pyfloat) : bool :=
  match float_compare a b with Some Gt | Some Eq => true | _ => false end.

Definition float_one : pyfloat := PFinite 1.

(** Modelled from the spec: [TreeSummarizer.tree_from_splits] is not among
    the sources; a split enters the consensus when its
    "frequency ≥ min_freq". *)
Definition clears_min_freq (freq min_freq : pyfloat) : bool :=
  float_ge freq min_freq.

End PyNum.

(** ** The aggregation engine the driver calls *)

Module Engine.

Import Bitmask PyNum.

(** Modelled from the spec: [dendropy.TaxonNamespace] is not among the
    sources.  "Ordered set of taxon identifiers; each taxon has a fixed bit
    index assigned at first registration"; registration is "idempotent per
    label". *)
Record TaxonNamespace := mkTaxonNamespace { ns_labels : list string }.

Definition ns_register (label : string) (ns : TaxonNamespace) : TaxonNamespace :=
  if bool_decide (label ∈ ns_labels ns) then ns
  else mkTaxonNamespace (ns_labels ns ++ [label]).

(** [dendropy.TaxonNamespace(labels)] *)
Definition TaxonNamespace_new (labels : list string) : TaxonNamespace :=
  foldl (λ ns l, ns_register l ns) (mkTaxonNamespace []) labels.

Fixpoint index_from (i : nat) (label : string) (ls : list string) : option nat :=
  match ls with
  | [] => None
  | l :: rest => if bool_decide (l = label) then Some i
                 else index_from (S i) label rest
  end.

(** The bit index the namespace assigns to a label. *)
Definition bit_index (ns : TaxonNamespace) (label : string) : option nat :=
  index_from 0 label (ns_labels ns).

Definition all_taxa_bitmask (ns : TaxonNamespace) : Z :=
  2 ^ Z.of_nat (length (ns_labels ns)) - 1.

(** A parsed tree as the driver receives it from [Tree.yield_from_files]:
    its namespace, its rooting state ([True], [False] or [None]), its
    intrinsic weight when one is stored, and its edges with the split
    bitmask the codec assigns and the edge length. *)
Record Edge := mkEdge { split_bitmask : Z; edge_length : option Qc }.

Record Tree := mkTree {
  tree_taxon_namespace : TaxonNamespace;
  is_rooted : option bool;
  tree_weight : option Qc;
  tree_edges : list Edge
}.

(** Modelled from the spec: the tree reader and the split codec are not
    among the sources.  The reader is handed the namespace to read into and
    registers the taxa of the tree there ("each taxon has a fixed bit index
    assigned at first registration", registration being "idempotent per
    label"); the codec then sets, on every edge, "bit i ⇔ taxon i is on the
    far side".  A [Tree] of a source is the tree as it is read into a
    namespace of its own; [read_tree ns t] is the same tree read into
    [ns]. *)
Definition register_taxa (ns : TaxonNamespace) (labels : list string) : TaxonNamespace :=
  foldl (λ ns l, ns_register l ns) ns labels.

(** Modelled from the spec: the taxa whose bit is set in [mask] ("bit i ⇔
    taxon i is on the far side"), [labels] being the taxa of the bits [i],
    [i + 1], ... *)
Fixpoint taxa_of_bitmask (labels : list string) (i : Z) (mask : Z) : list string :=
  match labels with
  | [] => []
  | l :: rest =>
      (if Z.testbit mask i then [l] else []) ++ taxa_of_bitmask rest (i + 1) mask
  end.

Definition bit_of (ns : TaxonNamespace) (label : string) : Z :=
  match bit_index ns label with
  | Some i => 2 ^ Z.of_nat i
  | None => 0
  end.

Definition bitmask_of_taxa (ns : TaxonNamespace) (taxa : list string) : Z :=
  foldl (λ mask l, Z.lor mask (bit_of ns l)) 0 taxa.

Definition encode_edge (ns : TaxonNamespace) (t : Tree) (e : Edge) : Edge :=
  mkEdge
    (bitmask_of_taxa ns
       (taxa_of_bitmask (ns_labels (tree_taxon_namespace t)) 0 (split_bitmask e)))
    (edge_length e).

Definition encode_tree (ns : TaxonNamespace) (t : Tree) : Tree :=
  mkTree ns (is_rooted t) (tree_weight t) (encode_edge ns t <$> tree_edges t).

Definition read_tree (ns : TaxonNamespace) (t : Tree) : Tree :=
  encode_tree (register_taxa ns (ns_labels (tree_taxon_namespace t))) t.

(** Modelled from the spec: a stream of trees read into one namespace,
    which grows with the taxa it meets. *)
Fixpoint read_trees (ns : TaxonNamespace) (trees : list Tree) : list Tree :=
  match trees with
  | [] => []
  | t :: rest =>
      let t' := read_tree ns t in
      t' :: read_trees (tree_taxon_namespace t') rest
  end.

(** Modelled from the spec: the namespace after [trees] have been read
    into [ns]. *)
Definition namespace_after (ns : TaxonNamespace) (trees : list Tree) : TaxonNamespace :=
  foldl (λ _ t, tree_taxon_namespace t) ns trees.

(** Modelled from the spec: [treesplit.SplitDistribution] is not among the
    sources.  "Mapping from Split to aggregate statistics: occurrence count
    (float, supports fractional tree weights), list of edge lengths observed
    for that split"; "total trees counted, total tree weight, set of rooting
    types seen across all counted trees".  Counts and weights are floats,
    carried by the rationals they denote and added with [float_add]. *)
Record SplitDistribution := mkSplitDistribution {
  sd_taxon_namespace : TaxonNamespace;
  total_trees_counted : Z;
  sum_of_tree_weights : Qc;
  tree_rooting_types_counted : gset (option bool);
  split_counts : gmap Z Qc;
  split_edge_lengths : gmap Z (list Qc)
}.

(** [treesplit.SplitDistribution(taxon_namespace=...)] *)
Definition SplitDistribution_new (ns : TaxonNamespace) : SplitDistribution :=
  mkSplitDistribution ns 0 0%Qc ∅ ∅ ∅.

(** [counts[k] += w] on a [defaultdict(float)]. *)
Definition add_count (k : Z) (w : Qc) (m : gmap Z Qc) : gmap Z Qc :=
  <[k := float_add (default 0%Qc (m !! k)) w]> m.

(** [lengths[k].append(x)] on a [defaultdict(list)]. *)
Definition append_length (k : Z) (x : Qc) (m : gmap Z (list Qc)) : gmap Z (list Qc) :=
  <[k := default [] (m !! k) ++ [x]]> m.

(** The weight a tree is counted with. *)
Definition weight_of (t : Tree) : Qc := default 1%Qc (tree_weight t).

(** The key an edge is stored under: "canonicalizes the edge's split
    (normalize if unrooted)". *)
Definition split_key (t : Tree) (e : Edge) : Z :=
  match is_rooted t with
  | Some true => split_bitmask e
  | _ => normalize (split_bitmask e) (all_taxa_bitmask (tree_taxon_namespace t))
  end.

Definition count_edge (t : Tree) (sd : SplitDistribution) (e : Edge) : SplitDistribution :=
  let k := split_key t e in
  mkSplitDistribution
    (sd_taxon_namespace sd)
    (total_trees_counted sd)
    (sum_of_tree_weights sd)
    (tree_rooting_types_counted sd)
    (add_count k (weight_of t) (split_counts sd))
    (match edge_length e with
     | Some x => append_length k x (split_edge_lengths sd)
     | None => split_edge_lengths sd
     end).

(** Modelled from the spec: [SplitDistribution.count_splits_on_tree], steps
    2 to 5 of the design document.  The rooting type is recorded; whether the
    recorded set is mixed is for the caller to test (both callers in
    sumtrees.py do so after the call returns). *)
Definition count_splits_on_tree (t : Tree) (sd : SplitDistribution) : SplitDistribution :=
  let sd1 := foldl (count_edge t) sd (tree_edges t) in
  mkSplitDistribution
    (sd_taxon_namespace sd1)
    (total_trees_counted sd1 + 1)
    (float_add (sum_of_tree_weights sd1) (weight_of t))
    (tree_rooting_types_counted sd1 ∪ {[ is_rooted t ]})
    (split_counts sd1)
    (split_edge_lengths sd1).

(** Per-key sum of two count tables. *)
Definition merge_counts (a b : gmap Z Qc) : gmap Z Qc :=
  union_with (λ x y, Some (float_add x y)) a b.

(** Per-key concatenation of two sample tables. *)
Definition merge_lengths (a b : gmap Z (list Qc)) : gmap Z (list Qc) :=
  union_with (λ x y, Some (x ++ y)) a b.

(** Modelled from the spec: [SplitDistribution.update] (the design
    document's [merge]): "for each split key, sums counts/weights and
    concatenates sample lists; unions rooting-type sets; sums
    total_trees_counted/total_weight". *)
Definition update (self other : SplitDistribution) : SplitDistribution :=
  mkSplitDistribution
    (sd_taxon_namespace self)
    (total_trees_counted self + total_trees_counted other)
    (float_add (sum_of_tree_weights self) (sum_of_tree_weights other))
    (tree_rooting_types_counted self ∪ tree_rooting_types_counted other)
    (merge_counts (split_counts self) (split_counts other))
    (merge_lengths (split_edge_lengths self) (split_edge_lengths other)).

(** Modelled from the spec: [SplitDistribution.is_mixed_rootings_counted];
    the set of rooting types seen "contains both rooted and unrooted". *)
Definition is_mixed_rootings_counted (sd : SplitDistribution) : bool :=
  bool_decide (Some true ∈ tree_rooting_types_counted sd)
  && bool_decide (Some false ∈ tree_rooting_types_counted sd).

(** [SplitDistribution.is_all_counted_trees_rooted()], a method (the test
    module calls it with parentheses): the body read off its name and off
    [check_splits_distribution], where it holds exactly for the rooted
    collections. *)
Definition is_all_counted_trees_rooted (sd : SplitDistribution) : bool :=
  bool_decide (tree_rooting_types_counted sd = {[ Some true ]}).

(** Modelled from the spec: [treesum.TopologyCounter] is not among the
    sources.  A topology is keyed by "the frozen set of that tree's
    non-trivial splits (post-normalization)"; [count] "increments that key's
    occurrence count by the tree's weight". *)
Record TopologyCounter := mkTopologyCounter {
  topology_hash_map : gmap (gset Z) Qc
}.

Definition TopologyCounter_new : TopologyCounter := mkTopologyCounter ∅.

Definition topology_key (t : Tree) : gset Z :=
  let mask := all_taxa_bitmask (tree_taxon_namespace t) in
  list_to_set
    (filter (λ k, is_trivial_split k mask = false) (split_key t <$> tree_edges t)).

Definition TopologyCounter_count (t : Tree) (tc : TopologyCounter) : TopologyCounter :=
  let k := topology_key t in
  mkTopologyCounter
    (<[k := float_add (default 0%Qc (topology_hash_map tc !! k)) (weight_of t)]>
       (topology_hash_map tc)).

(** Modelled from the spec: [TopologyCounter.update_topology_hash_map],
    "summing counts per key and unioning the key set". *)
Definition update_topology_hash_map (other : gmap (gset Z) Qc)
    (tc : TopologyCounter) : TopologyCounter :=
  mkTopologyCounter
    (union_with (λ x y, Some (float_add x y)) (topology_hash_map tc) other).

End Engine.

(** ** The driver: sumtrees.py *)

Module SumTrees.

Import Bitmask PyNum Engine.

Local Open Scope Z_scope.

(** A tree file: its path and the trees the parser yields from it, in
    file order. *)
Record Source := mkSource { src_path : string; src_trees : list Tree }.

(** *** SplitCountingWorker *)

Record SplitCountingWorker := mkWorker {
  taxon_labels : list string;
  taxon_namespace : TaxonNamespace;
  split_distribution : SplitDistribution;
  topology_counter : TopologyCounter;
  calc_tree_probs : bool;
  tree_offset : Z;
  process_idx : nat
}.

(** [SplitCountingWorker.__init__] (the fields the work loop reads). *)
Definition SplitCountingWorker_init (taxon_labels : list string)
    (calc_tree_probs : bool) (tree_offset : Z) (process_idx : nat)
    : SplitCountingWorker :=
  let labels := taxon_labels in                       (* list(taxon_labels) *)
  let ns := TaxonNamespace_new labels in
  mkWorker labels ns (SplitDistribution_new ns) TopologyCounter_new
           calc_tree_probs tree_offset process_idx.

(** What a worker does that another process can observe, in order. *)
Inductive wevent :=
| ReadKill (b : bool)                       (* a read of [self.kill_received] *)
| GetTask (path : string)                   (* [work_queue.get_nowait()] *)
| QueueEmpty                                (* ... raised [queue.Empty] *)
| NextTree (path : string) (tidx : Z)       (* the [for] loop draws a tree *)
| Counted (path : string) (tidx : Z)
| Skipped (path : string) (tidx : Z)
| Completed (path : string)
| KillWarning                               (* "Terminating in response to kill request." *)
| PutSplitDist (sd : SplitDistribution)     (* [result_split_dist_queue.put] *)
| PutTopologyHashMap (m : gmap (gset Z) Qc). (* [result_topology_hash_map_queue.put] *)

Record wstate := mkWState {
  ws_self : SplitCountingWorker;
  ws_reads : nat;
  ws_trace : list wevent
}.

(** The two counting calls of the loop body (lines 152 to 155). *)
Definition count_tree (t : Tree) (w : SplitCountingWorker) : SplitCountingWorker :=
  mkWorker (taxon_labels w) (taxon_namespace w)
    (count_splits_on_tree t (split_distribution w))
    (if calc_tree_probs w then TopologyCounter_count t (topology_counter w)
     else topology_counter w)
    (calc_tree_probs w) (tree_offset w) (process_idx w).

(** The reader extends the namespace it is handed, and that namespace is
    the worker's own (line 145; line 148 asserts it of every tree). *)
Definition set_taxon_namespace (ns : TaxonNamespace) (w : SplitCountingWorker)
    : SplitCountingWorker :=
  mkWorker (taxon_labels w) ns (split_distribution w) (topology_counter w)
           (calc_tree_probs w) (tree_offset w) (process_idx w).

Definition emit (e : wevent) (st : wstate) : wstate :=
  mkWState (ws_self st) (ws_reads st) (ws_trace st ++ [e]).

Definition with_self (f : SplitCountingWorker → SplitCountingWorker) (st : wstate) : wstate :=
  mkWState (f (ws_self st)) (ws_reads st) (ws_trace st).

Section WorkerRun.

(** The flag [kill_received] is written from outside the work loop.  A
    request, if there is one, is in place from the [k]-th read of the flag
    on, and is not withdrawn. *)
Variable kill_at : option nat.

Definition kill_received (n : nat) : bool :=
  match kill_at with
  | Some k => (k <=? n)%nat
  | None => false
  end.

Definition read_kill (st : wstate) : bool * wstate :=
  let b := kill_received (ws_reads st) in
  (b, mkWState (ws_self st) (S (ws_reads st)) (ws_trace st ++ [ReadKill b])).

(** The [for tidx, tree in enumerate(...)] loop over one file
    (lines 142 to 160). *)
Fixpoint for_trees (path : string) (tidx : Z) (trees : list Tree)
    (st : wstate) : wstate :=
  match trees with
  | [] => st
  | t :: rest =>
      let st1 := emit (NextTree path tidx) st in
      let st2 := if tree_offset (ws_self st1) <=? tidx
                 then emit (Counted path tidx) (with_self (count_tree t) st1)
                 else emit (Skipped path tidx) st1 in
      let '(k, st3) := read_kill st2 in
      if k then st3 else for_trees path (tidx + 1) rest st3
  end.

(** The [while not self.kill_received] loop (lines 135 to 163); [queue]
    holds the tasks this worker draws until the queue reports empty.  The
    trees of a task are read into the worker's namespace
    ([taxon_namespace=self.taxon_namespace], line 145), which keeps the
    taxa the reader has registered. *)
Fixpoint while_loop (queue : list Source) (st : wstate) : wstate :=
  let '(k, st1) := read_kill st in
  if k then st1 else
  match queue with
  | [] => emit QueueEmpty st1
  | source :: rest =>
      let st2 := emit (GetTask (src_path source)) st1 in
      let trees := read_trees (taxon_namespace (ws_self st2)) (src_trees source) in
      let st3 :=
        with_self
          (set_taxon_namespace (namespace_after (taxon_namespace (ws_self st2)) trees))
          (for_trees (src_path source) 0 trees st2) in
      let '(k', st4) := read_kill st3 in
      if k' then st4
      else while_loop rest (emit (Completed (src_path source)) st4)
  end.

(** [SplitCountingWorker.run] *)
Definition run (queue : list Source) (w : SplitCountingWorker) : wstate :=
  let st := while_loop queue (mkWState w 0 []) in
  let '(k, st1) := read_kill st in
  if k then emit KillWarning st1
  else emit (PutTopologyHashMap (topology_hash_map (topology_counter (ws_self st1))))
         (emit (PutSplitDist (split_distribution (ws_self st1))) st1).

End WorkerRun.

(** What ends up on the two result queues. *)
Definition put_split_dists (tr : list wevent) : list SplitDistribution :=
  omap (λ e, match e with PutSplitDist sd => Some sd | _ => None end) tr.

Definition put_topology_hash_maps (tr : list wevent) : list (gmap (gset Z) Qc) :=
  omap (λ e, match e with PutTopologyHashMap m => Some m | _ => None end) tr.

(** *** The main process *)

(** How a call ends. *)
Inductive outcome (A : Type) :=
| Returned (a : A)
| Exited (code : Z)          (* [sys.exit(code)] *)
| Raised (exn : string)      (* an uncaught exception *)
| Blocked.                   (* a blocking [get()] on a queue nobody fills *)
Arguments Returned {A} a.
Arguments Exited {A} code.
Arguments Raised {A} exn.
Arguments Blocked {A}.

(** What the main process does that is visible from outside: messages of
    warning and error level, the launch of workers, the calls that build
    the output trees, and the writes of the results.  Progress messages of
    info level are left out. *)
Inductive event :=
| Warning (msg : string)
| Error (msg : string)
| DiscoverTaxa (path : string)
| StartWorker (w : SplitCountingWorker)
| TreeFromSplits (min_freq : pyfloat)      (* [tsum.tree_from_splits] *)
| MapSplitSupport (target : Tree)          (* [tsum.map_split_support_to_tree] *)
| WriteResultTrees (n : nat)               (* [result_trees.write_to_stream] *)
| WriteTreeProbs                           (* [tree_list.write_to_stream(trprobs_dest, ...)] *)
| WriteSplitEdges.                         (* the rows written to [split_edge_map_dest] *)

Definition action (A : Type) : Type := list event * outcome A.

#[global] Instance action_ret : MRet action := λ A a, ([], Returned a).

#[global] Instance action_bind : MBind action := λ A B f m,
  match m with
  | (tr, Returned a) => let '(tr', o) := f a in (tr ++ tr', o)
  | (tr, Exited c) => (tr, Exited c)
  | (tr, Raised x) => (tr, Raised x)
  | (tr, Blocked) => (tr, Blocked)
  end.

Definition log (e : event) : action unit := ([e], Returned tt).
Definition sys_exit {A} (code : Z) : action A := ([], Exited code).
Definition raise {A} (exn : string) : action A := ([], Raised exn).
Definition lift {A} (o : outcome A) : action A := ([], o).

Definition mixed_rootings_message : string :=
  "Both rooted as well as unrooted trees found in input trees. Support values are meaningless. Rerun SumTrees using the '--rooted' or the '--unrooted' option to force a consistent rooting state for the support trees."%string.

(** [mixed_tree_rootings_in_source_error] *)
Definition mixed_tree_rootings_in_source_error {A} : action A :=
  log (Error mixed_rootings_message) ;; sys_exit 1.

(** [discover_taxa]: the namespace of the first tree of the file. *)
Definition discover_taxa (treefile : Source) : outcome TaxonNamespace :=
  match src_trees treefile with
  | tree :: _ => Returned (tree_taxon_namespace tree)
  | [] => Raised "AttributeError"%string          (* [tt] is still [None] *)
  end.

(** The collation loop of [process_sources_parallel] (lines 248 to 253). *)
Fixpoint collate (remaining : nat)
    (result_split_dist_queue : list SplitDistribution)
    (result_topology_hash_map_queue : list (gmap (gset Z) Qc))
    (sd : SplitDistribution) (tc : TopologyCounter)
    : outcome (SplitDistribution * TopologyCounter) :=
  match remaining with
  | O => Returned (sd, tc)
  | S n =>
      match result_split_dist_queue with
      | [] => Blocked
      | result_split_dist :: sdq =>
          let sd' := update sd result_split_dist in
          match result_topology_hash_map_queue with
          | [] => Blocked
          | result_topology_hash_map :: mq =>
              collate n sdq mq sd' (update_topology_hash_map result_topology_hash_map tc)
          end
      end
  end.

(** The worker with index [idx] having drawn [tasks], what it leaves on the
    result queues.  Nothing in sumtrees.py sets [kill_received], so in a run
    of the program every read of the flag gives [False]. *)
Definition worker_trace (workers : list SplitCountingWorker)
    (arrival : nat * list Source) : list wevent :=
  match workers !! fst arrival with
  | Some w => ws_trace (run None (snd arrival) w)
  | None => []
  end.

(** [process_sources_parallel].  [arrivals] describes the schedule: in the
    order in which the workers finish, the index of the worker and the
    tasks it drew from the work queue. *)
Definition process_sources_parallel (num_processes : Z)
    (support_filepaths : list Source) (calc_tree_probs : bool)
    (tree_offset : Z) (arrivals : list (nat * list Source))
    : action (SplitDistribution * TopologyCounter) :=
  match support_filepaths with
  | [] => raise "IndexError"%string
  | tdfpath :: _ =>
      log (DiscoverTaxa (src_path tdfpath)) ;;
      taxon_namespace ← lift (discover_taxa tdfpath) ;
      let taxon_labels := ns_labels taxon_namespace in
      let workers :=
        SplitCountingWorker_init taxon_labels calc_tree_probs tree_offset
          <$> seq 0 (Z.to_nat num_processes) in
      ((StartWorker <$> workers, Returned tt) : action unit) ;;
      let traces := worker_trace workers <$> arrivals in
      lift (collate (Z.to_nat num_processes)
              (concat (put_split_dists <$> traces))
              (concat (put_topology_hash_maps <$> traces))
              (SplitDistribution_new taxon_namespace)
              TopologyCounter_new)
  end.

(** The [for tidx, tree in enumerate(tree_yielder)] loop of
    [process_sources_serial] (lines 296 to 313). *)
Fixpoint serial_loop (tree_offset tidx : Z) (trees : list Tree)
    (split_distribution : SplitDistribution) (topology_counter : TopologyCounter)
    : action (SplitDistribution * TopologyCounter) :=
  match trees with
  | [] => mret (split_distribution, topology_counter)
  | tree :: rest =>
      if tree_offset <=? tidx then
        let sd := count_splits_on_tree tree split_distribution in
        if (1 <? size (tree_rooting_types_counted sd))%nat
        then mixed_tree_rootings_in_source_error
        else serial_loop tree_offset (tidx + 1) rest sd
               (TopologyCounter_count tree topology_counter)
      else serial_loop tree_offset (tidx + 1) rest split_distribution topology_counter
  end.

(** [Tree.yield_from_files(srcs, ...)]: the trees of every source, one
    source after the other, as one stream; [read_trees] reads the stream
    into the namespace given as [taxon_namespace=...]. *)
Definition yield_from_files (srcs : list Source) : list Tree :=
  concat (src_trees <$> srcs).

(** [process_sources_serial].  [support_filepaths] is [None] when the trees
    are streamed in. *)
Definition process_sources_serial (stdin : Source)
    (support_filepaths : option (list Source)) (tree_offset : Z)
    : action (SplitDistribution * TopologyCounter) :=
  let taxon_namespace := TaxonNamespace_new [] in
  let srcs := match support_filepaths with
              | None | Some [] => [stdin]
              | Some fs => fs
              end in
  serial_loop tree_offset 0 (read_trees taxon_namespace (yield_from_files srcs))
    (SplitDistribution_new taxon_namespace) TopologyCounter_new.

(** *** main_cli *)

(** The value of [--multiprocessing] when it is given a non-empty text. *)
Inductive multiprocess_arg :=
| MPStar                      (* "*" *)
| MPAt                        (* "@" *)
| MPInt (n : Z)               (* a text [int()] accepts *)
| MPNotInt (text : string).   (* any other text: [int()] raises ValueError *)

(** The parsed options the main work reads. *)
Record Options := mkOptions {
  burnin : Z;
  multiprocess : option multiprocess_arg;
  from_stream : bool;            (* [from_newick_stream or from_nexus_stream] *)
  min_clade_freq : pyfloat;
  trprobs_filepath : bool;       (* whether the option is given *)
  split_edge_map_filepath : bool (* whether the option is given *)
}.

(** What the run finds outside the program. *)
Record Environment := mkEnvironment {
  cpu_count : Z;
  stdin : Source;
  arrivals : list (nat * list Source);
  target_tree_file : option (list Tree) (* the trees of the target file, if one is used *)
}.

(** Python values an attribute access can give here. *)
Inductive pyobject :=
| PyBool (b : bool)
| PyNone
| PyBoundMethod (call : unit → bool).

(** Truth value of an object in an [if]. *)
Definition truth (o : pyobject) : bool :=
  match o with
  | PyBool b => b
  | PyNone => false
  | PyBoundMethod _ => true
  end.

(** [master_split_distribution.is_all_counted_trees_rooted], without a
    call: the bound method itself. *)
Definition getattr_is_all_counted_trees_rooted (sd : SplitDistribution) : pyobject :=
  PyBoundMethod (λ _, is_all_counted_trees_rooted sd).

(** [tree.is_rooted] as a condition. *)
Definition tree_is_rooted (t : Tree) : pyobject :=
  match is_rooted t with
  | Some b => PyBool b
  | None => PyNone
  end.

Definition not_an_int_message : string :=
  "'%s' is not a valid number of processes (must be a positive integer)."%string.
Definition no_process_message : string :=
  "Maximum number of processes set to %d: cannot run SumTrees with less than 1 process"%string.
Definition one_process_message : string :=
  "Running in parallel processing mode but limited to only 1 process: probably more efficient to run in serial mode!"%string.
Definition one_source_message : string :=
  "Parallel processing mode requested but only one source specified: defaulting to serial mode."%string.
Definition target_unrooted_message : string :=
  "Support trees are rooted, but target tree is unrooted. Root target tree(s) and re-run, or run using the '--root-target' flag."%string.
Definition target_rooted_message : string :=
  "Support trees are unrooted, but target tree is rooted. Ensure target tree(s) are all of the same rooting state as the input support trees."%string.
Definition clamp_message : string :=
  "Maximum frequency threshold for clade inclusion is 1.0: reset to 1.0."%string.

(** "Main work begins here: Count the splits" (lines 703 to 752). *)
Definition count_sources (opts : Options) (env : Environment)
    (support_filepaths : list Source)
    : action (SplitDistribution * TopologyCounter) :=
  if (1 <? length support_filepaths)%nat && bool_decide (is_Some (multiprocess opts))
  then
    num_processes ←
      match multiprocess opts with
      | Some MPStar => mret (cpu_count env)
      | Some MPAt => mret (Z.of_nat (length support_filepaths))
      | Some (MPInt n) => mret n
      | Some (MPNotInt _) => log (Error not_an_int_message) ;; sys_exit 1
      | None => mret 0
      end;
    (if num_processes <=? 0
     then log (Error no_process_message) ;; sys_exit 1
     else mret tt) ;;
    (if num_processes =? 1 then log (Warning one_process_message) else mret tt) ;;
    process_sources_parallel num_processes support_filepaths
      (trprobs_filepath opts) (burnin opts) (arrivals env)
  else
    (if bool_decide (is_Some (multiprocess opts))
        && (length support_filepaths =? 1)%nat
     then log (Warning one_source_message) else mret tt) ;;
    process_sources_serial (stdin env)
      (if from_stream opts then None else Some support_filepaths)
      (burnin opts).

(** The rooting test on one target tree (lines 852 to 858). *)
Definition check_target_rooting (master_split_distribution : SplitDistribution)
    (tree : Tree) : action unit :=
  if truth (getattr_is_all_counted_trees_rooted master_split_distribution) then
    if negb (truth (tree_is_rooted tree))
    then log (Error target_unrooted_message) ;; sys_exit 1
    else mret tt
  else if truth (tree_is_rooted tree)
    then log (Error target_rooted_message) ;; sys_exit 1
    else mret tt.

(** The loop over the trees of the target file (lines 843 to 865);
    the result is [len(tt_trees)]. *)
Fixpoint map_target_trees (master_split_distribution : SplitDistribution)
    (trees : list Tree) (tt_trees : nat) : action nat :=
  match trees with
  | [] => mret tt_trees
  | tree :: rest =>
      check_target_rooting master_split_distribution tree ;;
      log (MapSplitSupport tree) ;;
      map_target_trees master_split_distribution rest (S tt_trees)
  end.

(** The threshold handed to [tree_from_splits] (lines 876 to 880). *)
Definition construct_consensus (opts : Options) : action nat :=
  min_freq ←
    (if float_gt (min_clade_freq opts) float_one
     then log (Warning clamp_message) ;; mret float_one
     else mret (min_clade_freq opts));
  log (TreeFromSplits min_freq) ;;
  mret 1%nat.

(** [main_cli], from the check of the sources on.  [support_filepaths] are
    the existing files among the arguments.  The steps that only decorate
    the trees already built (node metadata, edge-length and node-age
    summarization, rooting of the target at midpoint) and the choice of the
    output format are left out: they lie between the construction of the
    trees and the writes, and none of them ends the run by [sys.exit]. *)
Definition main_cli (opts : Options) (env : Environment)
    (support_filepaths : list Source) : action unit :=
  (if (length support_filepaths =? 0)%nat && negb (from_stream opts)
   then sys_exit 1 else mret tt) ;;
  master ← count_sources opts env support_filepaths;
  let master_split_distribution := fst master in
  (if is_mixed_rootings_counted master_split_distribution
   then mixed_tree_rootings_in_source_error else mret tt) ;;
  tt_trees ←
    match target_tree_file env with
    | Some trees => map_target_trees master_split_distribution trees 0
    | None => construct_consensus opts
    end;
  log (WriteResultTrees tt_trees) ;;
  (if trprobs_filepath opts then log WriteTreeProbs else mret tt) ;;
  (if split_edge_map_filepath opts then log WriteSplitEdges else mret tt).

(** The events that put a summary out. *)
Definition is_output (e : event) : bool :=
  match e with
  | TreeFromSplits _ | MapSplitSupport _
  | WriteResultTrees _ | WriteTreeProbs | WriteSplitEdges => true
  | _ => false
  end.

End SumTrees.
(** ** Vocabulary of the statements *)

Module Props.

Import Bitmask PyNum Engine SumTrees.

(** The events a worker may still produce once a read of the flag has
    seen the kill request: further reads of the flag, and the warning. *)
Definition quiet_event (e : wevent) : bool :=
  match e with
  | ReadKill true | KillWarning => true
  | _ => false
  end.

Definition kill_seen (e : wevent) : bool :=
  match e with
  | ReadKill true => true
  | _ => false
  end.

(** A monitor over a worker's trace.  It starts with [seen = false], moves
    to [seen = true] at the first read that sees the request, and from then
    on rejects ([None]) any event that is not quiet. *)
Fixpoint watch (seen : bool) (tr : list wevent) : option bool :=
  match tr with
  | [] => Some seen
  | e :: rest =>
      if seen then (if quiet_event e then watch true rest else None)
      else watch (kill_seen e) rest
  end.

(** No read of the flag has seen the request so far. *)
Definition Clean (st : wstate) : Prop := watch false (ws_trace st) = Some false.

(** A read has seen the request, the trace since then is quiet, and every
    further read will see it too. *)
Definition Stopped (kill_at : option nat) (st : wstate) : Prop :=
  watch false (ws_trace st) = Some true
  ∧ ∃ k, kill_at = Some k ∧ (k < ws_reads st)%nat.

(** What a worker has put on the two result queues so far. *)
Definition puts (st : wstate) : list SplitDistribution * list (gmap (gset Z) Qc) :=
  (put_split_dists (ws_trace st), put_topology_hash_maps (ws_trace st)).

(** What a worker's run leaves behind. *)
Definition run_trace (kill_at : option nat) (queue : list Source)
    (w : SplitCountingWorker) : list wevent :=
  ws_trace (run kill_at queue w).

(** What a call of [process_sources_parallel] leaves behind. *)
Definition parallel_trace (num_processes : Z) (support_filepaths : list Source)
    (calc_tree_probs : bool) (tree_offset : Z)
    (arrivals : list (nat * list Source)) : list event :=
  fst (process_sources_parallel num_processes support_filepaths
         calc_tree_probs tree_offset arrivals).

(** The trees of its tasks that a worker counts: those at index
    [tree_offset] or later within each file. *)
Definition counted_by_worker (tree_offset : Z) (tasks : list Source) : list Tree :=
  concat ((λ s, drop (Z.to_nat tree_offset) (src_trees s)) <$> tasks).

(** The trees the serial pass counts: those at index [tree_offset] or
    later within the stream of all files. *)
Definition counted_serially (tree_offset : Z) (srcs : list Source) : list Tree :=
  drop (Z.to_nat tree_offset) (yield_from_files srcs).

(** The same trees as the worker reads them: every task is read into the
    worker's namespace as the tasks before it have left it. *)
Fixpoint read_by_worker (ns : TaxonNamespace) (tree_offset : Z) (tasks : list Source)
    : list Tree :=
  match tasks with
  | [] => []
  | s :: rest =>
      let trees := read_trees ns (src_trees s) in
      drop (Z.to_nat tree_offset) trees
        ++ read_by_worker (namespace_after ns trees) tree_offset rest
  end.

(** What the claims compare of the result of a counting pass: the count of
    every split, the total weight, the number of trees, the rooting types
    seen, and the count of every topology.  The sums of a summary are
    exact. *)
Record Summary := mkSummary {
  s_counts : gmap Z Qc;
  s_weight : Qc;
  s_total : Z;
  s_rootings : gset (option bool);
  s_topologies : gmap (gset Z) Qc
}.

Definition summarize (sd : SplitDistribution) (tc : TopologyCounter) : Summary :=
  mkSummary (split_counts sd) (sum_of_tree_weights sd) (total_trees_counted sd)
            (tree_rooting_types_counted sd) (topology_hash_map tc).

Definition summary_unit : Summary := mkSummary ∅ 0%Qc 0 ∅ ∅.

Definition summary_merge (a b : Summary) : Summary :=
  mkSummary
    (union_with (λ x y, Some (x + y)%Qc) (s_counts a) (s_counts b))
    (s_weight a + s_weight b)%Qc
    (s_total a + s_total b)
    (s_rootings a ∪ s_rootings b)
    (union_with (λ x y, Some (x + y)%Qc) (s_topologies a) (s_topologies b)).

(** The exact contribution of one tree: its weight under the key of each
    of its edges, and under its topology when [calc] is set. *)
Definition tree_counts (t : Tree) : gmap Z Qc :=
  foldr (λ e acc, union_with (λ x y, Some (x + y)%Qc)
                    {[ split_key t e := weight_of t ]} acc)
        ∅ (tree_edges t).

Definition tree_summary (calc : bool) (t : Tree) : Summary :=
  mkSummary (tree_counts t) (weight_of t) 1 {[ is_rooted t ]}
            (if calc then {[ topology_key t := weight_of t ]} else ∅).

Definition sum_summaries {A} (f : A → Summary) (l : list A) : Summary :=
  foldr (λ x acc, summary_merge (f x) acc) summary_unit l.

(** The summary without the topology counts. *)
Definition core (a : Summary) : Summary :=
  mkSummary (s_counts a) (s_weight a) (s_total a) (s_rootings a) ∅.

(** The test that sends [main_cli] to [process_sources_parallel]
    (line 705). *)
Definition runs_parallel (opts : Options) (support_filepaths : list Source) : bool :=
  (1 <? length support_filepaths)%nat && bool_decide (is_Some (multiprocess opts)).

(** The number of processes the options ask for, when they name one. *)
Definition requested_processes (opts : Options) (env : Environment)
    (support_filepaths : list Source) : option Z :=
  match multiprocess opts with
  | Some MPStar => Some (cpu_count env)
  | Some MPAt => Some (Z.of_nat (length support_filepaths))
  | Some (MPInt n) => Some n
  | _ => None
  end.

(** The sources the serial pass reads (none when [main_cli] stops at the
    check of its arguments). *)
Definition serial_sources (opts : Options) (env : Environment)
    (support_filepaths : list Source) : list Source :=
  if from_stream opts then [stdin env] else support_filepaths.

(** What a worker has accumulated. *)
Definition worker_summary (w : SplitCountingWorker) : Summary :=
  summarize (split_distribution w) (topology_counter w).

(** A worker's state after counting [ts] in order. *)
Definition count_trees (ts : list Tree) (w : SplitCountingWorker) : SplitCountingWorker :=
  foldl (λ w t, count_tree t w) w ts.

(** The state in which the worker that finishes as described by [a] ends. *)
Definition finished_worker (labels : list string) (calc : bool) (off : Z)
    (a : nat * list Source) : SplitCountingWorker :=
  count_trees (read_by_worker (TaxonNamespace_new labels) off (snd a))
    (SplitCountingWorker_init labels calc off (fst a)).

(** [z] units of [2^-p]. *)
Definition grid (p : nat) (z : Z) : Qc := Q2Qc (z # Z.to_pos (2 ^ Z.of_nat p)).

(** The number of units of [2^-p] in [w], rounded down. *)
Definition units (p : nat) (w : Qc) : Z :=
  (Qnum (this w) * 2 ^ Z.of_nat p) / Zpos (Qden (this w)).

(** [w] is a whole, non-negative number of units of [2^-p]. *)
Definition on_grid (p : nat) (w : Qc) : Prop :=
  0 ≤ units p w ∧ w = grid p (units p w).

(** A bound, in units of [2^-p], on what counting the tree adds to any sum
    the counting keeps: its weight once for each of its edges, and once
    more for the total weight and for its topology. *)
Definition mass (p : nat) (t : Tree) : Z :=
  units p (weight_of t) * (Z.of_nat (length (tree_edges t)) + 1).

Definition zsum {A} (f : A → Z) (l : list A) : Z :=
  foldr (λ x acc, f x + acc) 0 l.

Definition total_mass (p : nat) (ts : list Tree) : Z := zsum (mass p) ts.

(** Every value of a summary is a whole number of units, between 0 and [M]. *)
Definition grid_value (p : nat) (M : Z) (v : Qc) : Prop :=
  ∃ z, 0 ≤ z ≤ M ∧ v = grid p z.

Definition grid_map `{Countable K} (p : nat) (M : Z) (m : gmap K Qc) : Prop :=
  ∀ k v, m !! k = Some v → grid_value p M v.

Definition grid_summary (p : nat) (M : Z) (a : Summary) : Prop :=
  grid_map p M (s_counts a)
  ∧ grid_value p M (s_weight a)
  ∧ grid_map p M (s_topologies a).

(** What a counting pass returns, when it returns. *)
Definition returned {A} (a : action A) : option A :=
  match snd a with
  | Returned x => Some x
  | _ => None
  end.

End Props.

(** ** Sample inputs *)

Module Samples.

Import Bitmask PyNum Engine SumTrees.

Definition four_taxa : TaxonNamespace :=
  TaxonNamespace_new ["a"; "b"; "c"; "d"]%string.

(** ((a,b),c,d) read as a rooted tree, and three unrooted trees. *)
Definition rooted_ab : Tree :=
  mkTree four_taxa (Some true) None [mkEdge 3 None; mkEdge 1 None; mkEdge 2 None].
Definition unrooted_ab : Tree :=
  mkTree four_taxa (Some false) None [mkEdge 3 None; mkEdge 1 None; mkEdge 2 None].
Definition unrooted_ac : Tree :=
  mkTree four_taxa (Some false) None [mkEdge 5 None; mkEdge 1 None; mkEdge 4 None].
Definition unrooted_bc : Tree :=
  mkTree four_taxa (Some false) None [mkEdge 6 None; mkEdge 2 None; mkEdge 4 None].

Definition file_a : Source := mkSource "a.tre" [unrooted_ab; unrooted_ac].
Definition file_b : Source := mkSource "b.tre" [unrooted_bc; unrooted_ab].
Definition file_rooted : Source := mkSource "r.tre" [rooted_ab].

Definition no_stdin : Source := mkSource "<stdin>" [].

(** ((a,b),c,d), rooted, with the weight the float nearest to [w]. *)
Definition weighted_ab (w : Q) : Tree :=
  mkTree four_taxa (Some true) (Some (Q2Qc (float_of_Q w)))
    [mkEdge 3 None; mkEdge 1 None; mkEdge 2 None].

(** Three files of one tree each, weighted 0.1, 0.2 and 0.3. *)
Definition file_tenth : Source := mkSource "w1.tre" [weighted_ab (1 # 10)].
Definition file_fifth : Source := mkSource "w2.tre" [weighted_ab (2 # 10)].
Definition file_three_tenths : Source := mkSource "w3.tre" [weighted_ab (3 # 10)].

(** (a,e) and (a,f), rooted, each read into a namespace of its own. *)
Definition rooted_ae : Tree :=
  mkTree (TaxonNamespace_new ["a"; "e"]%string) (Some true) None
    [mkEdge 1 None; mkEdge 2 None].
Definition rooted_af : Tree :=
  mkTree (TaxonNamespace_new ["a"; "f"]%string) (Some true) None
    [mkEdge 1 None; mkEdge 2 None].

Definition file_e : Source := mkSource "e.tre" [rooted_ae].
Definition file_f : Source := mkSource "f.tre" [rooted_af].
Definition file_empty : Source := mkSource "empty.tre" [].

(** The options as the parser leaves them when only tree files are given,
    with the burn-in set. *)
Definition options_with_burnin (b : Z) : Options :=
  mkOptions b None false (PFinite GREATER_THAN_50_PERCENT) false false.

Definition options_with_min_clade_freq (x : pyfloat) : Options :=
  mkOptions 0 None false x false false.

Definition options_parallel (n : Z) : Options :=
  mkOptions 0 (Some (MPInt n)) false (PFinite GREATER_THAN_50_PERCENT) true false.

Definition plain_environment : Environment :=
  mkEnvironment 4 no_stdin [] None.

Definition environment_with_target (t : Tree) : Environment :=
  mkEnvironment 4 no_stdin [] (Some [t]).

Definition environment_with_schedule (arr : list (nat * list Source)) : Environment :=
  mkEnvironment 4 no_stdin arr None.

(** The distribution and the topology counts a serial pass over the two
    unrooted files ends with. *)
Definition serial_distribution : SplitDistribution :=
  match snd (process_sources_serial no_stdin (Some [file_a; file_b]) 0) with
  | Returned (sd, _) => sd
  | _ => SplitDistribution_new four_taxa
  end.

Definition serial_topologies : TopologyCounter :=
  match snd (process_sources_serial no_stdin (Some [file_a; file_b]) 0) with
  | Returned (_, tc) => tc
  | _ => TopologyCounter_new
  end.

End Samples.

(** ** The rest of the driver *)

Module Preflight.

Import PyNum Engine SumTrees.

Local Open Scope Z_scope.

(** The progress test of both counting loops (lines 150, 157, 305, 312):
    [(log_frequency == 1) or (tidx > 0 and log_frequency > 0 and
    tidx % log_frequency == 0)]. *)
Definition logs_progress (log_frequency tidx : Z) : bool :=
  (log_frequency =? 1)
  || ((0 <? tidx) && (0 <? log_frequency) && (tidx mod log_frequency =? 0)).

Section Paths.

(** [os.path.expanduser(os.path.expandvars(fpath))] and [os.path.exists]. *)
Variable expand : string → string.
Variable path_exists : string → bool.

Definition support_not_found_message (fpath : string) : string :=
  ("Support file not found: '" ++ fpath ++ "'")%string.
Definition missing_support_message : string :=
  "Terminating due to missing support files. Use the '--ignore-missing-support' option to continue even if some files are missing."%string.
Definition no_valid_sources_message : string :=
  "No valid sources of input trees specified. Please provide the path to at least one (valid and existing) file containing tree samples to summarize."%string.

(** The warnings logged for the arguments that do not exist. *)
Definition missing_warnings (args : list string) : list event :=
  (λ p, Warning (support_not_found_message p))
    <$> filter (λ p, path_exists p = false) (expand <$> args).

(** The loop over the arguments (lines 591 to 602); [support_filepaths]
    is the list built so far. *)
Fixpoint check_support_args (ignore_missing_support : bool) (args : list string)
    (support_filepaths : list string) : action (list string) :=
  match args with
  | [] => mret support_filepaths
  | fpath :: rest =>
      let fpath := expand fpath in
      if negb (path_exists fpath) then
        if ignore_missing_support
        then log (Warning (support_not_found_message fpath)) ;;
             check_support_args ignore_missing_support rest support_filepaths
        else log (Error missing_support_message) ;; sys_exit 1
      else check_support_args ignore_missing_support rest (support_filepaths ++ [fpath])
  end.

(** "Support file idiot checking" (lines 589 to 613). *)
Definition check_support_files (ignore_missing_support from_newick_stream
    from_nexus_stream : bool) (args : list string) : action (list string) :=
  if (0 <? length args)%nat then
    support_filepaths ← check_support_args ignore_missing_support args [];
    if (length support_filepaths =? 0)%nat
    then log (Error no_valid_sources_message) ;; sys_exit 1
    else mret support_filepaths
  else
    if negb from_newick_stream && negb from_nexus_stream
    then sys_exit 1
    else mret [].

Definition target_not_found_warning (fpath : string) : string :=
  ("Target tree file not found: '" ++ fpath
   ++ "': using majority-rule consensus tree instead.")%string.
Definition target_not_found_message (fpath : string) : string :=
  ("Target tree file not found: '" ++ fpath ++ "'")%string.

(** The check of the target tree file (lines 619 to 630). *)
Definition check_target_file (ignore_missing_target quiet : bool)
    (target_tree_filepath : option string) : action (option string) :=
  match target_tree_filepath with
  | Some fpath =>
      let target_tree_filepath := expand fpath in
      if negb (path_exists target_tree_filepath) then
        if ignore_missing_target then
          (if negb quiet
           then log (Warning (target_not_found_warning target_tree_filepath))
           else mret tt) ;;
          mret None
        else log (Error (target_not_found_message target_tree_filepath)) ;;
             sys_exit 1
      else mret (Some target_tree_filepath)
  | None => mret None
  end.

End Paths.

(** The options that [main_cli] reconciles before the main work. *)
Record SourceOptions := mkSourceOptions {
  edge_summarization : option string;
  ultrametric_trees : bool;
  rooted_trees : option bool;       (* [--rooted], [--unrooted], or neither *)
  calc_node_ages : option bool      (* [False] with [--no-node-ages], else [None] *)
}.

Definition edge_summarization_choices : list string :=
  ["mean-length"; "median-length"; "mean-age"; "median-age"; "keep"; "unweighted"]%string.

Definition invalid_choice_message : string :=
  "'%s' is not a valid edge summarization choice; must be one of: %s"%string.

(** Lines 634 to 638; [lower] is [str.lower]. *)
Definition validate_edge_summarization (lower : string → string)
    (opts : SourceOptions) : action SourceOptions :=
  match edge_summarization opts with
  | Some s =>
      if String.eqb s "" then mret opts
      else
        let e := lower s in
        if bool_decide (e ∈ edge_summarization_choices)
        then mret (mkSourceOptions (Some e) (ultrametric_trees opts)
                     (rooted_trees opts) (calc_node_ages opts))
        else log (Error invalid_choice_message) ;; sys_exit 1
  | None => mret opts
  end.

Definition is_age_summarization (e : option string) : bool :=
  match e with
  | Some s => String.eqb s "mean-age" || String.eqb s "median-age"
  | None => false
  end.

(** [if opts.calc_node_ages is None: opts.calc_node_ages = True] *)
Definition default_to_true (c : option bool) : option bool :=
  match c with
  | None => Some true
  | _ => c
  end.

(** Lines 639 to 654. *)
Definition reconcile_options (opts : SourceOptions) : SourceOptions :=
  if is_age_summarization (edge_summarization opts) then
    mkSourceOptions (edge_summarization opts) true (Some true)
      (default_to_true (calc_node_ages opts))
  else if ultrametric_trees opts then
    mkSourceOptions (edge_summarization opts) (ultrametric_trees opts) (Some true)
      (default_to_true (calc_node_ages opts))
  else
    match calc_node_ages opts with
    | Some true =>
        mkSourceOptions (edge_summarization opts) true (Some true) (Some true)
    | _ =>
        mkSourceOptions (edge_summarization opts) (ultrametric_trees opts)
          (rooted_trees opts) (Some false)
    end.

(** Lines 656 to 661. *)
Definition rooting_interpretation (opts : SourceOptions) : string :=
  match rooted_trees opts with
  | Some true => "force-rooted"
  | Some false => "force-unrooted"
  | None => "default-unrooted"
  end%string.

(** [ignore_node_ages=not opts.calc_node_ages], as handed to the counting
    (lines 730 and 746). *)
Definition ignore_node_ages (opts : SourceOptions) : bool :=
  match calc_node_ages opts with
  | Some true => false
  | _ => true
  end.

(** Lines 902 to 909: the summarization used when [-e] is not given. *)
Definition default_edge_summarization (opts : SourceOptions)
    (target_given : bool) : option string :=
  match edge_summarization opts with
  | None =>
      Some (if target_given then "keep"
            else if ultrametric_trees opts then "median-age"
            else "mean-length")%string
  | e => e
  end.

(** [s.endswith(suffix)] *)
Definition endswith (s suffix : string) : bool :=
  String.prefix (String.rev suffix) (String.rev s).

(** What lines 910 to 947 do to the output trees. *)
Inductive edge_plan :=
| UnsetEdgeLengths                                   (* [edge.length = None] *)
| SummarizeNodeAges (summary : string) (collapse_negative_edges allow_negative_edges : bool)
| SummarizeEdgeLengths (summary : string)
| NoSummarization (summary : string)                 (* neither [age] nor [length] *)
| KeepEdgeLengths.                                   (* "Not setting edge lengths" *)

Definition plan_edges (edge_summarization : option string)
    (collapse_negative_edges : bool) : edge_plan :=
  match edge_summarization with
  | None => KeepEdgeLengths
  | Some s =>
      if String.eqb s "unweighted" then UnsetEdgeLengths
      else if negb (String.eqb s "keep") then
        let summary := (if String.prefix "mean" s then "mean" else "median")%string in
        if endswith s "age"
        then SummarizeNodeAges summary collapse_negative_edges
               (negb collapse_negative_edges)
        else if endswith s "length" then SummarizeEdgeLengths summary
        else NoSummarization summary
      else KeepEdgeLengths
  end.

Section Midpoint.

(** [tree.root_at_midpoint(splits=True)] (line 849), a call into the
    library: the tree it leaves, or the way it ends. *)
Variable root_at_midpoint : Tree → outcome Tree.

(** The loop over the trees of the target file (lines 843 to 865) with
    [--root-target-at-midpoint]. *)
Fixpoint map_target_trees_at_midpoint (master_split_distribution : SplitDistribution)
    (trees : list Tree) (tt_trees : nat) : action nat :=
  match trees with
  | [] => mret tt_trees
  | tree :: rest =>
      tree ← lift (root_at_midpoint tree);
      check_target_rooting master_split_distribution tree ;;
      log (MapSplitSupport tree) ;;
      map_target_trees_at_midpoint master_split_distribution rest (S tt_trees)
  end.

(** Lines 838 to 895.  With [--root-target-at-midpoint], after the target
    trees are mapped, or the consensus tree is built, the comment
    ["... rooted using outgroup: %s." % opts.outgroup] is formatted (lines
    870 and 888).  No option stores into [outgroup] (the option that would
    is commented out, lines 397 to 400), so reading it raises
    AttributeError. *)
Definition target_phase (root_target_at_midpoint : bool) (opts : Options)
    (env : Environment) (master_split_distribution : SplitDistribution) : action nat :=
  if root_target_at_midpoint then
    match target_tree_file env with
    | Some trees => map_target_trees_at_midpoint master_split_distribution trees 0
    | None => construct_consensus opts
    end ;;
    raise "AttributeError"%string
  else
    match target_tree_file env with
    | Some trees => map_target_trees master_split_distribution trees 0
    | None => construct_consensus opts
    end.

(** The writes at the end of [main_cli] (lines 963 to 1074). *)
Definition write_results (opts : Options) (tt_trees : nat) : action unit :=
  log (WriteResultTrees tt_trees) ;;
  (if trprobs_filepath opts then log WriteTreeProbs else mret tt) ;;
  (if split_edge_map_filepath opts then log WriteSplitEdges else mret tt).

(** [main_cli] from the target tree on. *)
Definition report_phase (root_target_at_midpoint : bool) (opts : Options)
    (env : Environment) (master_split_distribution : SplitDistribution) : action unit :=
  tt_trees ← target_phase root_target_at_midpoint opts env master_split_distribution;
  write_results opts tt_trees.

End Midpoint.

(** One entry of the tree-probability table (lines 1037 to 1046): the
    number in the label ["Tree%d" % (idx+1)] and the three values bound to
    the tree. *)
Record TreeProbability (T : Type) := mkTreeProbability {
  tp_tree : T;
  tp_label : nat;
  tp_count : Qc;
  tp_probability : Qc;
  tp_cumulative_probability : Qc
}.
Arguments mkTreeProbability {T}.
Arguments tp_tree {T}.
Arguments tp_label {T}.
Arguments tp_count {T}.
Arguments tp_probability {T}.
Arguments tp_cumulative_probability {T}.

(** The loop over [tree_freqs.items()] (lines 1036 to 1046). *)
Fixpoint annotate_tree_freqs {T} (idx : nat) (cumulative_prob : Qc)
    (tree_freqs : list (T * (Qc * Qc))) : list (TreeProbability T) :=
  match tree_freqs with
  | [] => []
  | (tree, (count, prop)) :: rest =>
      let cumulative_prob := (cumulative_prob + prop)%Qc in
      mkTreeProbability tree (S idx) count prop cumulative_prob
        :: annotate_tree_freqs (S idx) cumulative_prob rest
  end.

Definition sum_Qc (l : list Qc) : Qc := foldr Qcplus 0%Qc l.

(** The workers a run has started, in the order of their start. *)
Definition started_workers (tr : list event) : list SplitCountingWorker :=
  omap (λ e, match e with StartWorker w => Some w | _ => None end) tr.

(** The events only the parallel mode produces. *)
Definition is_parallel_event (e : event) : bool :=
  match e with
  | DiscoverTaxa _ | StartWorker _ => true
  | _ => false
  end.

(** The sources [process_sources_serial] reads (lines 278 to 288). *)
Definition sources_read (stdin : Source) (support_filepaths : option (list Source))
    : list Source :=
  match support_filepaths with
  | None | Some [] => [stdin]
  | Some fs => fs
  end.

End Preflight.

(** ** The oracle of SplitCountTest *)

Module SplitCountTest.

Import Engine.

(** The first loop of [check_split_counting] (lines 197 to 201) over the
    items of [dp_sd.split_counts]; [None] when an assertion fails, else what
    is left of [paup_sd.split_counts]. *)
Fixpoint compare_counts (is_trivial_split : Z → Z → bool) (taxa_mask : Z)
    (dp_items : list (Z * Qc)) (paup_counts : gmap Z Qc) : option (gmap Z Qc) :=
  match dp_items with
  | [] => Some paup_counts
  | (split, count) :: rest =>
      if negb (is_trivial_split split taxa_mask) then
        match paup_counts !! split with
        | None => None                                   (* "split not found" *)
        | Some c =>
            if bool_decide (count = c)
            then compare_counts is_trivial_split taxa_mask rest
                   (delete split paup_counts)
            else None                                    (* "incorrect split frequency" *)
        end
      else compare_counts is_trivial_split taxa_mask rest paup_counts
  end.

(** The second loop (lines 202 to 205) over [list(paup_sd.split_counts.keys())]. *)
Definition drop_trivial (is_trivial_split : Z → Z → bool) (taxa_mask : Z)
    (remaining_splits : list Z) (paup_counts : gmap Z Qc) : gmap Z Qc :=
  foldl (λ m split, if is_trivial_split split taxa_mask then delete split m else m)
        paup_counts remaining_splits.

(** The assertions of [check_split_counting] after the counting (lines 195
    to 206): [true] when all of them hold. *)
Definition check_split_counting (is_trivial_split : Z → Z → bool) (taxa_mask : Z)
    (dp_total paup_total : Z) (dp_items : list (Z * Qc))
    (paup_counts : gmap Z Qc) : bool :=
  bool_decide (dp_total = paup_total)
  && match compare_counts is_trivial_split taxa_mask dp_items paup_counts with
     | None => false
     | Some remaining =>
         bool_decide
           (size (drop_trivial is_trivial_split taxa_mask
                    ((map_to_list remaining).*1) remaining) = 0%nat)
     end.

End SplitCountTest.

(** * Properties *)

Import Bitmask PyNum Engine SumTrees Props.

(** ** The consensus threshold constant *)

Lemma next_plus_of_one_half :
  next_plus (Decimal_from_float (1 # 2)) = mkDecimal 5000000000000000000000000001 (-28).
Proof. reflexivity. Qed.

(** C3: the default of [--min-clade-freq] is computed as
    [float(Decimal(0.5).next_plus())].  The decimal successor of 0.5 is
    0.5 + 1e-28, which is above 0.5, but its conversion to a binary64 float
    rounds back to 0.5 exactly: the constant equals one half, it is not above
    it, and a split of frequency exactly 0.5 clears the default threshold. *)
Theorem GREATER_THAN_50_PERCENT_is_one_half :
  (1 # 2 < Decimal_to_Q (next_plus (Decimal_from_float (1 # 2))))%Q
  ∧ GREATER_THAN_50_PERCENT = (1 # 2)%Q
  ∧ ¬ (1 # 2 < GREATER_THAN_50_PERCENT)%Q
  ∧ clears_min_freq (PFinite (1 # 2)) (PFinite GREATER_THAN_50_PERCENT) = true.
Proof.
  repeat split.
  - intros H. vm_compute in H. discriminate H.
Qed.

(** The smallest binary64 value above one half is [1/2 + 2^-53]; it is a
    fixed point of the conversion, so the conversion is able to return it. *)
Lemma binary64_successor_of_one_half :
  float_of_Q ((1 # 2) + (1 # 9007199254740992)) = (4503599627370497 # 9007199254740992)%Q.
Proof. vm_compute. reflexivity. Qed.

(** ** Trivial splits *)

Lemma enumerate_lookup_from {A} (row : list A) (start i : nat) (r : A) :
  row !! i = Some r →
  In (Z.of_nat (start + i), r) (zip (Z.of_nat <$> seq start (length row)) row).
Proof.
  revert start i. induction row as [|x row IH]; intros start i Hi.
  - destruct i; discriminate.
  - destruct i as [|i]; simpl in *.
    + injection Hi as ->. left. f_equal. f_equal. lia.
    + right. replace (start + S i)%nat with (S start + i)%nat by lia.
      apply IH. exact Hi.
Qed.

Lemma IsTrivialTest_loop_lookup f row mask (i : nat) r :
  IsTrivialTest_loop f row mask = true →
  row !! i = Some r →
  f (Z.of_nat i) mask = r.
Proof.
  unfold IsTrivialTest_loop, enumerate. intros Hall Hi.
  rewrite forallb_forall in Hall.
  specialize (Hall _ (enumerate_lookup_from row 0 i r Hi)). simpl in Hall.
  symmetry. apply Bool.eqb_prop. exact Hall.
Qed.

Lemma is_trivial_split_iff s m :
  is_trivial_split s m = true ↔ trivial_on_mask s m.
Proof.
  unfold is_trivial_split, trivial_on_mask.
  rewrite orb_true_iff, !Z.leb_le. reflexivity.
Qed.

Lemma row_0xF_lookup (i : nat) :
  (i < 32)%nat → IsTrivialTest_row_0xF !! i = Some (is_trivial_split (Z.of_nat i) 0xF).
Proof. intros Hi. do 32 (destruct i as [|i]; [reflexivity|]). lia. Qed.

Lemma row_0x1F_lookup (i : nat) :
  (i < 32)%nat → IsTrivialTest_row_0x1F !! i = Some (is_trivial_split (Z.of_nat i) 0x1F).
Proof. intros Hi. do 32 (destruct i as [|i]; [reflexivity|]). lia. Qed.

Lemma row_0x17_lookup (i : nat) :
  (i < 32)%nat → IsTrivialTest_row_0x17 !! i = Some (is_trivial_split (Z.of_nat i) 0x17).
Proof. intros Hi. do 32 (destruct i as [|i]; [reflexivity|]). lia. Qed.

Lemma IsTrivialTest_passes_on_mask_rule :
  IsTrivialTest_runTest is_trivial_split = true.
Proof. reflexivity. Qed.

(** Every function that passes [IsTrivialTest] answers as [is_trivial_split]
    does on the 96 inputs of the test. *)
Lemma IsTrivialTest_fixes_tested_inputs (f : Z → Z → bool) :
  IsTrivialTest_runTest f = true →
  ∀ m s, m ∈ IsTrivialTest_masks → 0 ≤ s < 32 → f s m = is_trivial_split s m.
Proof.
  intros Hpass.
  unfold IsTrivialTest_runTest in Hpass.
  apply andb_prop in Hpass as [Hpass H17].
  apply andb_prop in Hpass as [HF H1F].
  intros m s Hm Hs.
  assert (Hi : (Z.to_nat s < 32)%nat) by lia.
  rewrite <- (Z2Nat.id s) by lia.
  unfold IsTrivialTest_masks in Hm.
  rewrite !elem_of_cons, elem_of_nil in Hm.
  destruct Hm as [-> | [-> | [-> | []]]].
  - eapply IsTrivialTest_loop_lookup; [exact HF | by apply row_0xF_lookup].
  - eapply IsTrivialTest_loop_lookup; [exact H1F | by apply row_0x1F_lookup].
  - eapply IsTrivialTest_loop_lookup; [exact H17 | by apply row_0x17_lookup].
Qed.

(** The population count of a natural binary numeral, and how it splits
    over the taxa inside and outside a second mask. *)
Lemma count_bits_double (n : N) : count_bits (Z.of_N (N.double n)) = count_bits (Z.of_N n).
Proof. by destruct n. Qed.

Lemma count_bits_succ_double (n : N) :
  count_bits (Z.of_N (N.succ_double n)) = 1 + count_bits (Z.of_N n).
Proof. by destruct n. Qed.

Lemma pos_count_bits_split (m : positive) : ∀ s : positive,
  count_bits (Z.of_N (Pos.land s m)) + count_bits (Z.of_N (Pos.ldiff m s))
  = pos_count_bits m.
Proof.
  induction m as [m IH|m IH|]; intros [s|s|];
    change (Pos.land ?a~1 ?b~1) with (Pos.Nsucc_double (Pos.land a b));
    change (Pos.land ?a~0 ?b~1) with (Pos.Ndouble (Pos.land a b));
    change (Pos.land ?a~1 ?b~0) with (Pos.Ndouble (Pos.land a b));
    change (Pos.land ?a~0 ?b~0) with (Pos.Ndouble (Pos.land a b));
    change (Pos.ldiff ?a~1 ?b~1) with (Pos.Ndouble (Pos.ldiff a b));
    change (Pos.ldiff ?a~1 ?b~0) with (Pos.Nsucc_double (Pos.ldiff a b));
    change (Pos.ldiff ?a~0 ?b~1) with (Pos.Ndouble (Pos.ldiff a b));
    change (Pos.ldiff ?a~0 ?b~0) with (Pos.Ndouble (Pos.ldiff a b));
    change Pos.Ndouble with N.double; change Pos.Nsucc_double with N.succ_double;
    rewrite ?count_bits_double, ?count_bits_succ_double;
    try (specialize (IH s)); simpl; lia.
Qed.

Lemma count_bits_split (s m : Z) :
  0 ≤ s → 0 ≤ m →
  count_bits (Z.land s m) + count_bits (Z.ldiff m s) = count_bits m.
Proof.
  intros Hs Hm. destruct m as [|m|m]; [by rewrite Z.land_0_r | | lia].
  destruct s as [|s|s]; [reflexivity | | lia].
  apply pos_count_bits_split.
Qed.

(** C4 (counterexample): the rule of the claim, [popcount(s) == 1 or
    popcount(s) == popcount(m) - 1], is not what [IsTrivialTest] asks of
    the library.  Under the mask [0xF] every function that passes the test
    answers [True] on the empty split 0, on the full split 15 and on 17 (one
    taxon of the mask and a bit outside it), whose popcounts 0, 4 and 2 are
    neither 1 nor 3; so the rule, taken word for word, fails the test. *)
Lemma is_trivial_popcount_rule_refuted :
  ¬ (∀ f : Z → Z → bool, IsTrivialTest_runTest f = true →
       ∀ s m, f s m = true ↔ (count_bits s = 1 ∨ count_bits s = count_bits m - 1))
  ∧ (∀ f : Z → Z → bool, IsTrivialTest_runTest f = true →
       f 0 0xF = true ∧ f 15 0xF = true ∧ f 17 0xF = true)
  ∧ is_trivial_spec 0 0xF = false
  ∧ is_trivial_spec 15 0xF = false
  ∧ is_trivial_spec 17 0xF = false
  ∧ IsTrivialTest_runTest is_trivial_spec = false.
Proof.
  split_and!; try reflexivity.
  - intros H.
    destruct (H is_trivial_split IsTrivialTest_passes_on_mask_rule 0 0xF) as [Hl _].
    destruct (Hl eq_refl) as [H1 | H1]; vm_compute in H1; discriminate H1.
  - intros f Hpass.
    assert (Hm : 0xF ∈ IsTrivialTest_masks) by (unfold IsTrivialTest_masks; set_solver).
    pose proof (IsTrivialTest_fixes_tested_inputs f Hpass 0xF) as Hf.
    rewrite (Hf 0), (Hf 15), (Hf 17) by (done || lia).
    by split_and!.
Qed.

(** C4 (as amended): for every split bitmask [s] and every full taxon mask
    [m], [is_trivial_split s m] is [True] exactly when
    [popcount(s & m) <= 1] or [popcount(s & m) >= popcount(m) - 1]; for
    non-negative bitmasks that is: the split, restricted to the taxa of [m],
    leaves at most one taxon of [m] on one of its sides.  Bits outside [m]
    are ignored and the empty and the full side are trivial, so the rule
    holds for sparse masks such as [0x17] as well.  On a split within [m]
    whose popcount is between 1 and [popcount(m) - 1] this is the rule
    [popcount(s) == 1 or popcount(s) == popcount(m) - 1].  The function
    passes [IsTrivialTest], every function that passes it agrees with it on
    the inputs of the test, and it answers [True] on [0b0001] and [False] on
    [0b0011] under the mask [0xF]. *)
Theorem is_trivial_split_rule :
  (∀ s m, is_trivial_split s m = true
          ↔ count_bits (Z.land s m) ≤ 1
            ∨ count_bits m - 1 ≤ count_bits (Z.land s m))
  ∧ (∀ s m, 0 ≤ s → 0 ≤ m →
       (is_trivial_split s m = true
        ↔ count_bits (Z.land s m) ≤ 1 ∨ count_bits (Z.ldiff m s) ≤ 1))
  ∧ (∀ s m, Z.land s m = s → 1 ≤ count_bits s ≤ count_bits m - 1 →
       (is_trivial_split s m = true
        ↔ count_bits s = 1 ∨ count_bits s = count_bits m - 1))
  ∧ IsTrivialTest_runTest is_trivial_split = true
  ∧ (∀ f : Z → Z → bool, IsTrivialTest_runTest f = true →
       ∀ m s, m ∈ IsTrivialTest_masks → 0 ≤ s < 32 → f s m = is_trivial_split s m)
  ∧ is_trivial_split 1 0xF = true
  ∧ is_trivial_split 3 0xF = false.
Proof.
  split_and!; try reflexivity.
  - intros s m. rewrite is_trivial_split_iff. unfold trivial_on_mask. lia.
  - intros s m Hs Hm. rewrite is_trivial_split_iff. unfold trivial_on_mask.
    pose proof (count_bits_split s m Hs Hm). lia.
  - intros s m Hin Hk. rewrite is_trivial_split_iff. unfold trivial_on_mask.
    rewrite Hin. lia.
  - exact IsTrivialTest_fixes_tested_inputs.
Qed.

Lemma is_trivial_split_rule_witness :
  (is_trivial_split 9 0x17 = true
   ↔ count_bits (Z.land 9 0x17) ≤ 1 ∨ count_bits (Z.ldiff 0x17 9) ≤ 1)
  ∧ (is_trivial_split 6 0x17 = true
     ↔ count_bits 6 = 1 ∨ count_bits 6 = count_bits 0x17 - 1)
  ∧ is_trivial_split (Z.land 17 0xF) 0xF = is_trivial_split 17 0xF.
Proof.
  destruct is_trivial_split_rule as (_ & Hsides & Hproper & Hpass & Htest & _).
  split_and!.
  - apply Hsides; discriminate.
  - apply Hproper; [reflexivity | split; discriminate].
  - apply (Htest (λ s m, is_trivial_split (Z.land s m) m) eq_refl 0xF 17);
      [left | split; [discriminate | reflexivity]].
Defined.

(** ** The clamp of the consensus threshold *)

Lemma float_le_not_gt (x y : pyfloat) : float_le x y = true → float_gt x y = false.
Proof.
  unfold float_le, float_gt.
  destruct (float_compare x y) as [[]|]; intros H; first [reflexivity | discriminate H].
Qed.

(** C6: when the threshold given is above 1.0, a warning is logged and
    [tree_from_splits] is called with 1.0; the run goes on.  When it is at
    most 1.0, [tree_from_splits] is called with the value as given, and
    nothing is logged. *)
Theorem min_clade_freq_clamped (opts : Options) :
  (float_gt (min_clade_freq opts) float_one = true →
     construct_consensus opts
     = ([Warning clamp_message; TreeFromSplits float_one], Returned 1%nat))
  ∧ (float_le (min_clade_freq opts) float_one = true →
     construct_consensus opts
     = ([TreeFromSplits (min_clade_freq opts)], Returned 1%nat)).
Proof.
  unfold construct_consensus. split; intros H.
  - rewrite H. reflexivity.
  - rewrite (float_le_not_gt _ _ H). reflexivity.
Qed.

Lemma min_clade_freq_clamped_witness :
  construct_consensus (Samples.options_with_min_clade_freq (PFinite (3 # 2)))
  = ([Warning clamp_message; TreeFromSplits float_one], Returned 1%nat)
  ∧ construct_consensus (Samples.options_with_min_clade_freq (PFinite (95 # 100)))
    = ([TreeFromSplits (PFinite (95 # 100))], Returned 1%nat).
Proof.
  split.
  - apply (proj1 (min_clade_freq_clamped
                    (Samples.options_with_min_clade_freq (PFinite (3 # 2))))).
    reflexivity.
  - apply (proj2 (min_clade_freq_clamped
                    (Samples.options_with_min_clade_freq (PFinite (95 # 100))))).
    reflexivity.
Defined.

(** ** The rooting test on target trees *)

Lemma check_target_rooting_ignores_support (sd : SplitDistribution) (tree : Tree) :
  check_target_rooting sd tree
  = if truth (tree_is_rooted tree) then mret tt
    else log (Error target_unrooted_message) ;; sys_exit 1.
Proof. unfold check_target_rooting. simpl. destruct (truth _); reflexivity. Qed.

(** C10, on the code: the support trees of [a.tre] are all unrooted (the
    method [is_all_counted_trees_rooted()] would answer [False]) and the
    target tree is rooted; the run maps support onto the target and writes
    it, where the claim has it exit with an error.  With an unrooted target
    on the same unrooted support it exits, reporting rooted support trees.
    The test looks at the bound method, not at its result. *)
Theorem rooted_target_on_unrooted_support_is_mapped :
  main_cli (Samples.options_with_burnin 0)
           (Samples.environment_with_target Samples.rooted_ab) [Samples.file_a]
  = ([MapSplitSupport Samples.rooted_ab; WriteResultTrees 1], Returned tt)
  ∧ main_cli (Samples.options_with_burnin 0)
             (Samples.environment_with_target Samples.unrooted_ab) [Samples.file_a]
    = ([Error target_unrooted_message], Exited 1)
  ∧ (∀ sd, truth (getattr_is_all_counted_trees_rooted sd) = true)
  ∧ match process_sources_serial Samples.no_stdin (Some [Samples.file_a]) 0 with
    | (_, Returned (sd, _)) => is_all_counted_trees_rooted sd = false
    | _ => False
    end.
Proof. repeat split. Qed.

(** ** Burn-in *)

(** C5, on the code: two files of two trees each and a burn-in of 1.  The
    serial pass numbers the trees across the files, so only the first tree of
    the first file is skipped: three trees are counted, the first tree of
    [b.tre] (the only one with split 6) among them.  The workers number the
    trees of each file from 0 and count two trees, that one not among them. *)
Theorem serial_burnin_spans_files :
  match process_sources_serial Samples.no_stdin
          (Some [Samples.file_a; Samples.file_b]) 1 with
  | (_, Returned (sd, _)) =>
      total_trees_counted sd = 3 ∧ is_Some (split_counts sd !! 6)
  | _ => False
  end
  ∧ match process_sources_parallel 2 [Samples.file_a; Samples.file_b] true 1
            [(0%nat, [Samples.file_a]); (1%nat, [Samples.file_b])] with
    | (_, Returned (sd, _)) =>
        total_trees_counted sd = 2 ∧ split_counts sd !! 6 = None
    | _ => False
    end.
Proof.
  split.
  - vm_compute. split; [reflexivity | eexists; reflexivity].
  - vm_compute. split; reflexivity.
Qed.

(** ** A worker under a kill request *)

Section KillRequest.

Variable kill_at : option nat.

Lemma watch_app seen a b :
  watch seen (a ++ b) = watch seen a ≫= λ s, watch s b.
Proof.
  revert seen. induction a as [|e a IH]; intros seen; simpl.
  - reflexivity.
  - destruct seen.
    + destruct (quiet_event e); [apply IH | reflexivity].
    + apply IH.
Qed.

Lemma Clean_not_Stopped st : Clean st → Stopped kill_at st → False.
Proof. unfold Clean, Stopped. intros H [H' _]. congruence. Qed.

Lemma emit_Clean e st : kill_seen e = false → Clean st → Clean (emit e st).
Proof.
  unfold Clean, emit. simpl. intros He H.
  rewrite watch_app, H. simpl. by rewrite He.
Qed.

Lemma with_self_Clean f st : Clean st → Clean (with_self f st).
Proof. exact id. Qed.

Lemma read_kill_Clean st b st' :
  read_kill kill_at st = (b, st') → Clean st →
  (b = false ∧ Clean st') ∨ (b = true ∧ Stopped kill_at st').
Proof.
  unfold read_kill, Clean, Stopped. intros [= <- <-] H. simpl.
  rewrite watch_app, H. simpl.
  unfold kill_received. destruct kill_at as [k|]; [|by left].
  destruct (k <=? ws_reads st)%nat eqn:E; [right | by left].
  apply Nat.leb_le in E. repeat split. exists k. split; [done | lia].
Qed.

Lemma read_kill_Stopped st b st' :
  read_kill kill_at st = (b, st') → Stopped kill_at st → b = true ∧ Stopped kill_at st'.
Proof.
  unfold read_kill, Stopped. intros [= <- <-] [H (k & Hk & Hlt)]. simpl.
  unfold kill_received. rewrite Hk.
  assert (E : (k <=? ws_reads st)%nat = true) by (apply Nat.leb_le; lia).
  rewrite E, watch_app, H. simpl. repeat split.
  exists k. split; [done | lia].
Qed.

Lemma for_trees_Clean path trees : ∀ tidx st,
  Clean st →
  Clean (for_trees kill_at path tidx trees st)
  ∨ Stopped kill_at (for_trees kill_at path tidx trees st).
Proof.
  induction trees as [|t rest IH]; intros tidx st Hst; cbn [for_trees].
  - by left.
  - set (st2 := if _ <=? _ then _ else _).
    assert (H2 : Clean st2).
    { subst st2. destruct (_ <=? _).
      - apply emit_Clean; [done|]. apply with_self_Clean. by apply emit_Clean.
      - apply emit_Clean; [done|]. by apply emit_Clean. }
    destruct (read_kill kill_at st2) as [k st3] eqn:E.
    destruct (read_kill_Clean _ _ _ E H2) as [[-> H3] | [-> H3]].
    + by apply IH.
    + by right.
Qed.

Lemma while_loop_Clean queue : ∀ st,
  Clean st →
  (Clean (while_loop kill_at queue st)
   ∧ QueueEmpty ∈ ws_trace (while_loop kill_at queue st))
  ∨ Stopped kill_at (while_loop kill_at queue st).
Proof.
  induction queue as [|source rest IH]; intros st Hst; cbn [while_loop].
  - destruct (read_kill kill_at st) as [k st1] eqn:E.
    destruct (read_kill_Clean _ _ _ E Hst) as [[-> H1] | [-> H1]]; [|by right].
    left. split; [by apply emit_Clean|].
    unfold emit. simpl. set_solver.
  - destruct (read_kill kill_at st) as [k st1] eqn:E.
    destruct (read_kill_Clean _ _ _ E Hst) as [[-> H1] | [-> H1]]; [|by right].
    set (st3 := with_self _ (for_trees _ _ _ _ _)).
    destruct (read_kill kill_at st3) as [k' st4] eqn:E'.
    destruct (for_trees_Clean (src_path source)
                (read_trees (taxon_namespace (ws_self st1)) (src_trees source)) 0
                (emit (GetTask (src_path source)) st1)) as [H3 | H3].
    { by apply emit_Clean. }
    + destruct (read_kill_Clean _ _ _ E' H3) as [[-> H4] | [-> H4]]; [|by right].
      apply IH. by apply emit_Clean.
    + destruct (read_kill_Stopped _ _ _ E' H3) as [-> H4]. by right.
Qed.

(** The loops put nothing on the result queues. *)
Lemma put_split_dists_snoc tr e :
  put_split_dists (tr ++ [e])
  = put_split_dists tr ++ match e with PutSplitDist sd => [sd] | _ => [] end.
Proof. unfold put_split_dists. rewrite omap_app. by destruct e. Qed.

Lemma put_topology_hash_maps_snoc tr e :
  put_topology_hash_maps (tr ++ [e])
  = put_topology_hash_maps tr ++ match e with PutTopologyHashMap m => [m] | _ => [] end.
Proof. unfold put_topology_hash_maps. rewrite omap_app. by destruct e. Qed.

Lemma read_kill_puts st : puts (snd (read_kill kill_at st)) = puts st.
Proof.
  unfold puts, read_kill. simpl.
  by rewrite put_split_dists_snoc, put_topology_hash_maps_snoc, !app_nil_r.
Qed.

Lemma for_trees_puts path trees : ∀ tidx st,
  puts (for_trees kill_at path tidx trees st) = puts st.
Proof.
  induction trees as [|t rest IH]; intros tidx st; cbn [for_trees]; [done|].
  set (st2 := if _ <=? _ then _ else _).
  assert (H2 : puts st2 = puts st).
  { subst st2. unfold puts. destruct (_ <=? _); simpl;
      by rewrite !put_split_dists_snoc, !put_topology_hash_maps_snoc, !app_nil_r. }
  pose proof (read_kill_puts st2) as Hr.
  destruct (read_kill kill_at st2) as [k st3]. simpl in Hr.
  destruct k; [congruence|]. rewrite IH. congruence.
Qed.

Lemma while_loop_puts queue : ∀ st,
  puts (while_loop kill_at queue st) = puts st.
Proof.
  induction queue as [|source rest IH]; intros st; cbn [while_loop].
  - pose proof (read_kill_puts st) as Hr.
    destruct (read_kill kill_at st) as [k st1]. simpl in Hr.
    destruct k; [done|]. rewrite <- Hr. unfold puts, emit. simpl.
    by rewrite put_split_dists_snoc, put_topology_hash_maps_snoc, !app_nil_r.
  - pose proof (read_kill_puts st) as Hr.
    destruct (read_kill kill_at st) as [k st1]. simpl in Hr.
    destruct k; [done|].
    set (st3 := with_self _ (for_trees _ _ _ _ _)).
    assert (H3 : puts st3 = puts st).
    { subst st3. change (puts (with_self ?f ?x)) with (puts x).
      rewrite for_trees_puts. rewrite <- Hr. unfold puts, emit. simpl.
      by rewrite put_split_dists_snoc, put_topology_hash_maps_snoc, !app_nil_r. }
    pose proof (read_kill_puts st3) as Hr'.
    destruct (read_kill kill_at st3) as [k' st4]. simpl in Hr'.
    destruct k'; [congruence|]. rewrite IH. rewrite <- H3, <- Hr'.
    unfold puts, emit. simpl.
    by rewrite put_split_dists_snoc, put_topology_hash_maps_snoc, !app_nil_r.
Qed.

End KillRequest.

Lemma watch_seen_stays tr s : watch true tr = Some s → s = true.
Proof.
  induction tr as [|e tr IH]; simpl.
  - congruence.
  - destruct (quiet_event e); [exact IH | discriminate].
Qed.

Lemma watch_seen_quiet tr s :
  watch true tr = Some s → Forall (λ e, e = ReadKill true ∨ e = KillWarning) tr.
Proof.
  induction tr as [|e tr IH]; simpl; intros H.
  - constructor.
  - destruct (quiet_event e) eqn:E; [|discriminate].
    constructor; [|by apply IH].
    destruct e as [[]| | | | | | | | |]; try discriminate E; auto.
Qed.

Lemma watch_after_seen pre post s :
  watch false (pre ++ ReadKill true :: post) = Some s →
  Forall (λ e, e = ReadKill true ∨ e = KillWarning) post.
Proof.
  rewrite watch_app. destruct (watch false pre) as [[]|]; simpl; [| |discriminate];
    apply watch_seen_quiet.
Qed.

Lemma watch_unseen tr : watch false tr = Some false → ReadKill true ∉ tr.
Proof.
  induction tr as [|e tr IH]; simpl; intros H.
  - apply not_elem_of_nil.
  - destruct (kill_seen e) eqn:E.
    + apply watch_seen_stays in H. discriminate.
    + apply not_elem_of_cons. split; [|by apply IH].
      intros <-. discriminate E.
Qed.

(** How a run of the worker ends: either no read saw a request, the queue
    was drained, and one distribution and one hash map are put; or a read
    saw the request and nothing is put. *)
Lemma run_cases kill_at queue w :
  let tr := ws_trace (run kill_at queue w) in
  (watch false tr = Some false ∧ QueueEmpty ∈ tr
   ∧ ∃ sd m, put_split_dists tr = [sd] ∧ put_topology_hash_maps tr = [m])
  ∨ (watch false tr = Some true
     ∧ put_split_dists tr = [] ∧ put_topology_hash_maps tr = []).
Proof.
  unfold run. set (st0 := mkWState w 0 []).
  assert (H0 : Clean st0) by reflexivity.
  pose proof (while_loop_puts kill_at queue st0) as Hp.
  set (st := while_loop kill_at queue st0) in *.
  pose proof (read_kill_puts kill_at st) as Hr.
  destruct (read_kill kill_at st) as [k st1] eqn:E. simpl in Hr.
  assert (Hputs : put_split_dists (ws_trace st1) = []
                  ∧ put_topology_hash_maps (ws_trace st1) = []).
  { unfold puts in *. rewrite Hp in Hr. by injection Hr. }
  destruct Hputs as [Hp1 Hp2].
  destruct (while_loop_Clean kill_at queue st0 H0) as [[Hc Hq] | Hs]; fold st in Hc, Hq || fold st in Hs.
  - destruct (read_kill_Clean _ _ _ _ E Hc) as [[-> H1] | [-> [H1 _]]].
    + left. simpl. repeat split.
      * unfold Clean in H1. rewrite !watch_app, H1. reflexivity.
      * assert (QueueEmpty ∈ ws_trace st1); [|set_solver].
        unfold read_kill in E. injection E as _ <-. simpl. set_solver.
      * eexists _, _.
        rewrite put_split_dists_snoc, put_topology_hash_maps_snoc.
        rewrite put_split_dists_snoc, put_topology_hash_maps_snoc.
        rewrite Hp1, Hp2. simpl. split; reflexivity.
    + right. simpl. repeat split.
      * rewrite watch_app, H1. reflexivity.
      * rewrite put_split_dists_snoc, Hp1. reflexivity.
      * rewrite put_topology_hash_maps_snoc, Hp2. reflexivity.
  - destruct (read_kill_Stopped _ _ _ _ E Hs) as [-> [H1 _]].
    right. simpl. repeat split.
    + rewrite watch_app, H1. reflexivity.
    + rewrite put_split_dists_snoc, Hp1. reflexivity.
    + rewrite put_topology_hash_maps_snoc, Hp2. reflexivity.
Qed.

(** C7: in every run of [SplitCountingWorker.run], whatever the tasks and
    whenever the kill request arrives: after a read of [kill_received] that
    sees the request, the worker draws no further tree and no further task
    and puts nothing on a result queue (it only re-reads the flag and logs
    the warning); a run in which some read saw the request leaves both
    result queues empty; and a run that puts a result is one in which no
    read saw a request and the work queue was found empty. *)
Theorem killed_worker_publishes_nothing (kill_at : option nat)
    (queue : list Source) (w : SplitCountingWorker) :
  (∀ pre post, run_trace kill_at queue w = pre ++ ReadKill true :: post →
     Forall (λ e, e = ReadKill true ∨ e = KillWarning) post)
  ∧ (ReadKill true ∈ run_trace kill_at queue w →
     put_split_dists (run_trace kill_at queue w) = []
     ∧ put_topology_hash_maps (run_trace kill_at queue w) = [])
  ∧ ((put_split_dists (run_trace kill_at queue w) ≠ []
      ∨ put_topology_hash_maps (run_trace kill_at queue w) ≠ []) →
     (ReadKill true ∉ run_trace kill_at queue w)
     ∧ QueueEmpty ∈ run_trace kill_at queue w).
Proof.
  pose proof (run_cases kill_at queue w) as Hcases. cbv zeta in Hcases.
  fold (run_trace kill_at queue w) in Hcases.
  split; [|split].
  - intros pre post Heq.
    destruct Hcases as [[Hw _] | [Hw _]]; rewrite Heq in Hw;
      by eapply watch_after_seen.
  - intros Hin. destruct Hcases as [[Hw _] | (_ & H1 & H2)]; [|done].
    by apply watch_unseen in Hw.
  - intros Hput. destruct Hcases as [(Hw & Hq & _) | (_ & H1 & H2)].
    + split; [by apply watch_unseen | done].
    + destruct Hput as [Hput | Hput]; congruence.
Qed.

Lemma killed_worker_publishes_nothing_witness :
  Forall (λ e, e = ReadKill true ∨ e = KillWarning)
         [ReadKill true; ReadKill true; KillWarning]
  ∧ put_split_dists
      (run_trace (Some 1%nat) [Samples.file_a; Samples.file_b]
         (SplitCountingWorker_init (ns_labels Samples.four_taxa) true 0 0)) = []
  ∧ put_topology_hash_maps
      (run_trace (Some 1%nat) [Samples.file_a; Samples.file_b]
         (SplitCountingWorker_init (ns_labels Samples.four_taxa) true 0 0)) = [].
Proof.
  destruct (killed_worker_publishes_nothing (Some 1%nat)
              [Samples.file_a; Samples.file_b]
              (SplitCountingWorker_init (ns_labels Samples.four_taxa) true 0 0))
    as (Hafter & Hnone & _).
  assert (Htr : run_trace (Some 1%nat) [Samples.file_a; Samples.file_b]
                  (SplitCountingWorker_init (ns_labels Samples.four_taxa) true 0 0)
                = [ReadKill false; GetTask "a.tre"; NextTree "a.tre" 0;
                   Counted "a.tre" 0]
                  ++ ReadKill true :: [ReadKill true; ReadKill true; KillWarning])
    by reflexivity.
  split.
  - exact (Hafter _ _ Htr).
  - apply Hnone. rewrite Htr. set_solver.
Defined.

(** ** The namespace handed to the workers *)

Lemma process_sources_parallel_unfold num_processes f fs t ts
    calc_tree_probs tree_offset arrivals :
  src_trees f = t :: ts →
  let taxon_namespace := tree_taxon_namespace t in
  let workers :=
    SplitCountingWorker_init (ns_labels taxon_namespace) calc_tree_probs tree_offset
      <$> seq 0 (Z.to_nat num_processes) in
  let traces := worker_trace workers <$> arrivals in
  process_sources_parallel num_processes (f :: fs) calc_tree_probs tree_offset arrivals
  = (DiscoverTaxa (src_path f) :: (StartWorker <$> workers),
     collate (Z.to_nat num_processes)
       (concat (put_split_dists <$> traces))
       (concat (put_topology_hash_maps <$> traces))
       (SplitDistribution_new taxon_namespace) TopologyCounter_new).
Proof.
  intros Hf. unfold process_sources_parallel, discover_taxa. rewrite Hf. simpl.
  by rewrite app_nil_r.
Qed.



(** ** The algebra of merging *)

Section MergeAdd.

Context `{Countable K}.

Local Abbreviation madd := (union_with (λ x y : Qc, Some (x + y)%Qc)).

Lemma madd_comm (a b : gmap K Qc) : madd a b = madd b a.
Proof.
  apply map_eq. intros i. rewrite !lookup_union_with.
  destruct (a !! i), (b !! i); simpl; try reflexivity.
  by rewrite Qcplus_comm.
Qed.

Lemma madd_assoc (a b c : gmap K Qc) : madd a (madd b c) = madd (madd a b) c.
Proof.
  apply map_eq. intros i. rewrite !lookup_union_with.
  destruct (a !! i), (b !! i), (c !! i); simpl; try reflexivity.
  by rewrite Qcplus_assoc.
Qed.

Lemma madd_empty_l (a : gmap K Qc) : madd ∅ a = a.
Proof. apply (left_id ∅ _). Qed.

Lemma madd_empty_r (a : gmap K Qc) : madd a ∅ = a.
Proof. apply (right_id ∅ _). Qed.

Lemma madd_singleton (a : gmap K Qc) (k : K) (w : Qc) :
  <[k := (default 0%Qc (a !! k) + w)%Qc]> a = madd a {[k := w]}.
Proof.
  apply map_eq. intros i. rewrite lookup_union_with.
  destruct (decide (k = i)) as [->|Hne].
  - rewrite lookup_insert_eq, lookup_singleton_eq.
    destruct (a !! i); simpl; [reflexivity | by rewrite Qcplus_0_l].
  - rewrite lookup_insert_ne, lookup_singleton_ne by done.
    by destruct (a !! i).
Qed.

End MergeAdd.

Lemma summary_merge_comm a b : summary_merge a b = summary_merge b a.
Proof.
  unfold summary_merge. f_equal.
  - apply madd_comm.
  - apply Qcplus_comm.
  - lia.
  - apply (comm_L _).
  - apply madd_comm.
Qed.

Lemma summary_merge_assoc a b c :
  summary_merge a (summary_merge b c) = summary_merge (summary_merge a b) c.
Proof.
  unfold summary_merge. simpl. f_equal.
  - apply madd_assoc.
  - apply Qcplus_assoc.
  - lia.
  - apply (assoc_L _).
  - apply madd_assoc.
Qed.

Lemma summary_merge_unit_l a : summary_merge summary_unit a = a.
Proof.
  destruct a. unfold summary_merge, summary_unit. simpl. f_equal.
  - apply madd_empty_l.
  - apply Qcplus_0_l.
  - apply (left_id_L _ _).
  - apply madd_empty_l.
Qed.

Lemma summary_merge_unit_r a : summary_merge a summary_unit = a.
Proof. rewrite summary_merge_comm. apply summary_merge_unit_l. Qed.

Lemma sum_summaries_cons {A} (f : A → Summary) x l :
  sum_summaries f (x :: l) = summary_merge (f x) (sum_summaries f l).
Proof. reflexivity. Qed.

Lemma sum_summaries_app {A} (f : A → Summary) l1 l2 :
  sum_summaries f (l1 ++ l2)
  = summary_merge (sum_summaries f l1) (sum_summaries f l2).
Proof.
  induction l1 as [|x l1 IH].
  - by rewrite summary_merge_unit_l.
  - rewrite <- app_comm_cons, !sum_summaries_cons, IH.
    by rewrite summary_merge_assoc.
Qed.

Lemma sum_summaries_Permutation {A} (f : A → Summary) l1 l2 :
  Permutation l1 l2 → sum_summaries f l1 = sum_summaries f l2.
Proof.
  induction 1 as [|x l1 l2 _ IH|x y l|l1 l2 l3 _ IH1 _ IH2].
  - reflexivity.
  - by rewrite !sum_summaries_cons, IH.
  - rewrite !sum_summaries_cons, !summary_merge_assoc.
    f_equal. apply summary_merge_comm.
  - congruence.
Qed.

Lemma sum_summaries_concat {A} (f : A → Summary) (ls : list (list A)) :
  sum_summaries f (concat ls) = sum_summaries (sum_summaries f) ls.
Proof.
  induction ls as [|l ls IH]; [reflexivity|].
  by rewrite sum_summaries_cons, <- IH, <- sum_summaries_app.
Qed.

Lemma sum_summaries_fmap {A B} (g : A → B) (f : B → Summary) l :
  sum_summaries f (g <$> l) = sum_summaries (f ∘ g) l.
Proof.
  induction l as [|x l IH]; [reflexivity|].
  by rewrite fmap_cons, !sum_summaries_cons, IH.
Qed.

Lemma sum_summaries_ext {A} (f g : A → Summary) l :
  (∀ x, x ∈ l → f x = g x) → sum_summaries f l = sum_summaries g l.
Proof.
  induction l as [|x l IH]; intros Hfg; [reflexivity|].
  rewrite !sum_summaries_cons, IH.
  - f_equal. apply Hfg. by left.
  - intros y Hy. apply Hfg. by right.
Qed.

(** ** Reading into a namespace *)

Lemma read_trees_fmap {B} (f : Tree → B) :
  (∀ ns t, f (read_tree ns t) = f t) →
  ∀ ts ns, f <$> read_trees ns ts = f <$> ts.
Proof.
  intros Hf ts. induction ts as [|t ts IH]; intros ns; [done|].
  cbn [read_trees]. by rewrite !fmap_cons, Hf, IH.
Qed.

Lemma read_trees_length ns ts : length (read_trees ns ts) = length ts.
Proof.
  transitivity (length (is_rooted <$> read_trees ns ts)); [by rewrite length_fmap|].
  rewrite (read_trees_fmap is_rooted (λ _ _, eq_refl)). apply length_fmap.
Qed.

Lemma read_by_worker_fmap {B} (f : Tree → B) :
  (∀ ns t, f (read_tree ns t) = f t) →
  ∀ tasks ns off,
    f <$> read_by_worker ns off tasks = f <$> counted_by_worker off tasks.
Proof.
  intros Hf tasks. induction tasks as [|s tasks IH]; intros ns off; [done|].
  cbn [read_by_worker]. rewrite fmap_app, fmap_drop, (read_trees_fmap f Hf), IH.
  unfold counted_by_worker. rewrite fmap_cons. simpl concat.
  by rewrite fmap_app, fmap_drop.
Qed.

Lemma read_by_worker_length ns off tasks :
  length (read_by_worker ns off tasks) = length (counted_by_worker off tasks).
Proof.
  transitivity (length (is_rooted <$> read_by_worker ns off tasks));
    [by rewrite length_fmap|].
  rewrite (read_by_worker_fmap is_rooted (λ _ _, eq_refl)). apply length_fmap.
Qed.

(** ** What counting keeps, whatever the weights *)

(** Counting the edges of a tree touches the two tables only. *)
Lemma foldl_count_edge t es : ∀ sd,
  sd_taxon_namespace (foldl (count_edge t) sd es) = sd_taxon_namespace sd
  ∧ total_trees_counted (foldl (count_edge t) sd es) = total_trees_counted sd
  ∧ sum_of_tree_weights (foldl (count_edge t) sd es) = sum_of_tree_weights sd
  ∧ tree_rooting_types_counted (foldl (count_edge t) sd es)
    = tree_rooting_types_counted sd.
Proof.
  induction es as [|e es IH]; intros sd; simpl; [done|].
  destruct (IH (count_edge t sd e)) as (H1 & H2 & H3 & H4).
  split_and!; [rewrite H1 | rewrite H2 | rewrite H3 | rewrite H4]; reflexivity.
Qed.

Lemma count_splits_on_tree_tally t sd :
  total_trees_counted (count_splits_on_tree t sd) = total_trees_counted sd + 1
  ∧ tree_rooting_types_counted (count_splits_on_tree t sd)
    = tree_rooting_types_counted sd ∪ {[ is_rooted t ]}
  ∧ sum_of_tree_weights (count_splits_on_tree t sd)
    = float_add (sum_of_tree_weights sd) (weight_of t).
Proof.
  unfold count_splits_on_tree. simpl.
  by destruct (foldl_count_edge t (tree_edges t) sd) as (_ & -> & -> & ->).
Qed.

Lemma count_splits_on_tree_rootings t sd :
  tree_rooting_types_counted (count_splits_on_tree t sd)
  = tree_rooting_types_counted sd ∪ {[ is_rooted t ]}.
Proof. apply count_splits_on_tree_tally. Qed.

Lemma zsum_cons {A} (f : A → Z) x l : zsum f (x :: l) = f x + zsum f l.
Proof. reflexivity. Qed.

Lemma zsum_app {A} (f : A → Z) l1 l2 : zsum f (l1 ++ l2) = zsum f l1 + zsum f l2.
Proof.
  induction l1 as [|x l1 IH]; [reflexivity|].
  rewrite <- app_comm_cons, !zsum_cons, IH. lia.
Qed.

Lemma zsum_fmap {A B} (g : A → B) (f : B → Z) l : zsum f (g <$> l) = zsum (f ∘ g) l.
Proof.
  induction l as [|x l IH]; [reflexivity|].
  by rewrite fmap_cons, !zsum_cons, IH.
Qed.

Lemma zsum_concat {A} (f : A → Z) (ls : list (list A)) :
  zsum f (concat ls) = zsum (zsum f) ls.
Proof.
  induction ls as [|l ls IH]; [reflexivity|].
  simpl concat. by rewrite zsum_app, zsum_cons, IH.
Qed.

Lemma zsum_ext {A} (f g : A → Z) l :
  (∀ x, x ∈ l → f x = g x) → zsum f l = zsum g l.
Proof.
  induction l as [|x l IH]; intros Hfg; [reflexivity|].
  rewrite !zsum_cons, IH.
  - f_equal. apply Hfg. by left.
  - intros y Hy. apply Hfg. by right.
Qed.

Lemma zsum_nonneg {A} (f : A → Z) l : (∀ x, x ∈ l → 0 ≤ f x) → 0 ≤ zsum f l.
Proof.
  induction l as [|x l IH]; intros Hf; [done|].
  rewrite zsum_cons.
  assert (0 ≤ f x) by (apply Hf; by left).
  assert (0 ≤ zsum f l) by (apply IH; intros y Hy; apply Hf; by right).
  lia.
Qed.

Lemma zsum_Permutation {A} (f : A → Z) l1 l2 :
  Permutation l1 l2 → zsum f l1 = zsum f l2.
Proof.
  induction 1 as [|x l1 l2 _ IH|x y l|l1 l2 l3 _ IH1 _ IH2].
  - reflexivity.
  - by rewrite !zsum_cons, IH.
  - rewrite !zsum_cons. lia.
  - congruence.
Qed.

(** ** A worker that is left alone *)

Lemma count_trees_fields ts : ∀ w,
  tree_offset (count_trees ts w) = tree_offset w
  ∧ calc_tree_probs (count_trees ts w) = calc_tree_probs w
  ∧ taxon_namespace (count_trees ts w) = taxon_namespace w.
Proof.
  induction ts as [|t ts IH]; intros w; [done|].
  unfold count_trees in *. simpl.
  destruct (IH (count_tree t w)) as (-> & -> & ->). done.
Qed.

Lemma count_trees_app ts1 ts2 w :
  count_trees (ts1 ++ ts2) w = count_trees ts2 (count_trees ts1 w).
Proof. unfold count_trees. apply foldl_app. Qed.

Lemma count_trees_set_taxon_namespace ts : ∀ ns w,
  count_trees ts (set_taxon_namespace ns w)
  = set_taxon_namespace ns (count_trees ts w).
Proof.
  induction ts as [|t ts IH]; intros ns w; [done|].
  change (count_trees (t :: ts) (set_taxon_namespace ns w))
    with (count_trees ts (set_taxon_namespace ns (count_tree t w))).
  change (count_trees (t :: ts) w) with (count_trees ts (count_tree t w)).
  apply IH.
Qed.

(** The number of trees, the rooting types and the total weight a worker
    has on record after counting [ts]; the weights are added one after the
    other, in floating point. *)
Lemma count_trees_tally ts : ∀ w,
  total_trees_counted (split_distribution (count_trees ts w))
  = total_trees_counted (split_distribution w) + Z.of_nat (length ts)
  ∧ tree_rooting_types_counted (split_distribution (count_trees ts w))
    = tree_rooting_types_counted (split_distribution w)
      ∪ list_to_set (is_rooted <$> ts)
  ∧ sum_of_tree_weights (split_distribution (count_trees ts w))
    = foldl float_add (sum_of_tree_weights (split_distribution w))
        (weight_of <$> ts).
Proof.
  induction ts as [|t ts IH]; intros w.
  - simpl. split_and!; [lia | set_solver | done].
  - change (count_trees (t :: ts) w) with (count_trees ts (count_tree t w)).
    destruct (IH (count_tree t w)) as (-> & -> & ->).
    destruct (count_splits_on_tree_tally t (split_distribution w)) as (H1 & H2 & H3).
    cbn [split_distribution count_tree]. rewrite H1, H2, H3.
    split_and!; [simpl length; lia | rewrite fmap_cons, list_to_set_cons; set_solver | done].
Qed.

Lemma count_trees_no_topologies ts : ∀ w,
  calc_tree_probs w = false →
  topology_counter (count_trees ts w) = topology_counter w.
Proof.
  induction ts as [|t ts IH]; intros w Hcalc; [done|].
  change (count_trees (t :: ts) w) with (count_trees ts (count_tree t w)).
  rewrite IH; cbn [calc_tree_probs topology_counter count_tree]; by rewrite ?Hcalc.
Qed.

Lemma for_trees_alone path trees : ∀ tidx st,
  ws_self (for_trees None path tidx trees st)
  = count_trees (drop (Z.to_nat (tree_offset (ws_self st) - tidx)) trees) (ws_self st).
Proof.
  induction trees as [|t rest IH]; intros tidx st.
  - by rewrite drop_nil.
  - cbn [for_trees]. unfold read_kill. cbn [kill_received].
    destruct (tree_offset (ws_self (emit (NextTree path tidx) st)) <=? tidx) eqn:E;
      rewrite IH; cbn [ws_self emit with_self] in *.
    + apply Z.leb_le in E.
      replace (Z.to_nat (tree_offset (ws_self st) - tidx)) with 0%nat by lia.
      replace (Z.to_nat (tree_offset (count_tree t (ws_self st)) - (tidx + 1)))
        with 0%nat by (simpl; lia).
      reflexivity.
    + apply Z.leb_gt in E.
      replace (Z.to_nat (tree_offset (ws_self st) - tidx))
        with (S (Z.to_nat (tree_offset (ws_self st) - (tidx + 1)))) by lia.
      reflexivity.
Qed.

Lemma while_loop_alone queue : ∀ st,
  split_distribution (ws_self (while_loop None queue st))
  = split_distribution
      (count_trees (read_by_worker (taxon_namespace (ws_self st))
                      (tree_offset (ws_self st)) queue) (ws_self st))
  ∧ topology_counter (ws_self (while_loop None queue st))
    = topology_counter
        (count_trees (read_by_worker (taxon_namespace (ws_self st))
                        (tree_offset (ws_self st)) queue) (ws_self st)).
Proof.
  induction queue as [|source rest IH]; intros st.
  - done.
  - cbn [while_loop]. unfold read_kill. cbn [kill_received].
    match goal with
    | |- context [while_loop None rest ?s] => destruct (IH s) as [-> ->]
    end.
    cbn [ws_self emit with_self]. rewrite for_trees_alone. cbn [ws_self emit].
    rewrite Z.sub_0_r.
    cbn [taxon_namespace tree_offset set_taxon_namespace].
    destruct (count_trees_fields
                (drop (Z.to_nat (tree_offset (ws_self st)))
                   (read_trees (taxon_namespace (ws_self st)) (src_trees source)))
                (ws_self st)) as (-> & _ & _).
    cbn [read_by_worker]. rewrite count_trees_app.
    rewrite !count_trees_set_taxon_namespace. done.
Qed.

Lemma run_alone queue w :
  put_split_dists (run_trace None queue w)
  = [split_distribution
       (count_trees (read_by_worker (taxon_namespace w) (tree_offset w) queue) w)]
  ∧ put_topology_hash_maps (run_trace None queue w)
    = [topology_hash_map
         (topology_counter
            (count_trees (read_by_worker (taxon_namespace w) (tree_offset w) queue) w))].
Proof.
  unfold run_trace, run, read_kill. cbn [kill_received].
  pose proof (while_loop_puts None queue (mkWState w 0 [])) as Hp.
  destruct (while_loop_alone queue (mkWState w 0 [])) as [Hs1 Hs2].
  unfold puts in Hp. injection Hp as Hp1 Hp2.
  cbn [ws_trace ws_self emit] in *.
  rewrite !put_split_dists_snoc, !put_topology_hash_maps_snoc, Hp1, Hp2, Hs1, Hs2.
  done.
Qed.

(** ** The collation loop *)

Lemma collate_all n : ∀ sds maps sd tc,
  length sds = n → length maps = n →
  collate n sds maps sd tc
  = Returned (foldl update sd sds,
              foldl (λ tc m, update_topology_hash_map m tc) tc maps).
Proof.
  induction n as [|n IH]; intros sds maps sd tc Hs Hm.
  - destruct sds, maps; try discriminate. reflexivity.
  - destruct sds as [|r sds], maps as [|m maps]; try discriminate.
    simpl in *. apply IH; lia.
Qed.

Lemma foldl_update_tally sds : ∀ sd,
  total_trees_counted (foldl update sd sds)
  = total_trees_counted sd + zsum total_trees_counted sds
  ∧ tree_rooting_types_counted (foldl update sd sds)
    = tree_rooting_types_counted sd ∪ ⋃ (tree_rooting_types_counted <$> sds).
Proof.
  induction sds as [|x sds IH]; intros sd.
  - simpl. split; [lia | set_solver].
  - simpl foldl. destruct (IH (update sd x)) as [-> ->].
    rewrite fmap_cons, union_list_cons, zsum_cons. simpl. split; [lia | set_solver].
Qed.

Lemma worker_trace_alone labels calc off n (a : nat * list Source) :
  (fst a < n)%nat →
  worker_trace (SplitCountingWorker_init labels calc off <$> seq 0 n) a
  = run_trace None (snd a) (SplitCountingWorker_init labels calc off (fst a)).
Proof.
  intros Ha. unfold worker_trace.
  by rewrite list_lookup_fmap, lookup_seq_lt.
Qed.

Lemma queues_of_arrivals labels calc off n (arrivals : list (nat * list Source)) :
  Forall (λ a, (fst a < n)%nat) arrivals →
  concat (put_split_dists
            <$> (worker_trace (SplitCountingWorker_init labels calc off <$> seq 0 n)
                   <$> arrivals))
  = split_distribution <$> (finished_worker labels calc off <$> arrivals)
  ∧ concat (put_topology_hash_maps
              <$> (worker_trace (SplitCountingWorker_init labels calc off <$> seq 0 n)
                     <$> arrivals))
    = (λ w, topology_hash_map (topology_counter w))
        <$> (finished_worker labels calc off <$> arrivals).
Proof.
  intros Hall. induction Hall as [|a arrivals Ha _ [IH1 IH2]].
  - done.
  - rewrite !fmap_cons. simpl concat. rewrite IH1, IH2.
    rewrite worker_trace_alone by done.
    destruct (run_alone (snd a) (SplitCountingWorker_init labels calc off (fst a)))
      as [-> ->].
    done.
Qed.

(** What the workers that finish have on record, together. *)
Lemma finished_workers_tally labels calc off (arrivals : list (nat * list Source)) :
  zsum total_trees_counted
       (split_distribution <$> (finished_worker labels calc off <$> arrivals))
  = Z.of_nat (length (concat (counted_by_worker off ∘ snd <$> arrivals)))
  ∧ ⋃ (tree_rooting_types_counted
         <$> (split_distribution <$> (finished_worker labels calc off <$> arrivals)))
    = list_to_set (is_rooted <$> concat (counted_by_worker off ∘ snd <$> arrivals)).
Proof.
  induction arrivals as [|a arrivals [IH1 IH2]]; [done|].
  rewrite !fmap_cons. simpl concat.
  rewrite zsum_cons, union_list_cons, IH1, IH2.
  unfold finished_worker at 1 2.
  destruct (count_trees_tally
              (read_by_worker (TaxonNamespace_new labels) off (snd a))
              (SplitCountingWorker_init labels calc off (fst a))) as (-> & -> & _).
  rewrite read_by_worker_length, (read_by_worker_fmap is_rooted (λ _ _, eq_refl)).
  rewrite List.length_app, fmap_app, list_to_set_app_L.
  cbn [split_distribution SplitCountingWorker_init SplitDistribution_new
       total_trees_counted tree_rooting_types_counted].
  split; [lia | set_solver].
Qed.

(** What [process_sources_parallel] returns when every worker reports. *)
Lemma process_sources_parallel_result num_processes f fs t ts calc off arrivals :
  src_trees f = t :: ts →
  length arrivals = Z.to_nat num_processes →
  Forall (λ a, (fst a < Z.to_nat num_processes)%nat) arrivals →
  process_sources_parallel num_processes (f :: fs) calc off arrivals
  = (DiscoverTaxa (src_path f)
       :: (StartWorker <$> (SplitCountingWorker_init
                              (ns_labels (tree_taxon_namespace t)) calc off
                              <$> seq 0 (Z.to_nat num_processes))),
     Returned
       (foldl update (SplitDistribution_new (tree_taxon_namespace t))
          (split_distribution
             <$> (finished_worker (ns_labels (tree_taxon_namespace t)) calc off
                    <$> arrivals)),
        foldl (λ tc m, update_topology_hash_map m tc) TopologyCounter_new
          ((λ w, topology_hash_map (topology_counter w))
             <$> (finished_worker (ns_labels (tree_taxon_namespace t)) calc off
                    <$> arrivals)))).
Proof.
  intros Hf Hlen Hall.
  pose proof (process_sources_parallel_unfold num_processes f fs t ts
                calc off arrivals Hf) as Hun.
  cbv zeta in Hun. rewrite Hun. clear Hun.
  destruct (queues_of_arrivals (ns_labels (tree_taxon_namespace t)) calc off
              (Z.to_nat num_processes) arrivals Hall) as [-> ->].
  by rewrite collate_all by (by rewrite !length_fmap).
Qed.

(** The number of trees and the rooting types on record after the
    collation. *)
Lemma collated_tally ns labels calc off (arrivals : list (nat * list Source)) :
  total_trees_counted
    (foldl update (SplitDistribution_new ns)
       (split_distribution <$> (finished_worker labels calc off <$> arrivals)))
  = Z.of_nat (length (concat (counted_by_worker off ∘ snd <$> arrivals)))
  ∧ tree_rooting_types_counted
      (foldl update (SplitDistribution_new ns)
         (split_distribution <$> (finished_worker labels calc off <$> arrivals)))
    = list_to_set (is_rooted <$> concat (counted_by_worker off ∘ snd <$> arrivals)).
Proof.
  destruct (foldl_update_tally
              (split_distribution <$> (finished_worker labels calc off <$> arrivals))
              (SplitDistribution_new ns)) as [-> ->].
  destruct (finished_workers_tally labels calc off arrivals) as [-> ->].
  simpl. split; [lia | set_solver].
Qed.

(** ** The serial pass *)

Lemma two_rootings_size (X : gset (option bool)) :
  Some true ∈ X → Some false ∈ X → (2 ≤ size X)%nat.
Proof.
  intros H1 H2.
  assert (Hsub : ({[ Some true ]} ∪ {[ Some false ]} : gset (option bool)) ⊆ X)
    by set_solver.
  apply subseteq_size in Hsub.
  rewrite size_union, !size_singleton in Hsub by set_solver. exact Hsub.
Qed.

Lemma mixed_tree_rootings_in_source_error_eq {A} :
  @mixed_tree_rootings_in_source_error A
  = ([Error mixed_rootings_message], Exited 1).
Proof. reflexivity. Qed.

(** The serial loop either runs to its end, silently, having counted the
    trees from [tree_offset] on and with at most one rooting type on record,
    or it stops at [mixed_tree_rootings_in_source_error]. *)
Lemma serial_loop_cases off trees : ∀ tidx sd tc,
  (∃ sd' tc',
      serial_loop off tidx trees sd tc = ([], Returned (sd', tc'))
      ∧ total_trees_counted sd'
        = total_trees_counted sd
          + Z.of_nat (length (drop (Z.to_nat (off - tidx)) trees))
      ∧ tree_rooting_types_counted sd'
        = tree_rooting_types_counted sd
          ∪ list_to_set (is_rooted <$> drop (Z.to_nat (off - tidx)) trees)
      ∧ sum_of_tree_weights sd'
        = foldl float_add (sum_of_tree_weights sd)
            (weight_of <$> drop (Z.to_nat (off - tidx)) trees)
      ∧ (((size (tree_rooting_types_counted sd) ≤ 1)%nat
          ∨ drop (Z.to_nat (off - tidx)) trees ≠ []) →
         (size (tree_rooting_types_counted sd') ≤ 1)%nat))
  ∨ serial_loop off tidx trees sd tc = ([Error mixed_rootings_message], Exited 1).
Proof.
  induction trees as [|t rest IH]; intros tidx sd tc.
  - left. exists sd, tc. rewrite drop_nil. split_and!.
    + reflexivity.
    + simpl. lia.
    + simpl. set_solver.
    + reflexivity.
    + intros [H|H]; [exact H | done].
  - cbn [serial_loop]. destruct (off <=? tidx) eqn:E.
    + apply Z.leb_le in E.
      replace (Z.to_nat (off - tidx)) with 0%nat by lia. rewrite drop_0.
      destruct (1 <? size (tree_rooting_types_counted (count_splits_on_tree t sd)))%nat
        eqn:E2.
      { right. apply mixed_tree_rootings_in_source_error_eq. }
      apply Nat.ltb_ge in E2.
      destruct (IH (tidx + 1) (count_splits_on_tree t sd) (TopologyCounter_count t tc))
        as [(sd' & tc' & Heq & Htot & Hroot & Hw & Hsize) | Heq]; [left | by right].
      replace (Z.to_nat (off - (tidx + 1))) with 0%nat in * by lia.
      rewrite drop_0 in *.
      destruct (count_splits_on_tree_tally t sd) as (H1 & H2 & H3).
      exists sd', tc'. split_and!.
      * exact Heq.
      * rewrite Htot, H1. simpl length. lia.
      * rewrite Hroot, H2, fmap_cons, list_to_set_cons. set_solver.
      * rewrite Hw, H3. reflexivity.
      * intros _. apply Hsize. by left.
    + apply Z.leb_gt in E.
      replace (Z.to_nat (off - tidx)) with (S (Z.to_nat (off - (tidx + 1)))) by lia.
      apply IH.
Qed.

(** When a rooted and an unrooted tree are among the trees the serial loop
    counts, it stops at the error. *)
Lemma serial_loop_mixed off trees sd tc :
  Some true ∈ is_rooted <$> drop (Z.to_nat off) trees →
  Some false ∈ is_rooted <$> drop (Z.to_nat off) trees →
  serial_loop off 0 trees sd tc = ([Error mixed_rootings_message], Exited 1).
Proof.
  intros H1 H2.
  destruct (serial_loop_cases off trees 0 sd tc)
    as [(sd' & tc' & _ & _ & Hroot & _ & Hsize) | Heq]; [exfalso | exact Heq].
  rewrite Z.sub_0_r in *.
  assert (Hle : (size (tree_rooting_types_counted sd') ≤ 1)%nat).
  { apply Hsize. right. intros Hnil. rewrite Hnil in H1. by apply elem_of_nil in H1. }
  pose proof (two_rootings_size (tree_rooting_types_counted sd')) as Htwo.
  rewrite Hroot in Htwo.
  assert (2 ≤ size (tree_rooting_types_counted sd'))%nat; [|lia].
  rewrite Hroot. apply Htwo; apply elem_of_union_r, elem_of_list_to_set; done.
Qed.

(** ** The run of the program around the counting *)

Lemma bind_exited {A B} (m : action A) (f : A → action B) tr c :
  m = (tr, Exited c) → m ≫= f = (tr, Exited c).
Proof. by intros ->. Qed.

Lemma bind_returned {A B} (m : action A) (f : A → action B) tr a tr' o :
  m = (tr, Returned a) → f a = (tr', o) → m ≫= f = (tr ++ tr', o).
Proof. intros -> Hf. unfold mbind, action_bind. by rewrite Hf. Qed.

Lemma process_sources_serial_eq opts env support_filepaths :
  (support_filepaths ≠ [] ∨ from_stream opts = true) →
  process_sources_serial (stdin env)
    (if from_stream opts then None else Some support_filepaths) (burnin opts)
  = serial_loop (burnin opts) 0
      (read_trees (TaxonNamespace_new [])
         (yield_from_files (serial_sources opts env support_filepaths)))
      (SplitDistribution_new (TaxonNamespace_new [])) TopologyCounter_new.
Proof.
  intros Hok. unfold process_sources_serial, serial_sources.
  destruct (from_stream opts); [reflexivity|].
  destruct support_filepaths; [|reflexivity].
  destruct Hok; done.
Qed.

(** In serial mode the counting phase is the serial loop, after at most
    a warning. *)
Lemma count_sources_serial opts env support_filepaths :
  runs_parallel opts support_filepaths = false →
  (support_filepaths ≠ [] ∨ from_stream opts = true) →
  ∃ warn, Forall (λ e, is_output e = false) warn
    ∧ ∀ tr o,
        serial_loop (burnin opts) 0
          (read_trees (TaxonNamespace_new [])
             (yield_from_files (serial_sources opts env support_filepaths)))
          (SplitDistribution_new (TaxonNamespace_new [])) TopologyCounter_new
        = (tr, o) →
        count_sources opts env support_filepaths = (warn ++ tr, o).
Proof.
  intros Hmode Hok. unfold count_sources.
  unfold runs_parallel in Hmode. rewrite Hmode.
  rewrite (process_sources_serial_eq opts env support_filepaths Hok).
  destruct (bool_decide (is_Some (multiprocess opts))
            && (length support_filepaths =? 1)%nat).
  - exists [Warning one_source_message]. split; [by repeat constructor|].
    intros tr o ->. reflexivity.
  - exists []. split; [constructor|].
    intros tr o ->. reflexivity.
Qed.

(** In parallel mode, with a valid number of processes and every worker
    reporting, the counting phase returns the merged distribution, after at
    most a warning, the discovery of the taxa and the launch of the
    workers. *)
Lemma count_sources_parallel opts env f fs t ts n :
  runs_parallel opts (f :: fs) = true →
  requested_processes opts env (f :: fs) = Some n → 0 < n →
  src_trees f = t :: ts →
  length (arrivals env) = Z.to_nat n →
  Forall (λ a, (fst a < Z.to_nat n)%nat) (arrivals env) →
  ∃ tr sd tc,
    count_sources opts env (f :: fs) = (tr, Returned (sd, tc))
    ∧ Forall (λ e, is_output e = false) tr
    ∧ tree_rooting_types_counted sd
      = list_to_set
          (is_rooted <$> concat (counted_by_worker (burnin opts) ∘ snd <$> arrivals env)).
Proof.
  intros Hmode Hreq Hpos Hf Hlen Hall.
  pose proof (process_sources_parallel_result n f fs t ts (trprobs_filepath opts)
                (burnin opts) (arrivals env) Hf Hlen Hall) as Hpar.
  destruct (collated_tally (tree_taxon_namespace t)
              (ns_labels (tree_taxon_namespace t)) (trprobs_filepath opts)
              (burnin opts) (arrivals env)) as [_ Hroot].
  assert (Hquiet : Forall (λ e, is_output e = false)
            (DiscoverTaxa (src_path f)
               :: (StartWorker <$> (SplitCountingWorker_init
                     (ns_labels (tree_taxon_namespace t)) (trprobs_filepath opts)
                     (burnin opts) <$> seq 0 (Z.to_nat n))))).
  { constructor; [done|]. apply Forall_fmap, Forall_true. done. }
  unfold count_sources. unfold runs_parallel in Hmode. rewrite Hmode.
  assert (Hnum : (match multiprocess opts with
                  | Some MPStar => mret (cpu_count env)
                  | Some MPAt => mret (Z.of_nat (length (f :: fs)))
                  | Some (MPInt n) => mret n
                  | Some (MPNotInt _) => log (Error not_an_int_message) ;; sys_exit 1
                  | None => mret 0
                  end : action Z) = ([], Returned n)).
  { unfold requested_processes in Hreq.
    destruct (multiprocess opts) as [[]|]; try discriminate Hreq;
      by injection Hreq as <-. }
  rewrite Hnum. clear Hnum.
  assert (Hle : (n <=? 0) = false) by (apply Z.leb_gt; lia).
  destruct (n =? 1) eqn:E1.
  - eexists (Warning one_process_message :: DiscoverTaxa (src_path f) :: _), _, _.
    split_and!; [|by constructor|exact Hroot].
    unfold mbind, action_bind, mret, action_ret. rewrite Hle, E1, Hpar. reflexivity.
  - eexists (DiscoverTaxa (src_path f) :: _), _, _.
    split_and!; [|exact Hquiet|exact Hroot].
    unfold mbind, action_bind, mret, action_ret. rewrite Hle, E1, Hpar. reflexivity.
Qed.

(** ** Mixed rootings *)

(** C2: whenever a rooted and an unrooted tree are among the trees a run
    counts, [main_cli] ends with the mixed-rooting error as its last message
    and exit code 1, and nothing before that message builds or writes a
    summary (no consensus tree, no support mapping, no result trees, no
    tree-probability table, no split-edge table).  In serial mode the counted
    trees are those of the stream from the burn-in on; in parallel mode,
    with a positive number of processes, a first file that has a tree to
    discover the taxa from, and every worker reporting, they are the trees
    each worker counts of its tasks. *)
Theorem mixed_rootings_abort (opts : Options) (env : Environment)
    (support_filepaths : list Source) (t1 t2 : Tree) :
  is_rooted t1 = Some true → is_rooted t2 = Some false →
  (runs_parallel opts support_filepaths = false →
   t1 ∈ counted_serially (burnin opts) (serial_sources opts env support_filepaths) →
   t2 ∈ counted_serially (burnin opts) (serial_sources opts env support_filepaths) →
   ∃ tr, main_cli opts env support_filepaths
         = (tr ++ [Error mixed_rootings_message], Exited 1)
         ∧ Forall (λ e, is_output e = false) tr)
  ∧ (∀ n, runs_parallel opts support_filepaths = true →
       requested_processes opts env support_filepaths = Some n → 0 < n →
       (∃ f fs t ts, support_filepaths = f :: fs ∧ src_trees f = t :: ts) →
       length (arrivals env) = Z.to_nat n →
       Forall (λ a, (fst a < Z.to_nat n)%nat) (arrivals env) →
       t1 ∈ concat (counted_by_worker (burnin opts) ∘ snd <$> arrivals env) →
       t2 ∈ concat (counted_by_worker (burnin opts) ∘ snd <$> arrivals env) →
       ∃ tr, main_cli opts env support_filepaths
             = (tr ++ [Error mixed_rootings_message], Exited 1)
             ∧ Forall (λ e, is_output e = false) tr).
Proof.
  intros Hr1 Hr2. split.
  - intros Hmode H1 H2.
    assert (Hok : support_filepaths ≠ [] ∨ from_stream opts = true).
    { destruct (from_stream opts) eqn:Hs; [by right | left].
      intros ->. unfold counted_serially, serial_sources in H1.
      rewrite Hs in H1. unfold yield_from_files in H1. simpl in H1.
      rewrite drop_nil in H1. by apply elem_of_nil in H1. }
    destruct (count_sources_serial opts env support_filepaths Hmode Hok)
      as (warn & Hwarn & Hcount).
    exists warn. split; [|exact Hwarn].
    assert (Hread : ∀ x, x ∈ counted_serially (burnin opts)
                             (serial_sources opts env support_filepaths) →
              is_rooted x
              ∈ is_rooted <$> drop (Z.to_nat (burnin opts))
                                (read_trees (TaxonNamespace_new [])
                                   (yield_from_files
                                      (serial_sources opts env support_filepaths)))).
    { intros x Hx.
      rewrite fmap_drop, (read_trees_fmap is_rooted (λ _ _, eq_refl)), <- fmap_drop.
      by apply list_elem_of_fmap_2. }
    assert (Hmixed := serial_loop_mixed (burnin opts)
                        (read_trees (TaxonNamespace_new [])
                           (yield_from_files (serial_sources opts env support_filepaths)))
                        (SplitDistribution_new (TaxonNamespace_new []))
                        TopologyCounter_new).
    rewrite <- Hr1, <- Hr2 in Hmixed.
    specialize (Hcount _ _ (Hmixed (Hread _ H1) (Hread _ H2))).
    unfold main_cli.
    assert (Hpre : (length support_filepaths =? 0)%nat && negb (from_stream opts) = false).
    { destruct Hok as [Hne | ->]; [|by rewrite andb_false_r].
      destruct support_filepaths; [done | reflexivity]. }
    rewrite Hpre.
    erewrite (bind_returned (mret tt)); [| reflexivity |].
    2:{ apply bind_exited. exact Hcount. }
    reflexivity.
  - intros n Hmode Hreq Hpos (f & fs & t & ts & -> & Hf) Hlen Hall H1 H2.
    destruct (count_sources_parallel opts env f fs t ts n Hmode Hreq Hpos Hf Hlen Hall)
      as (tr & sd & tc & Hcount & Hquiet & Hroot).
    exists tr. split; [|exact Hquiet].
    assert (Hin : ∀ x, x ∈ concat (counted_by_worker (burnin opts) ∘ snd <$> arrivals env) →
                       is_rooted x ∈ tree_rooting_types_counted sd).
    { intros x Hx. rewrite Hroot. apply elem_of_list_to_set.
      by apply list_elem_of_fmap_2. }
    assert (Hmixed : is_mixed_rootings_counted sd = true).
    { unfold is_mixed_rootings_counted.
      rewrite !bool_decide_eq_true_2; [done | |].
      - rewrite <- Hr2. by apply Hin.
      - rewrite <- Hr1. by apply Hin. }
    unfold main_cli.
    change ((length (f :: fs) =? 0)%nat) with false. rewrite andb_false_l.
    erewrite (bind_returned (mret tt)); [| reflexivity |].
    2:{ eapply bind_returned; [exact Hcount|]. cbn [fst]. rewrite Hmixed.
        apply bind_exited. apply mixed_tree_rootings_in_source_error_eq. }
    reflexivity.
Qed.

Lemma mixed_rootings_abort_witness :
  (∃ tr, main_cli (Samples.options_with_burnin 0) Samples.plain_environment
           [Samples.file_a; Samples.file_rooted]
         = (tr ++ [Error mixed_rootings_message], Exited 1)
         ∧ Forall (λ e, is_output e = false) tr)
  ∧ (∃ tr, main_cli (Samples.options_parallel 2)
             (Samples.environment_with_schedule
                [(1%nat, [Samples.file_rooted]); (0%nat, [Samples.file_a])])
             [Samples.file_a; Samples.file_rooted]
           = (tr ++ [Error mixed_rootings_message], Exited 1)
           ∧ Forall (λ e, is_output e = false) tr).
Proof.
  split.
  - apply (proj1 (mixed_rootings_abort (Samples.options_with_burnin 0)
                    Samples.plain_environment
                    [Samples.file_a; Samples.file_rooted]
                    Samples.rooted_ab Samples.unrooted_ab eq_refl eq_refl)).
    + reflexivity.
    + do 2 apply list_elem_of_further. apply list_elem_of_here.
    + apply list_elem_of_here.
  - apply (proj2 (mixed_rootings_abort (Samples.options_parallel 2)
                    (Samples.environment_with_schedule
                       [(1%nat, [Samples.file_rooted]); (0%nat, [Samples.file_a])])
                    [Samples.file_a; Samples.file_rooted]
                    Samples.rooted_ab Samples.unrooted_ab eq_refl eq_refl) 2).
    + reflexivity.
    + reflexivity.
    + reflexivity.
    + by exists Samples.file_a, [Samples.file_rooted],
                Samples.unrooted_ab, [Samples.unrooted_ac].
    + reflexivity.
    + repeat constructor.
    + apply list_elem_of_here.
    + apply list_elem_of_further. apply list_elem_of_here.
Defined.

(** ** Sums of floats that are not rounded *)

Lemma pow2_divisor (p : nat) : ∀ b,
  0 < b → (b | 2 ^ Z.of_nat p) → ∃ q : nat, (q ≤ p)%nat ∧ b = 2 ^ Z.of_nat q.
Proof.
  induction p as [|p IH]; intros b Hb Hdiv.
  - exists 0%nat. split; [lia|]. simpl in *.
    apply Z.divide_1_r_nonneg in Hdiv; lia.
  - rewrite Nat2Z.inj_succ, Z.pow_succ_r in Hdiv by lia.
    destruct (Z.Even_or_Odd b) as [[c ->] | [c ->]].
    + apply Z.mul_divide_cancel_l in Hdiv; [|lia].
      destruct (IH c ltac:(lia) Hdiv) as (q & Hq & ->).
      exists (S q). split; [lia|].
      rewrite Nat2Z.inj_succ, Z.pow_succ_r by lia. reflexivity.
    + apply Z.gauss in Hdiv.
      * destruct (IH _ Hb Hdiv) as (q & Hq & Heq). exists q. split; [lia | done].
      * rewrite Z.gcd_comm. replace (2 * c + 1) with (1 + c * 2) by lia.
        rewrite Z.gcd_add_mult_diag_r. reflexivity.
Qed.

Lemma binary64_of_pos_dyadic (n q : Z) :
  0 < n < 2 ^ 53 → 0 ≤ q →
  binary64_of_pos n (2 ^ q) = Qred (n # Z.to_pos (2 ^ q)).
Proof.
  intros [Hn Hlt] Hq.
  pose proof (Z.log2_spec n Hn) as [Hlo Hhi].
  pose proof (Z.log2_nonneg n) as HL.
  assert (HL52 : Z.log2 n < 53) by (by apply Z.log2_lt_pow2).
  set (L := Z.log2 n) in *.
  assert (Hpq : 0 < 2 ^ q) by (by apply Z.pow_pos_nonneg).
  unfold binary64_of_pos. rewrite Z.log2_pow2 by done. fold L.
  assert (Hcond : (2 ^ q * 2 ^ Z.max 0 (L - q) <=? n * 2 ^ Z.max 0 (- (L - q))) = true).
  { apply Z.leb_le. destruct (Z.le_gt_cases q L) as [Hle | Hgt].
    - rewrite (Z.max_r 0 (L - q)), (Z.max_l 0 (- (L - q))) by lia.
      rewrite <- Z.pow_add_r by lia. replace (q + (L - q)) with L by lia.
      change (2 ^ 0) with 1. lia.
    - rewrite (Z.max_l 0 (L - q)), (Z.max_r 0 (- (L - q))) by lia.
      replace (2 ^ q) with (2 ^ L * 2 ^ (- (L - q))).
      + change (2 ^ 0) with 1. rewrite Z.mul_1_r.
        apply Z.mul_le_mono_nonneg_r; [apply Z.pow_nonneg; lia | done].
      + rewrite <- Z.pow_add_r by lia. f_equal. lia. }
  rewrite Hcond.
  assert (Hs : (0 <=? 52 - (L - q)) = true) by (apply Z.leb_le; lia).
  rewrite Hs.
  set (s := 52 - (L - q)).
  assert (Hsplit : n * 2 ^ s = (n * 2 ^ (s - q)) * 2 ^ q).
  { rewrite <- Z.mul_assoc, <- Z.pow_add_r by lia. do 2 f_equal. lia. }
  unfold round_half_even.
  rewrite Hsplit, Z.div_mul, Z.mod_mul by lia.
  assert (Hc : (2 * 0 ?= 2 ^ q) = Lt) by (apply Z.compare_lt_iff; lia).
  rewrite Hc.
  apply Qred_complete. unfold Qeq. simpl.
  rewrite !Z2Pos.id by (try apply Z.pow_pos_nonneg; lia).
  rewrite <- !Z.mul_assoc, <- Z.pow_add_r by lia. do 2 f_equal. lia.
Qed.

Lemma float_of_grid (p : nat) (z : Z) :
  0 ≤ z < 2 ^ 53 → float_of_Q (this (grid p z)) = this (grid p z).
Proof.
  intros [Hz Hlt].
  set (D := 2 ^ Z.of_nat p).
  assert (HD : 0 < D) by (apply Z.pow_pos_nonneg; lia).
  set (x := this (grid p z)).
  assert (Hred : Qred x = x) by apply Qred_involutive.
  assert (Heq : Qnum x * D = z * Zpos (Qden x)).
  { pose proof (Qred_correct (z # Z.to_pos D)) as H. unfold Qeq in H. simpl in H.
    rewrite Z2Pos.id in H by done. exact H. }
  destruct (Z.eq_dec z 0) as [-> | Hz0].
  - assert (Hx : x = 0%Q).
    { rewrite <- Hred. change 0%Q with (Qred 0). apply Qred_complete.
      unfold Qeq. simpl. nia. }
    rewrite Hx. reflexivity.
  - assert (Hn : 0 < Qnum x) by nia.
    pose proof (Qred_identity2 x Hred) as Hgcd.
    assert (Hdiv : (Zpos (Qden x) | D)).
    { apply (Z.gauss _ (Qnum x)).
      - exists z. lia.
      - by rewrite Z.gcd_comm. }
    destruct (pow2_divisor p (Zpos (Qden x)) (Pos2Z.is_pos _) Hdiv) as (q & Hq & Hd).
    assert (HdD : Zpos (Qden x) ≤ D).
    { rewrite Hd. apply Z.pow_le_mono_r; lia. }
    assert (Hnz : Qnum x ≤ z) by nia.
    unfold float_of_Q. destruct (Qnum x) as [|n|n] eqn:En; try lia.
    rewrite Hd, binary64_of_pos_dyadic by lia.
    rewrite <- Hred. f_equal. clearbody x. destruct x as [xn xd]. simpl in *.
    rewrite En. f_equal. rewrite <- Hd. reflexivity.
Qed.

Lemma Q2Qc_this (c : Qc) : Q2Qc (this c) = c.
Proof. apply Qc_is_canon. simpl. apply Qred_correct. Qed.

Lemma grid_plus (p : nat) (a b : Z) : (grid p a + grid p b)%Qc = grid p (a + b).
Proof.
  apply Qc_is_canon. unfold grid. simpl. rewrite !Qred_correct.
  unfold Qeq, Qplus. simpl. nia.
Qed.

Lemma grid_0 (p : nat) : grid p 0 = 0%Qc.
Proof. apply Qc_is_canon. unfold grid. simpl. rewrite Qred_correct. reflexivity. Qed.

Lemma float_add_grid (p : nat) (a b : Z) :
  0 ≤ a → 0 ≤ b → a + b < 2 ^ 53 →
  float_add (grid p a) (grid p b) = (grid p a + grid p b)%Qc.
Proof.
  intros Ha Hb Hlt. unfold float_add. rewrite grid_plus, float_of_grid by lia.
  apply Q2Qc_this.
Qed.

Lemma grid_value_mono p M M' v : M ≤ M' → grid_value p M v → grid_value p M' v.
Proof. intros Hle (z & Hz & ->). exists z. split; [lia | done]. Qed.

Lemma grid_value_0 p M : 0 ≤ M → grid_value p M 0%Qc.
Proof. intros HM. exists 0. split; [lia | by rewrite grid_0]. Qed.

Lemma on_grid_value p w : on_grid p w → grid_value p (units p w) w.
Proof. intros [Hu Hw]. exists (units p w). split; [lia | done]. Qed.

(** Two floats on the grid whose sum stays below [2^53] units add without
    rounding. *)
Lemma float_add_exact p M1 M2 x y :
  grid_value p M1 x → grid_value p M2 y → M1 + M2 < 2 ^ 53 →
  float_add x y = (x + y)%Qc ∧ grid_value p (M1 + M2) (x + y)%Qc.
Proof.
  intros (a & Ha & ->) (b & Hb & ->) Hlt. split.
  - apply float_add_grid; lia.
  - exists (a + b). split; [lia | apply grid_plus].
Qed.

Section GridMaps.

Context `{Countable K}.

Local Abbreviation madd := (union_with (λ x y : Qc, Some (x + y)%Qc)).

Lemma grid_map_mono p M M' (m : gmap K Qc) :
  M ≤ M' → grid_map p M m → grid_map p M' m.
Proof. intros Hle Hm k v Hk. eapply grid_value_mono; [exact Hle | by eapply Hm]. Qed.

Lemma grid_map_empty p M : grid_map p M (∅ : gmap K Qc).
Proof. intros k v Hk. by rewrite lookup_empty in Hk. Qed.

(** [m[k] += w] on a table of floats. *)
Lemma insert_exact p M u (m : gmap K Qc) (k : K) (w : Qc) :
  grid_map p M m → 0 ≤ M → grid_value p u w → M + u < 2 ^ 53 →
  <[k := float_add (default 0%Qc (m !! k)) w]> m = madd m {[k := w]}
  ∧ grid_map p (M + u) (madd m {[k := w]}).
Proof.
  intros Hm HM Hw Hlt.
  assert (Hold : grid_value p M (default 0%Qc (m !! k))).
  { destruct (m !! k) as [v|] eqn:E; simpl; [by eapply Hm | by apply grid_value_0]. }
  destruct (float_add_exact p M u _ _ Hold Hw Hlt) as [Hadd Hval].
  rewrite Hadd, madd_singleton. split; [done|].
  rewrite <- madd_singleton. intros i v Hi.
  destruct (decide (k = i)) as [->|Hne].
  - rewrite lookup_insert_eq in Hi. by injection Hi as <-.
  - rewrite lookup_insert_ne in Hi by done.
    destruct Hw as (z & Hz & _).
    eapply grid_value_mono; [|by eapply Hm]. lia.
Qed.

(** The per-key sum of two tables of floats. *)
Lemma merge_exact p M1 M2 (a b : gmap K Qc) :
  grid_map p M1 a → grid_map p M2 b → 0 ≤ M1 → 0 ≤ M2 → M1 + M2 < 2 ^ 53 →
  union_with (λ x y, Some (float_add x y)) a b = madd a b
  ∧ grid_map p (M1 + M2) (madd a b).
Proof.
  intros Ha Hb H1 H2 Hlt. split.
  - apply map_eq. intros i. rewrite !lookup_union_with.
    destruct (a !! i) as [x|] eqn:Ea, (b !! i) as [y|] eqn:Eb; simpl; try reflexivity.
    f_equal. eapply float_add_exact; [by eapply Ha | by eapply Hb | done].
  - intros i v. rewrite lookup_union_with.
    destruct (a !! i) as [x|] eqn:Ea, (b !! i) as [y|] eqn:Eb; simpl; intros Hv;
      try discriminate Hv; injection Hv as <-.
    + eapply float_add_exact; [by eapply Ha | by eapply Hb | done].
    + eapply grid_value_mono; [|by eapply Ha]. lia.
    + eapply grid_value_mono; [|by eapply Hb]. lia.
Qed.

End GridMaps.

Lemma units_nonneg_mass p t : on_grid p (weight_of t) → 0 ≤ units p (weight_of t) ≤ mass p t.
Proof. intros [Hu _]. unfold mass. nia. Qed.

Lemma total_mass_nonneg p ts :
  Forall (λ t, on_grid p (weight_of t)) ts → 0 ≤ total_mass p ts.
Proof.
  intros Hall. apply zsum_nonneg. intros t Ht.
  rewrite List.Forall_forall in Hall.
  apply list_elem_of_In, Hall in Ht. apply units_nonneg_mass in Ht. lia.
Qed.

(** Counting the edges of a tree adds the tree's weight, without rounding,
    under the key of each edge. *)
Lemma count_edges_exact p u t es : ∀ sd M,
  grid_value p u (weight_of t) → grid_map p M (split_counts sd) → 0 ≤ M →
  M + u * Z.of_nat (length es) < 2 ^ 53 →
  split_counts (foldl (count_edge t) sd es)
  = union_with (λ x y, Some (x + y)%Qc) (split_counts sd)
      (foldr (λ e acc, union_with (λ x y, Some (x + y)%Qc)
                         {[ split_key t e := weight_of t ]} acc) ∅ es)
  ∧ grid_map p (M + u * Z.of_nat (length es))
      (split_counts (foldl (count_edge t) sd es)).
Proof.
  induction es as [|e es IH]; intros sd M Hw Hm HM Hlt.
  - simpl. rewrite madd_empty_r. split; [done|].
    eapply grid_map_mono; [|exact Hm]. lia.
  - assert (Hu : 0 ≤ u) by (destruct Hw as (z & Hz & _); lia).
    simpl length in *. rewrite Nat2Z.inj_succ in *.
    destruct (insert_exact p M u (split_counts sd) (split_key t e) (weight_of t)
                Hm HM Hw ltac:(nia)) as [Hins Hgrid].
    simpl foldl. simpl foldr.
    destruct (IH (count_edge t sd e) (M + u) Hw) as [Heq Hg].
    + cbn [split_counts count_edge]. unfold add_count. by rewrite Hins.
    + lia.
    + nia.
    + rewrite Heq. cbn [split_counts count_edge]. unfold add_count.
      rewrite Hins, <- madd_assoc. split; [done|].
      rewrite madd_assoc, <- Hins.
      change (<[split_key t e:=float_add (default 0%Qc (split_counts sd !! split_key t e))
                 (weight_of t)]> (split_counts sd))
        with (split_counts (count_edge t sd e)).
      rewrite <- Heq. eapply grid_map_mono; [|exact Hg]. lia.
Qed.

(** Counting a tree whose weight is on the grid adds the tree's exact
    contribution, as long as the sums stay below [2^53] units. *)
Lemma summarize_count_tree_exact p M (calc : bool) t sd tc :
  on_grid p (weight_of t) → grid_summary p M (summarize sd tc) → 0 ≤ M →
  M + mass p t < 2 ^ 53 →
  summarize (count_splits_on_tree t sd)
            (if calc then TopologyCounter_count t tc else tc)
  = summary_merge (summarize sd tc) (tree_summary calc t)
  ∧ grid_summary p (M + mass p t)
      (summary_merge (summarize sd tc) (tree_summary calc t)).
Proof.
  intros Hon (Hc & Hw & Ht) HM Hlt. cbn [summarize s_counts s_weight s_topologies] in *.
  pose proof (on_grid_value p _ Hon) as Hval.
  pose proof (units_nonneg_mass p t Hon) as Hu.
  destruct (count_edges_exact p (units p (weight_of t)) t (tree_edges t) sd M
              Hval Hc HM) as [Hcounts Hcg].
  { unfold mass in Hlt. nia. }
  destruct (float_add_exact p M (units p (weight_of t)) (sum_of_tree_weights sd)
              (weight_of t) Hw Hval ltac:(lia)) as [Hadd Hwg].
  destruct (insert_exact p M (units p (weight_of t)) (topology_hash_map tc)
              (topology_key t) (weight_of t) Ht HM Hval ltac:(lia)) as [Htop Htg].
  destruct (foldl_count_edge t (tree_edges t) sd) as (_ & Htot & Hsum & Hroot).
  assert (Heq : summarize (count_splits_on_tree t sd)
                  (if calc then TopologyCounter_count t tc else tc)
                = summary_merge (summarize sd tc) (tree_summary calc t)).
  { unfold summarize, summary_merge, tree_summary, count_splits_on_tree.
    cbn [s_counts s_weight s_total s_rootings s_topologies
         split_counts sum_of_tree_weights total_trees_counted
         tree_rooting_types_counted].
    rewrite Hcounts, Htot, Hsum, Hroot, Hadd. f_equal.
    destruct calc.
    - unfold TopologyCounter_count. cbn [topology_hash_map]. exact Htop.
    - by rewrite madd_empty_r. }
  split; [exact Heq|].
  rewrite <- Heq.
  unfold grid_summary, summarize, count_splits_on_tree.
  cbn [s_counts s_weight s_topologies split_counts sum_of_tree_weights].
  split_and!.
  - eapply grid_map_mono; [|exact Hcg]. unfold mass. nia.
  - rewrite Hsum, Hadd. eapply grid_value_mono; [|exact Hwg]. lia.
  - destruct calc.
    + unfold TopologyCounter_count. cbn [topology_hash_map]. rewrite Htop.
      eapply grid_map_mono; [|exact Htg]. lia.
    + eapply grid_map_mono; [|exact Ht]. lia.
Qed.

Lemma grid_summary_unit p : grid_summary p 0 summary_unit.
Proof.
  split_and!; [apply grid_map_empty | by apply grid_value_0 | apply grid_map_empty].
Qed.

(** What a worker has accumulated after counting [ts], when no sum is
    rounded. *)
Lemma count_trees_exact p ts : ∀ w M,
  Forall (λ t, on_grid p (weight_of t)) ts →
  grid_summary p M (worker_summary w) → 0 ≤ M →
  M + total_mass p ts < 2 ^ 53 →
  worker_summary (count_trees ts w)
  = summary_merge (worker_summary w)
      (sum_summaries (tree_summary (calc_tree_probs w)) ts)
  ∧ grid_summary p (M + total_mass p ts) (worker_summary (count_trees ts w)).
Proof.
  induction ts as [|t ts IH]; intros w M Hall Hg HM Hlt.
  - simpl. rewrite summary_merge_unit_r. unfold total_mass. simpl.
    by rewrite Z.add_0_r.
  - apply list.Forall_cons in Hall as [Hon Hall].
    unfold total_mass in *. rewrite zsum_cons in *.
    pose proof (units_nonneg_mass p t Hon) as Hu.
    pose proof (total_mass_nonneg p ts Hall) as Hts. unfold total_mass in Hts.
    destruct (summarize_count_tree_exact p M (calc_tree_probs w) t
                (split_distribution w) (topology_counter w) Hon Hg HM ltac:(lia))
      as [Heq Hg'].
    change (count_trees (t :: ts) w) with (count_trees ts (count_tree t w)).
    assert (Hw : worker_summary (count_tree t w)
                 = summary_merge (worker_summary w)
                     (tree_summary (calc_tree_probs w) t)).
    { unfold worker_summary at 2. rewrite <- Heq. reflexivity. }
    destruct (IH (count_tree t w) (M + mass p t) Hall) as [Heq2 Hg2].
    + rewrite Hw. exact Hg'.
    + lia.
    + lia.
    + split.
      * rewrite Heq2, Hw. cbn [calc_tree_probs count_tree].
        by rewrite sum_summaries_cons, summary_merge_assoc.
      * rewrite Z.add_assoc. exact Hg2.
Qed.

(** The serial loop, when it returns and no sum is rounded. *)
Lemma serial_loop_exact p trees : ∀ off tidx sd tc M tr sd' tc',
  off ≤ tidx →
  Forall (λ t, on_grid p (weight_of t)) trees →
  grid_summary p M (summarize sd tc) → 0 ≤ M →
  M + total_mass p trees < 2 ^ 53 →
  serial_loop off tidx trees sd tc = (tr, Returned (sd', tc')) →
  summarize sd' tc'
  = summary_merge (summarize sd tc) (sum_summaries (tree_summary true) trees).
Proof.
  induction trees as [|t ts IH]; intros off tidx sd tc M tr sd' tc' Hoff Hall Hg HM Hlt Hret.
  - injection Hret as _ <- <-. simpl. by rewrite summary_merge_unit_r.
  - apply list.Forall_cons in Hall as [Hon Hall].
    unfold total_mass in *. rewrite zsum_cons in *.
    pose proof (units_nonneg_mass p t Hon) as Hu.
    pose proof (total_mass_nonneg p ts Hall) as Hts. unfold total_mass in Hts.
    cbn [serial_loop] in Hret.
    assert (E : (off <=? tidx) = true) by (apply Z.leb_le; lia).
    rewrite E in Hret.
    destruct (1 <? size (tree_rooting_types_counted (count_splits_on_tree t sd)))%nat.
    { rewrite mixed_tree_rootings_in_source_error_eq in Hret. discriminate Hret. }
    destruct (summarize_count_tree_exact p M true t sd tc Hon Hg HM ltac:(lia))
      as [Heq Hg'].
    rewrite (IH off (tidx + 1) _ _ (M + mass p t) tr sd' tc' ltac:(lia) Hall
               ltac:(by rewrite Heq) ltac:(lia) ltac:(lia) Hret).
    by rewrite Heq, sum_summaries_cons, summary_merge_assoc.
Qed.

(** The collation of the results of workers none of which has rounded a
    sum. *)
Lemma collated_exact {A} p (g : A → SplitCountingWorker) (mf : A → Z) (l : list A) :
  ∀ sd tc M,
  Forall (λ a, 0 ≤ mf a ∧ grid_summary p (mf a) (worker_summary (g a))) l →
  grid_summary p M (summarize sd tc) → 0 ≤ M →
  M + zsum mf l < 2 ^ 53 →
  summarize
    (foldl update sd (split_distribution <$> (g <$> l)))
    (foldl (λ tc m, update_topology_hash_map m tc) tc
       ((λ w, topology_hash_map (topology_counter w)) <$> (g <$> l)))
  = summary_merge (summarize sd tc) (sum_summaries (worker_summary ∘ g) l).
Proof.
  induction l as [|a l IH]; intros sd tc M Hall Hg HM Hlt.
  - simpl. by rewrite summary_merge_unit_r.
  - apply list.Forall_cons in Hall as [[Ha (Hca & Hwa & Hta)] Hall].
    rewrite zsum_cons in Hlt.
    assert (Hrest : 0 ≤ zsum mf l).
    { apply zsum_nonneg. intros x Hx. rewrite List.Forall_forall in Hall.
      apply list_elem_of_In, Hall in Hx. lia. }
    destruct Hg as (Hc & Hw & Ht).
    cbn [worker_summary summarize s_counts s_weight s_topologies] in *.
    destruct (merge_exact p M (mf a) _ _ Hc Hca HM Ha ltac:(lia)) as [Hmc Hgc].
    destruct (merge_exact p M (mf a) _ _ Ht Hta HM Ha ltac:(lia)) as [Hmt Hgt].
    destruct (float_add_exact p M (mf a) _ _ Hw Hwa ltac:(lia)) as [Hadd Hgw].
    assert (Heq : summarize (update sd (split_distribution (g a)))
                    (update_topology_hash_map
                       (topology_hash_map (topology_counter (g a))) tc)
                  = summary_merge (summarize sd tc) (worker_summary (g a))).
    { unfold summarize, summary_merge, worker_summary, update, update_topology_hash_map,
        merge_counts.
      cbn [s_counts s_weight s_total s_rootings s_topologies
           split_counts sum_of_tree_weights total_trees_counted
           tree_rooting_types_counted topology_hash_map].
      by rewrite Hmc, Hmt, Hadd. }
    rewrite !fmap_cons. simpl foldl.
    rewrite (IH _ _ (M + mf a) Hall); [| |lia|lia].
    + rewrite Heq, sum_summaries_cons, summary_merge_assoc. reflexivity.
    + rewrite Heq. split_and!; done.
Qed.

Lemma core_merge a b : core (summary_merge a b) = summary_merge (core a) (core b).
Proof. unfold core, summary_merge. simpl. f_equal; by rewrite ?madd_empty_l. Qed.

Lemma core_sum_tree_summaries calc ts :
  core (sum_summaries (tree_summary calc) ts) = sum_summaries (tree_summary false) ts.
Proof.
  induction ts as [|t ts IH]; [reflexivity|].
  by rewrite !sum_summaries_cons, core_merge, IH.
Qed.

(** ** Reading trees whose taxa the namespace knows *)

Lemma ns_register_known l ns : l ∈ ns_labels ns → ns_register l ns = ns.
Proof. intros Hl. unfold ns_register. by rewrite bool_decide_eq_true_2. Qed.

Lemma ns_register_keeps l x ns : l ∈ ns_labels ns → l ∈ ns_labels (ns_register x ns).
Proof.
  intros Hl. unfold ns_register. case_bool_decide; [done|].
  simpl. apply elem_of_app. by left.
Qed.

Lemma ns_register_has x ns : x ∈ ns_labels (ns_register x ns).
Proof.
  unfold ns_register. case_bool_decide; [done|].
  simpl. apply elem_of_app. right. by apply list_elem_of_singleton.
Qed.

Lemma register_taxa_known labels : ∀ ns,
  labels ⊆ ns_labels ns → register_taxa ns labels = ns.
Proof.
  induction labels as [|l labels IH]; intros ns Hsub; [done|].
  unfold register_taxa in *. simpl.
  rewrite ns_register_known by (apply Hsub; by left).
  apply IH. intros x Hx. apply Hsub. by right.
Qed.

Lemma register_taxa_keeps labels : ∀ ns l,
  l ∈ ns_labels ns → l ∈ ns_labels (register_taxa ns labels).
Proof.
  induction labels as [|x labels IH]; intros ns l Hl; [done|].
  unfold register_taxa in *. simpl. by apply IH, ns_register_keeps.
Qed.

Lemma register_taxa_has labels : ∀ ns,
  labels ⊆ ns_labels (register_taxa ns labels).
Proof.
  induction labels as [|x labels IH]; intros ns l Hl.
  - by apply elem_of_nil in Hl.
  - apply elem_of_cons in Hl as [-> | Hl].
    + change (register_taxa ns (x :: labels))
        with (register_taxa (ns_register x ns) labels).
      apply register_taxa_keeps, ns_register_has.
    + by apply (IH (ns_register x ns)).
Qed.

Lemma read_tree_known ns t :
  ns_labels (tree_taxon_namespace t) ⊆ ns_labels ns → read_tree ns t = encode_tree ns t.
Proof. intros Hsub. unfold read_tree. by rewrite register_taxa_known. Qed.

Lemma read_trees_known ns ts :
  Forall (λ t, ns_labels (tree_taxon_namespace t) ⊆ ns_labels ns) ts →
  read_trees ns ts = encode_tree ns <$> ts.
Proof.
  induction 1 as [|t ts Ht _ IH]; [done|].
  cbn [read_trees]. rewrite read_tree_known by done.
  cbn [tree_taxon_namespace encode_tree]. by rewrite IH.
Qed.

Lemma namespace_after_known ns ts :
  namespace_after ns (encode_tree ns <$> ts) = ns.
Proof.
  unfold namespace_after. induction ts as [|t ts IH] using rev_ind; [done|].
  by rewrite fmap_app, foldl_app.
Qed.

Lemma read_by_worker_known ns off tasks :
  Forall (λ t, ns_labels (tree_taxon_namespace t) ⊆ ns_labels ns)
         (yield_from_files tasks) →
  read_by_worker ns off tasks = encode_tree ns <$> counted_by_worker off tasks.
Proof.
  unfold yield_from_files, counted_by_worker.
  induction tasks as [|s tasks IH]; intros Hall; [done|].
  rewrite fmap_cons in Hall. simpl concat in Hall.
  apply Forall_app in Hall as [Hs Hall].
  cbn [read_by_worker]. rewrite read_trees_known by done.
  rewrite namespace_after_known, IH by done.
  rewrite fmap_cons. simpl concat. by rewrite fmap_app, fmap_drop.
Qed.

Lemma counted_by_worker_all off tasks :
  off ≤ 0 → counted_by_worker off tasks = yield_from_files tasks.
Proof.
  intros Hoff. unfold counted_by_worker, yield_from_files.
  replace (Z.to_nat off) with 0%nat by lia.
  reflexivity.
Qed.

Lemma mass_encode_tree p ns t : mass p (encode_tree ns t) = mass p t.
Proof. unfold mass. cbn [tree_edges encode_tree]. by rewrite length_fmap. Qed.

Lemma total_mass_encode p ns ts : total_mass p (encode_tree ns <$> ts) = total_mass p ts.
Proof.
  unfold total_mass. rewrite zsum_fmap. apply zsum_ext.
  intros t _. apply mass_encode_tree.
Qed.

Lemma on_grid_encode p ns ts :
  Forall (λ t, on_grid p (weight_of t)) ts →
  Forall (λ t, on_grid p (weight_of t)) (encode_tree ns <$> ts).
Proof. intros Hall. apply Forall_fmap. exact Hall. Qed.

Lemma yield_from_files_Permutation l1 l2 :
  Permutation l1 l2 → Permutation (yield_from_files l1) (yield_from_files l2).
Proof. intros Hp. unfold yield_from_files. by rewrite Hp. Qed.

Lemma yield_from_files_concat (ls : list (list Source)) :
  yield_from_files (concat ls) = concat (yield_from_files <$> ls).
Proof.
  unfold yield_from_files. induction ls as [|l ls IH]; [done|].
  simpl concat. by rewrite fmap_app, concat_app, IH.
Qed.

Lemma Forall_concat_inv {A} (P : A → Prop) (ls : list (list A)) :
  Forall P (concat ls) → Forall (Forall P) ls.
Proof.
  induction ls as [|l ls IH]; intros Hall; [constructor|].
  simpl in Hall. apply Forall_app in Hall as [Hl Hls].
  constructor; [done | by apply IH].
Qed.

Lemma zsum_elem_le {A} (f : A → Z) l a :
  (∀ x, x ∈ l → 0 ≤ f x) → a ∈ l → f a ≤ zsum f l.
Proof.
  induction l as [|x l IH]; intros Hf Ha.
  - by apply elem_of_nil in Ha.
  - rewrite zsum_cons.
    assert (0 ≤ f x) by (apply Hf; by left).
    assert (0 ≤ zsum f l) by (apply zsum_nonneg; intros y Hy; apply Hf; by right).
    apply elem_of_cons in Ha as [-> | Ha]; [lia|].
    assert (f a ≤ zsum f l) by (apply IH; [intros y Hy; apply Hf; by right | done]).
    lia.
Qed.

(** What the trees of every worker's tasks inherit from the trees of the
    support files, the tasks being a partition of the files. *)
Lemma trees_of_arrivals (P : Tree → Prop) (arrivals : list (nat * list Source))
    (support_filepaths : list Source) :
  Permutation (concat (snd <$> arrivals)) support_filepaths →
  Forall P (yield_from_files support_filepaths) →
  Forall (λ a, Forall P (yield_from_files (snd a))) arrivals.
Proof.
  intros Hperm Hall.
  apply (Permutation_Forall
           (Permutation_sym (yield_from_files_Permutation _ _ Hperm))) in Hall.
  rewrite yield_from_files_concat in Hall.
  apply Forall_concat_inv in Hall. by rewrite <- list_fmap_compose, Forall_fmap in Hall.
Qed.

Lemma mass_of_arrivals p (arrivals : list (nat * list Source))
    (support_filepaths : list Source) :
  Permutation (concat (snd <$> arrivals)) support_filepaths →
  zsum (λ a, total_mass p (yield_from_files (snd a))) arrivals
  = total_mass p (yield_from_files support_filepaths).
Proof.
  intros Hperm. unfold total_mass.
  rewrite <- (zsum_Permutation _ _ _ (yield_from_files_Permutation _ _ Hperm)).
  by rewrite yield_from_files_concat, zsum_concat, !zsum_fmap.
Qed.

Lemma sum_of_arrivals (F : Tree → Summary) (arrivals : list (nat * list Source))
    (support_filepaths : list Source) :
  Permutation (concat (snd <$> arrivals)) support_filepaths →
  sum_summaries (λ a, sum_summaries F (yield_from_files (snd a))) arrivals
  = sum_summaries F (yield_from_files support_filepaths).
Proof.
  intros Hperm.
  rewrite <- (sum_summaries_Permutation _ _ _ (yield_from_files_Permutation _ _ Hperm)).
  by rewrite yield_from_files_concat, sum_summaries_concat, !sum_summaries_fmap.
Qed.

(** The namespace the serial pass has built once it has read the first
    tree is the one every worker starts from. *)
Lemma serial_read_known t rest :
  Forall (λ t', ns_labels (tree_taxon_namespace t')
                ⊆ ns_labels (tree_taxon_namespace t)) (t :: rest) →
  read_trees (TaxonNamespace_new []) (t :: rest)
  = encode_tree (TaxonNamespace_new (ns_labels (tree_taxon_namespace t)))
      <$> (t :: rest).
Proof.
  intros Hall.
  assert (HN : ns_labels (tree_taxon_namespace t)
               ⊆ ns_labels (TaxonNamespace_new (ns_labels (tree_taxon_namespace t))))
    by apply register_taxa_has.
  cbn [read_trees].
  change (tree_taxon_namespace (read_tree (TaxonNamespace_new []) t))
    with (TaxonNamespace_new (ns_labels (tree_taxon_namespace t))).
  rewrite read_trees_known.
  - reflexivity.
  - apply list.Forall_cons in Hall as [_ Hall].
    eapply List.Forall_impl; [|exact Hall]. intros t' Ht' l Hl. by apply HN, Ht'.
Qed.

(** ** Merging the workers' results *)

(** C1 (as amended): take a run without burn-in whose first file has a
    tree, every tree of which has its taxa among those of that first tree,
    every tree weight of which is a whole number of units of [2^-p]
    ([p <= 1074], the finest unit of a binary64 float), and the total of
    which (each weight once for each edge of its tree and once more) stays
    below [2^53] units, so that no floating-point sum is rounded.  If the support files are partitioned among the workers in any
    way, the results arriving in any order, and the serial pass over the same
    files returns, then [process_sources_parallel] returns too, with the same
    count for every split, the same total weight, the same number of trees
    and the same rooting types as the serial pass and, when tree
    probabilities are computed, the same count for every topology. *)
Theorem parallel_merge_agrees_with_serial (p : nat) (num_processes : Z)
    (support_filepaths : list Source) (calc_tree_probs : bool) (tree_offset : Z)
    (arrivals : list (nat * list Source)) (stdin : Source)
    (tr : list event) (sd : SplitDistribution) (tc : TopologyCounter) :
  (p ≤ 1074)%nat →
  tree_offset ≤ 0 →
  (∃ f fs t ts, support_filepaths = f :: fs ∧ src_trees f = t :: ts
     ∧ Forall (λ t', ns_labels (tree_taxon_namespace t')
                     ⊆ ns_labels (tree_taxon_namespace t))
              (yield_from_files support_filepaths)) →
  Forall (λ t, on_grid p (weight_of t)) (yield_from_files support_filepaths) →
  total_mass p (yield_from_files support_filepaths) < 2 ^ 53 →
  length arrivals = Z.to_nat num_processes →
  Forall (λ a, (fst a < Z.to_nat num_processes)%nat) arrivals →
  Permutation (concat (snd <$> arrivals)) support_filepaths →
  process_sources_serial stdin (Some support_filepaths) tree_offset
  = (tr, Returned (sd, tc)) →
  ∃ tr' sd' tc',
    process_sources_parallel num_processes support_filepaths calc_tree_probs
      tree_offset arrivals
    = (tr', Returned (sd', tc'))
    ∧ split_counts sd' = split_counts sd
    ∧ sum_of_tree_weights sd' = sum_of_tree_weights sd
    ∧ total_trees_counted sd' = total_trees_counted sd
    ∧ tree_rooting_types_counted sd' = tree_rooting_types_counted sd
    ∧ (calc_tree_probs = true → topology_hash_map tc' = topology_hash_map tc).
Proof.
  intros _ Hoff (f & fs & t & ts & -> & Hf & Hlabels) Hgrid Hmass Hlen Hall Hperm
    Hserial.
  set (labels := ns_labels (tree_taxon_namespace t)) in *.
  set (N := TaxonNamespace_new labels).
  assert (HN : labels ⊆ ns_labels N) by apply register_taxa_has.
  assert (Hknown : Forall (λ t', ns_labels (tree_taxon_namespace t') ⊆ ns_labels N)
                     (yield_from_files (f :: fs))).
  { eapply List.Forall_impl; [|exact Hlabels]. intros t' Ht' l Hl. by apply HN, Ht'. }
  pose proof (total_mass_nonneg p _ Hgrid) as Hpos.
  (* the serial side *)
  assert (Hs : summarize sd tc
               = sum_summaries (tree_summary true)
                   (encode_tree N <$> yield_from_files (f :: fs))).
  { unfold process_sources_serial in Hserial. cbv zeta in Hserial.
    assert (Hfirst : yield_from_files (f :: fs) = t :: (ts ++ yield_from_files fs)).
    { unfold yield_from_files. rewrite fmap_cons. simpl concat. by rewrite Hf. }
    rewrite Hfirst in Hserial, Hlabels. rewrite serial_read_known in Hserial by done.
    rewrite <- Hfirst in Hserial. fold labels in Hserial. fold N in Hserial.
    rewrite (serial_loop_exact p _ tree_offset 0
               (SplitDistribution_new (TaxonNamespace_new [])) TopologyCounter_new 0
               tr sd tc Hoff (on_grid_encode p N _ Hgrid)
               (grid_summary_unit p) ltac:(lia)
               ltac:(rewrite total_mass_encode; lia) Hserial).
    apply summary_merge_unit_l. }
  (* the workers *)
  pose proof (trees_of_arrivals _ _ _ Hperm Hknown) as Hak.
  pose proof (trees_of_arrivals _ _ _ Hperm Hgrid) as Hag.
  pose proof (mass_of_arrivals p _ _ Hperm) as Ham.
  set (mf := λ a : nat * list Source, total_mass p (yield_from_files (snd a))) in *.
  assert (Hmf : ∀ a, a ∈ arrivals → 0 ≤ mf a ≤ total_mass p (yield_from_files (f :: fs))).
  { intros a Ha. rewrite <- Ham.
    assert (Hall0 : ∀ x, x ∈ arrivals → 0 ≤ mf x).
    { intros x Hx. apply total_mass_nonneg.
      rewrite List.Forall_forall in Hag. by apply Hag, list_elem_of_In. }
    split; [by apply Hall0 | by apply zsum_elem_le]. }
  assert (Hworker : ∀ a, a ∈ arrivals →
            worker_summary (finished_worker labels calc_tree_probs tree_offset a)
            = sum_summaries (tree_summary calc_tree_probs ∘ encode_tree N)
                (yield_from_files (snd a))
            ∧ grid_summary p (mf a)
                (worker_summary (finished_worker labels calc_tree_probs tree_offset a))).
  { intros a Ha.
    assert (Hka : Forall (λ t', ns_labels (tree_taxon_namespace t') ⊆ ns_labels N)
                    (yield_from_files (snd a))).
    { rewrite List.Forall_forall in Hak. by apply Hak, list_elem_of_In. }
    assert (Hga : Forall (λ t, on_grid p (weight_of t)) (yield_from_files (snd a))).
    { rewrite List.Forall_forall in Hag. by apply Hag, list_elem_of_In. }
    unfold finished_worker. fold N.
    rewrite read_by_worker_known, counted_by_worker_all by done.
    destruct (count_trees_exact p (encode_tree N <$> yield_from_files (snd a))
                (SplitCountingWorker_init labels calc_tree_probs tree_offset (fst a)) 0
                (on_grid_encode p N _ Hga) (grid_summary_unit p) ltac:(lia))
      as [Heq Hg].
    { rewrite total_mass_encode. specialize (Hmf a Ha). unfold mf in Hmf. lia. }
    rewrite total_mass_encode, Z.add_0_l in Hg. split; [|exact Hg].
    rewrite Heq, sum_summaries_fmap. apply summary_merge_unit_l. }
  pose proof (process_sources_parallel_result num_processes f fs t ts calc_tree_probs
                tree_offset arrivals Hf Hlen Hall) as Hres.
  fold labels in Hres.
  set (sd' := foldl update _ _) in Hres.
  set (tc' := foldl (λ tc m, update_topology_hash_map m tc) _ _) in Hres.
  assert (Hp : summarize sd' tc'
               = sum_summaries (tree_summary calc_tree_probs)
                   (encode_tree N <$> yield_from_files (f :: fs))).
  { unfold sd', tc'.
    rewrite (collated_exact p (finished_worker labels calc_tree_probs tree_offset)
               mf arrivals _ _ 0).
    - change (summarize (SplitDistribution_new (tree_taxon_namespace t))
                TopologyCounter_new) with summary_unit.
      rewrite summary_merge_unit_l, sum_summaries_fmap.
      rewrite <- (sum_of_arrivals _ _ _ Hperm).
      apply sum_summaries_ext. intros a Ha. by apply Hworker.
    - apply List.Forall_forall. intros a Ha%list_elem_of_In.
      split; [by apply Hmf | by apply Hworker].
    - apply grid_summary_unit.
    - lia.
    - rewrite Ham. lia. }
  assert (Hcore : core (summarize sd' tc') = core (summarize sd tc)).
  { by rewrite Hp, Hs, !core_sum_tree_summaries. }
  eexists _, sd', tc'. split; [exact Hres|].
  split_and!.
  - exact (f_equal s_counts Hcore).
  - exact (f_equal s_weight Hcore).
  - exact (f_equal s_total Hcore).
  - exact (f_equal s_rootings Hcore).
  - intros ->. exact (f_equal s_topologies (eq_trans Hp (eq_sym Hs))).
Qed.

Lemma returned_observed {A B} (a : action A) (g : A → B) (b : B) :
  g <$> returned a = Some b → ∃ x, returned a = Some x ∧ g x = b.
Proof.
  destruct (returned a) as [x|]; [|discriminate].
  intros [= <-]. by exists x.
Qed.

(** C1 (counterexample): the parallel pass does not agree with the serial
    pass on every partition.  (1) Floating-point sums are rounded: with
    three files of one tree each, weighted 0.1, 0.2 and 0.3, the serial pass
    ends with the total weight 0.6000000000000001 and the workers' results
    merged in the order second, third, first with 0.6; the count of the
    split ab and of the topology differ likewise, and so do two orders of
    arrival from each other.  (2) A taxon the first tree does not have gets
    its bit in each worker's own namespace: with the files r.tre, e.tre and
    f.tre the serial pass counts the split of f under the key 32, and no
    merged result has that key.  (3) With a burn-in of one tree the serial
    pass over a.tre and b.tre counts three trees and the workers count two.
    (4) With an empty first file the serial pass returns and the parallel
    pass does not.  (5) With a rooted and an unrooted file the parallel
    pass returns and the serial pass does not. *)
Lemma parallel_merge_differs_from_serial :
  (∃ sd tc sd' tc' sd'' tc'',
     returned (process_sources_serial Samples.no_stdin
                 (Some [Samples.file_tenth; Samples.file_fifth;
                        Samples.file_three_tenths]) 0)
     = Some (sd, tc)
     ∧ returned (process_sources_parallel 3
                   [Samples.file_tenth; Samples.file_fifth; Samples.file_three_tenths]
                   true 0
                   [(1%nat, [Samples.file_fifth]); (2%nat, [Samples.file_three_tenths]);
                    (0%nat, [Samples.file_tenth])])
       = Some (sd', tc')
     ∧ returned (process_sources_parallel 3
                   [Samples.file_tenth; Samples.file_fifth; Samples.file_three_tenths]
                   true 0
                   [(0%nat, [Samples.file_tenth]); (1%nat, [Samples.file_fifth]);
                    (2%nat, [Samples.file_three_tenths])])
       = Some (sd'', tc'')
     ∧ this (sum_of_tree_weights sd) = 1351079888211149 # 2251799813685248
     ∧ this (sum_of_tree_weights sd') = 5404319552844595 # 9007199254740992
     ∧ sum_of_tree_weights sd' ≠ sum_of_tree_weights sd
     ∧ split_counts sd' ≠ split_counts sd
     ∧ topology_hash_map tc' ≠ topology_hash_map tc
     ∧ sum_of_tree_weights sd' ≠ sum_of_tree_weights sd'')
  ∧ (∃ sd tc sd' tc',
       returned (process_sources_serial Samples.no_stdin
                   (Some [Samples.file_rooted; Samples.file_e; Samples.file_f]) 0)
       = Some (sd, tc)
       ∧ returned (process_sources_parallel 3
                     [Samples.file_rooted; Samples.file_e; Samples.file_f] true 0
                     [(0%nat, [Samples.file_rooted]); (1%nat, [Samples.file_e]);
                      (2%nat, [Samples.file_f])])
         = Some (sd', tc')
       ∧ is_Some (split_counts sd !! 32)
       ∧ split_counts sd' !! 32 = None)
  ∧ (∃ sd tc sd' tc',
       returned (process_sources_serial Samples.no_stdin
                   (Some [Samples.file_a; Samples.file_b]) 1)
       = Some (sd, tc)
       ∧ returned (process_sources_parallel 2 [Samples.file_a; Samples.file_b] true 1
                     [(0%nat, [Samples.file_a]); (1%nat, [Samples.file_b])])
         = Some (sd', tc')
       ∧ total_trees_counted sd = 3
       ∧ total_trees_counted sd' = 2)
  ∧ (is_Some (returned (process_sources_serial Samples.no_stdin
                          (Some [Samples.file_empty; Samples.file_a]) 0))
     ∧ returned (process_sources_parallel 2 [Samples.file_empty; Samples.file_a] true 0
                   [(0%nat, [Samples.file_empty]); (1%nat, [Samples.file_a])])
       = None)
  ∧ (returned (process_sources_serial Samples.no_stdin
                 (Some [Samples.file_rooted; Samples.file_a]) 0)
     = None
     ∧ is_Some (returned (process_sources_parallel 2
                            [Samples.file_rooted; Samples.file_a] true 0
                            [(0%nat, [Samples.file_rooted]); (1%nat, [Samples.file_a])]))).
Proof.
  split_and!.
  - destruct (returned_observed
                (process_sources_serial Samples.no_stdin
                   (Some [Samples.file_tenth; Samples.file_fifth;
                          Samples.file_three_tenths]) 0)
                (λ r, (this (sum_of_tree_weights r.1),
                       this <$> split_counts r.1 !! 3,
                       this <$> topology_hash_map r.2 !! {[ 3 ]}))
                (1351079888211149 # 2251799813685248,
                 Some (1351079888211149 # 2251799813685248),
                 Some (1351079888211149 # 2251799813685248)))
      as ([sd tc] & Hs & Hsv); [vm_compute; reflexivity|].
    destruct (returned_observed
                (process_sources_parallel 3
                   [Samples.file_tenth; Samples.file_fifth; Samples.file_three_tenths]
                   true 0
                   [(1%nat, [Samples.file_fifth]); (2%nat, [Samples.file_three_tenths]);
                    (0%nat, [Samples.file_tenth])])
                (λ r, (this (sum_of_tree_weights r.1),
                       this <$> split_counts r.1 !! 3,
                       this <$> topology_hash_map r.2 !! {[ 3 ]}))
                (5404319552844595 # 9007199254740992,
                 Some (5404319552844595 # 9007199254740992),
                 Some (5404319552844595 # 9007199254740992)))
      as ([sd' tc'] & Hp & Hpv); [vm_compute; reflexivity|].
    destruct (returned_observed
                (process_sources_parallel 3
                   [Samples.file_tenth; Samples.file_fifth; Samples.file_three_tenths]
                   true 0
                   [(0%nat, [Samples.file_tenth]); (1%nat, [Samples.file_fifth]);
                    (2%nat, [Samples.file_three_tenths])])
                (λ r, this (sum_of_tree_weights r.1))
                (1351079888211149 # 2251799813685248))
      as ([sd'' tc''] & Hq & Hqv); [vm_compute; reflexivity|].
    cbn [fst snd] in Hsv, Hpv, Hqv.
    injection Hsv as Hs1 Hs2 Hs3. injection Hpv as Hp1 Hp2 Hp3.
    exists sd, tc, sd', tc', sd'', tc''.
    split_and!; try done.
    + intros Heq. rewrite Heq, Hs1 in Hp1. discriminate Hp1.
    + intros Heq. rewrite Heq, Hs2 in Hp2. discriminate Hp2.
    + intros Heq. rewrite Heq, Hs3 in Hp3. discriminate Hp3.
    + intros Heq. rewrite Heq, Hqv in Hp1. discriminate Hp1.
  - destruct (returned_observed
                (process_sources_serial Samples.no_stdin
                   (Some [Samples.file_rooted; Samples.file_e; Samples.file_f]) 0)
                (λ r, this <$> split_counts r.1 !! 32) (Some (1 # 1)))
      as ([sd tc] & Hs & Hsv); [vm_compute; reflexivity|].
    destruct (returned_observed
                (process_sources_parallel 3
                   [Samples.file_rooted; Samples.file_e; Samples.file_f] true 0
                   [(0%nat, [Samples.file_rooted]); (1%nat, [Samples.file_e]);
                    (2%nat, [Samples.file_f])])
                (λ r, this <$> split_counts r.1 !! 32) None)
      as ([sd' tc'] & Hp & Hpv); [vm_compute; reflexivity|].
    cbn [fst] in Hsv, Hpv.
    exists sd, tc, sd', tc'. split_and!; try done.
    + destruct (split_counts sd !! 32); [by eexists | discriminate Hsv].
    + by destruct (split_counts sd' !! 32).
  - destruct (returned_observed
                (process_sources_serial Samples.no_stdin
                   (Some [Samples.file_a; Samples.file_b]) 1)
                (λ r, total_trees_counted r.1) 3)
      as ([sd tc] & Hs & Hsv); [vm_compute; reflexivity|].
    destruct (returned_observed
                (process_sources_parallel 2 [Samples.file_a; Samples.file_b] true 1
                   [(0%nat, [Samples.file_a]); (1%nat, [Samples.file_b])])
                (λ r, total_trees_counted r.1) 2)
      as ([sd' tc'] & Hp & Hpv); [vm_compute; reflexivity|].
    by exists sd, tc, sd', tc'.
  - destruct (returned_observed
                (process_sources_serial Samples.no_stdin
                   (Some [Samples.file_empty; Samples.file_a]) 0)
                (λ r, total_trees_counted r.1) 2)
      as (r & Hs & _); [vm_compute; reflexivity|].
    rewrite Hs. by eexists.
  - reflexivity.
  - vm_compute. reflexivity.
  - destruct (returned_observed
                (process_sources_parallel 2 [Samples.file_rooted; Samples.file_a] true 0
                   [(0%nat, [Samples.file_rooted]); (1%nat, [Samples.file_a])])
                (λ r, total_trees_counted r.1) 3)
      as (r & Hp & _); [vm_compute; reflexivity|].
    rewrite Hp. by eexists.
Qed.

Lemma parallel_merge_agrees_with_serial_witness :
  ∃ tr' sd' tc',
    process_sources_parallel 2 [Samples.file_a; Samples.file_b] true 0
      [(1%nat, [Samples.file_b]); (0%nat, [Samples.file_a])]
    = (tr', Returned (sd', tc'))
    ∧ split_counts sd' = split_counts Samples.serial_distribution
    ∧ sum_of_tree_weights sd' = sum_of_tree_weights Samples.serial_distribution
    ∧ total_trees_counted sd' = total_trees_counted Samples.serial_distribution
    ∧ tree_rooting_types_counted sd'
      = tree_rooting_types_counted Samples.serial_distribution
    ∧ (true = true →
       topology_hash_map tc' = topology_hash_map Samples.serial_topologies).
Proof.
  apply (parallel_merge_agrees_with_serial 0 2 [Samples.file_a; Samples.file_b] true 0
           [(1%nat, [Samples.file_b]); (0%nat, [Samples.file_a])]
           Samples.no_stdin [] Samples.serial_distribution Samples.serial_topologies).
  - lia.
  - discriminate.
  - exists Samples.file_a, [Samples.file_b],
           Samples.unrooted_ab, [Samples.unrooted_ac].
    split; [reflexivity|]. split; [reflexivity|].
    repeat (apply List.Forall_cons; [intros l Hl; exact Hl|]). apply List.Forall_nil.
  - repeat (apply List.Forall_cons;
            [split; [discriminate | apply Qc_is_canon; reflexivity]|]).
    apply List.Forall_nil.
  - reflexivity.
  - reflexivity.
  - repeat constructor.
  - apply perm_swap.
  - vm_compute. reflexivity.
Defined.

(** * Further properties of the driver *)

Import Preflight.

(** ** The check of the support files *)

Section PathChecks.

Variable expand : string → string.
Variable path_exists : string → bool.

Lemma check_support_args_ignoring args : ∀ acc,
  check_support_args expand path_exists true args acc
  = (missing_warnings expand path_exists args,
     Returned (acc ++ filter (λ p, path_exists p = true) (expand <$> args))).
Proof.
  unfold missing_warnings.
  induction args as [|a args IH]; intros acc; cbn [check_support_args].
  - by rewrite app_nil_r.
  - rewrite !fmap_cons. destruct (path_exists (expand a)) eqn:E; cbn [negb].
    + rewrite IH, !filter_cons, E.
      repeat case_decide; try done. by rewrite <- app_assoc.
    + rewrite IH, !filter_cons, E.
      repeat case_decide; done.
Qed.

Lemma check_support_args_strict args : ∀ acc,
  check_support_args expand path_exists false args acc
  = if bool_decide (Forall (λ p, path_exists p = true) (expand <$> args))
    then ([], Returned (acc ++ (expand <$> args)))
    else ([Error missing_support_message], Exited 1).
Proof.
  induction args as [|a args IH]; intros acc; cbn [check_support_args].
  - rewrite bool_decide_eq_true_2 by constructor. by rewrite app_nil_r.
  - rewrite fmap_cons. destruct (path_exists (expand a)) eqn:E; cbn [negb].
    + rewrite IH. case_bool_decide as H1.
      * rewrite bool_decide_eq_true_2 by (by constructor).
        by rewrite <- app_assoc.
      * rewrite bool_decide_eq_false_2; [done|].
        intros H2. apply H1. by inversion H2.
    + rewrite bool_decide_eq_false_2; [done|].
      intros H2. inversion H2; congruence.
Qed.

Lemma filter_all_exist (l : list string) :
  Forall (λ p, path_exists p = true) l →
  filter (λ p, path_exists p = true) l = l
  ∧ filter (λ p, path_exists p = false) l = [].
Proof.
  induction 1 as [|p l Hp _ [IH1 IH2]]; [done|].
  rewrite !filter_cons, Hp, IH1, IH2.
  repeat case_decide; done.
Qed.

Lemma check_support_files_ignoring from_newick_stream from_nexus_stream args :
  args ≠ [] →
  check_support_files expand path_exists true from_newick_stream from_nexus_stream args
  = match filter (λ p, path_exists p = true) (expand <$> args) with
    | [] => (missing_warnings expand path_exists args
               ++ [Error no_valid_sources_message], Exited 1)
    | sf => (missing_warnings expand path_exists args, Returned sf)
    end.
Proof.
  intros Hne. unfold check_support_files.
  destruct args as [|a args]; [done|].
  change (0 <? length (a :: args))%nat with true. cbv iota.
  rewrite check_support_args_ignoring, app_nil_l.
  unfold mbind, action_bind.
  destruct (filter _ _) as [|p sf]; simpl; [done|].
  by rewrite app_nil_r.
Qed.

Lemma check_support_files_strict from_newick_stream from_nexus_stream args :
  args ≠ [] →
  check_support_files expand path_exists false from_newick_stream from_nexus_stream args
  = if bool_decide (Forall (λ p, path_exists p = true) (expand <$> args))
    then ([], Returned (expand <$> args))
    else ([Error missing_support_message], Exited 1).
Proof.
  intros Hne. unfold check_support_files.
  destruct args as [|a args]; [done|].
  change (0 <? length (a :: args))%nat with true. cbv iota.
  rewrite check_support_args_strict, app_nil_l.
  case_bool_decide; [|done].
  unfold mbind, action_bind. rewrite fmap_cons. reflexivity.
Qed.

(** X1: whenever the check of the support files lets the run go on, the
    list it hands on holds exactly the arguments that exist, expanded,
    in the order given; it is not empty when arguments were given; one
    warning was logged for every missing argument and nothing else; and
    without [--ignore-missing-support] it is the whole argument list. *)
Theorem support_files_handed_on (ignore_missing_support from_newick_stream
    from_nexus_stream : bool) (args : list string) (tr : list event)
    (support_filepaths : list string) :
  check_support_files expand path_exists ignore_missing_support
    from_newick_stream from_nexus_stream args = (tr, Returned support_filepaths) →
  support_filepaths = filter (λ p, path_exists p = true) (expand <$> args)
  ∧ (args ≠ [] → support_filepaths ≠ [])
  ∧ tr = missing_warnings expand path_exists args
  ∧ (ignore_missing_support = false →
     support_filepaths = expand <$> args ∧ tr = []).
Proof.
  destruct args as [|a args].
  { unfold check_support_files. simpl.
    destruct (negb from_newick_stream && negb from_nexus_stream);
      intros [= <- <-]; done. }
  destruct ignore_missing_support.
  - rewrite check_support_files_ignoring by done.
    destruct (filter _ _) as [|p sf]; [intros [=]|].
    intros [= <- <-]. done.
  - rewrite check_support_files_strict by done.
    case_bool_decide as Hall; [|intros [=]].
    intros [= <- <-]. destruct (filter_all_exist _ Hall) as [Hf1 Hf2].
    unfold missing_warnings. rewrite Hf1, Hf2. done.
Qed.

(** X2: with file arguments given, what ends the run at the check.
    Without [--ignore-missing-support], one missing file does, with a
    single error and exit code 1, however many files exist.  With it, each
    missing file is warned about and the run ends (exit code 1) only when
    none of the files exists. *)
Theorem support_files_exit (from_newick_stream from_nexus_stream : bool)
    (args : list string) :
  args ≠ [] →
  ((∃ a, a ∈ args ∧ path_exists (expand a) = false) →
   check_support_files expand path_exists false from_newick_stream
     from_nexus_stream args
   = ([Error missing_support_message], Exited 1))
  ∧ ((∀ a, a ∈ args → path_exists (expand a) = false) →
     check_support_files expand path_exists true from_newick_stream
       from_nexus_stream args
     = (((λ a, Warning (support_not_found_message (expand a))) <$> args)
          ++ [Error no_valid_sources_message], Exited 1))
  ∧ ((∃ a, a ∈ args ∧ path_exists (expand a) = true) →
     ∃ tr sf, check_support_files expand path_exists true from_newick_stream
                from_nexus_stream args = (tr, Returned sf)).
Proof.
  intros Hne. split_and!.
  - intros (a & Ha & Hmiss). rewrite check_support_files_strict by done.
    rewrite bool_decide_eq_false_2; [done|].
    intros Hall. rewrite Forall_fmap, Forall_forall in Hall.
    apply list_elem_of_In in Ha.
    specialize (Hall a Ha). simpl in Hall. congruence.
  - intros Hnone. rewrite check_support_files_ignoring by done.
    assert (Hf : filter (λ p, path_exists p = true) (expand <$> args) = []
                 ∧ filter (λ p, path_exists p = false) (expand <$> args)
                   = expand <$> args).
    { clear Hne. induction args as [|a l IH]; [done|].
      rewrite fmap_cons, !filter_cons, (Hnone a) by (by left).
      destruct IH as [-> ->]; [intros b Hb; apply Hnone; by right|].
      repeat case_decide; done. }
    destruct Hf as [Hf1 Hf2]. rewrite Hf1. unfold missing_warnings.
    by rewrite Hf2, <- list_fmap_compose.
  - intros (a & Ha & Hex). rewrite check_support_files_ignoring by done.
    destruct (filter _ _) as [|p sf] eqn:Hf; [|by eexists _, _].
    assert (Hin : expand a ∈ filter (λ p, path_exists p = true) (expand <$> args)).
    { apply list_elem_of_filter. split; [done|]. by apply list_elem_of_fmap_2. }
    rewrite Hf in Hin. by apply elem_of_nil in Hin.
Qed.

End PathChecks.

Lemma support_files_handed_on_witness :
  ["a.tre"; "c.tre"]%string
  = filter (λ p, negb (String.eqb p "b.tre") = true)
      (id <$> ["a.tre"; "b.tre"; "c.tre"]%string)
  ∧ (["a.tre"; "b.tre"; "c.tre"]%string ≠ [] → ["a.tre"; "c.tre"]%string ≠ [])
  ∧ [Warning (support_not_found_message "b.tre")]
    = missing_warnings id (λ p, negb (String.eqb p "b.tre"))
        ["a.tre"; "b.tre"; "c.tre"]%string
  ∧ (true = false →
     ["a.tre"; "c.tre"]%string = id <$> ["a.tre"; "b.tre"; "c.tre"]%string
     ∧ [Warning (support_not_found_message "b.tre")] = []).
Proof.
  apply (support_files_handed_on id (λ p, negb (String.eqb p "b.tre"))
           true false false). reflexivity.
Defined.

Lemma support_files_exit_witness :
  check_support_files id (λ p, negb (String.eqb p "b.tre")) false false false
    ["a.tre"; "b.tre"; "c.tre"]%string
  = ([Error missing_support_message], Exited 1)
  ∧ ∃ tr sf, check_support_files id (λ p, negb (String.eqb p "b.tre")) true
               false false ["a.tre"; "b.tre"; "c.tre"]%string
             = (tr, Returned sf).
Proof.
  destruct (support_files_exit id (λ p, negb (String.eqb p "b.tre")) false false
              ["a.tre"; "b.tre"; "c.tre"]%string) as (H1 & _ & H3); [done|].
  split.
  - apply H1. exists "b.tre"%string. split; [|reflexivity].
    apply list_elem_of_further, list_elem_of_here.
  - apply H3. exists "a.tre"%string. split; [|reflexivity].
    apply list_elem_of_here.
Defined.

(** ** The reconciliation of the source options *)

(** X3: after the reconciliation, whether node ages are calculated is
    decided ([calc_node_ages] is no longer [None]); calculating node ages
    implies ultrametric trees, and ultrametric trees imply rooted trees, so
    that in both cases the parser is told [force-rooted], also when
    [--unrooted] was given. *)
Theorem reconciled_options_consistent (opts : SourceOptions) :
  calc_node_ages (reconcile_options opts) ≠ None
  ∧ (calc_node_ages (reconcile_options opts) = Some true →
     ultrametric_trees (reconcile_options opts) = true)
  ∧ (ultrametric_trees (reconcile_options opts) = true →
     rooted_trees (reconcile_options opts) = Some true
     ∧ rooting_interpretation (reconcile_options opts) = "force-rooted"%string)
  ∧ (ignore_node_ages (reconcile_options opts) = false →
     rooting_interpretation (reconcile_options opts) = "force-rooted"%string).
Proof.
  destruct opts as [e u r c]. unfold reconcile_options. simpl.
  destruct (is_age_summarization e), u, c as [[]|]; simpl; split_and!;
    try done; intros; try done.
Qed.

Lemma reconciled_options_consistent_witness :
  rooting_interpretation
    (reconcile_options (mkSourceOptions None true (Some false) None))
  = "force-rooted"%string.
Proof.
  apply (reconciled_options_consistent
           (mkSourceOptions None true (Some false) None)).
  reflexivity.
Defined.

(** X4: the parser is told [force-rooted] exactly when an age summarization
    is asked for, [--ultrametric] is given or node ages are to be
    calculated; otherwise the reconciliation leaves the rooting option as
    the user gave it. *)
Theorem reconciled_rooting (opts : SourceOptions) :
  rooting_interpretation (reconcile_options opts)
  = if is_age_summarization (edge_summarization opts)
       || ultrametric_trees opts
       || bool_decide (calc_node_ages opts = Some true)
    then "force-rooted"%string
    else rooting_interpretation opts.
Proof.
  destruct opts as [e u r c]. unfold reconcile_options. simpl.
  destruct (is_age_summarization e), u, c as [[]|]; reflexivity.
Qed.

(** X5: [--no-node-ages] is final: when [calc_node_ages] is [False] before
    the reconciliation it is [False] after it, whatever the other options,
    and the counting is told to ignore node ages. *)
Theorem no_node_ages_is_final (opts : SourceOptions) :
  calc_node_ages opts = Some false →
  calc_node_ages (reconcile_options opts) = Some false
  ∧ ignore_node_ages (reconcile_options opts) = true.
Proof.
  destruct opts as [e u r c]. simpl. intros ->. unfold reconcile_options. simpl.
  destruct (is_age_summarization e), u; done.
Qed.

Lemma no_node_ages_is_final_witness :
  calc_node_ages
    (reconcile_options
       (mkSourceOptions (Some "mean-age"%string) true None (Some false)))
  = Some false
  ∧ ignore_node_ages
      (reconcile_options
         (mkSourceOptions (Some "mean-age"%string) true None (Some false)))
    = true.
Proof.
  apply (no_node_ages_is_final
           (mkSourceOptions (Some "mean-age"%string) true None (Some false))).
  reflexivity.
Defined.

(** X6: reconciling twice is reconciling once. *)
Theorem reconcile_options_idempotent (opts : SourceOptions) :
  reconcile_options (reconcile_options opts) = reconcile_options opts.
Proof.
  destruct opts as [e u r c]. unfold reconcile_options. simpl.
  destruct (is_age_summarization e) eqn:E, u, c as [[]|]; simpl;
    rewrite ?E; reflexivity.
Qed.

(** ** The edge-length plan *)

Lemma choice_cases (e : string) :
  e ∈ edge_summarization_choices →
  e = "mean-length"%string ∨ e = "median-length"%string ∨ e = "mean-age"%string
  ∨ e = "median-age"%string ∨ e = "keep"%string ∨ e = "unweighted"%string.
Proof.
  unfold edge_summarization_choices. rewrite !elem_of_cons, elem_of_nil. tauto.
Qed.

(** X7: when the check of [-e] lets a value through, the value is one of
    the six choices, and the plan for the output trees is the one its name
    says: the summary is the mean for the [mean-] choices and the median for
    the [median-] ones, it is taken over node ages for the [-age] choices
    and over edge lengths for the [-length] ones, [keep] leaves the lengths
    alone and [unweighted] unsets them. *)
Theorem validated_choice_plan (lower : string → string) (opts opts' : SourceOptions)
    (tr : list event) (e : string) (collapse : bool) :
  validate_edge_summarization lower opts = (tr, Returned opts') →
  edge_summarization opts' = Some e → e ≠ ""%string →
  e ∈ edge_summarization_choices
  ∧ plan_edges (Some e) collapse
    = (if String.eqb e "unweighted" then UnsetEdgeLengths
       else if String.eqb e "keep" then KeepEdgeLengths
       else if String.eqb e "mean-age"
            then SummarizeNodeAges "mean" collapse (negb collapse)
       else if String.eqb e "median-age"
            then SummarizeNodeAges "median" collapse (negb collapse)
       else if String.eqb e "mean-length" then SummarizeEdgeLengths "mean"
       else SummarizeEdgeLengths "median").
Proof.
  unfold validate_edge_summarization. intros Hv He Hne.
  assert (Hin : e ∈ edge_summarization_choices).
  { destruct (edge_summarization opts) as [s|] eqn:Hs.
    - destruct (String.eqb s "") eqn:Hempty.
      + injection Hv as _ <-. rewrite Hs in He. injection He as <-.
        apply String.eqb_eq in Hempty. done.
      + case_bool_decide as Hc; [|discriminate Hv].
        injection Hv as _ <-. simpl in He. by injection He as <-.
    - injection Hv as _ <-. congruence. }
  split; [exact Hin|].
  destruct (choice_cases e Hin) as [-> | [-> | [-> | [-> | [-> | ->]]]]];
    reflexivity.
Qed.

Lemma validated_choice_plan_witness :
  "median-age"%string ∈ edge_summarization_choices
  ∧ plan_edges (Some "median-age"%string) true
    = SummarizeNodeAges "median" true false.
Proof.
  apply (validated_choice_plan id
           (mkSourceOptions (Some "median-age"%string) false None None)
           (mkSourceOptions (Some "median-age"%string) false None None) []).
  - reflexivity.
  - reflexivity.
  - discriminate.
Defined.

(** X8: with [--no-node-ages] the counting ignores node ages, and yet the
    plan summarizes node ages whenever [-e] is [mean-age] or [median-age],
    or [-e] is not given, no target tree is used and [--ultrametric] is
    given. *)
Theorem node_ages_summarized_though_ignored (opts : SourceOptions)
    (target_given collapse : bool) :
  calc_node_ages opts = Some false →
  (is_age_summarization (edge_summarization opts) = true
   ∨ (edge_summarization opts = None ∧ target_given = false
      ∧ ultrametric_trees opts = true)) →
  ignore_node_ages (reconcile_options opts) = true
  ∧ ∃ summary,
      plan_edges (default_edge_summarization (reconcile_options opts) target_given)
                 collapse
      = SummarizeNodeAges summary collapse (negb collapse).
Proof.
  intros Hc Hcase. split; [by apply no_node_ages_is_final|].
  destruct opts as [e u r c]. simpl in *. subst c.
  destruct Hcase as [Hage | (-> & -> & ->)].
  - unfold reconcile_options. simpl. rewrite Hage.
    unfold default_edge_summarization. simpl.
    destruct e as [s|]; [|discriminate Hage]. simpl in Hage.
    apply orb_true_iff in Hage as [H | H]; apply String.eqb_eq in H; subst s.
    + by exists "mean"%string.
    + by exists "median"%string.
  - by exists "median"%string.
Qed.

Lemma node_ages_summarized_though_ignored_witness :
  ignore_node_ages
    (reconcile_options (mkSourceOptions None true None (Some false))) = true
  ∧ ∃ summary,
      plan_edges
        (default_edge_summarization
           (reconcile_options (mkSourceOptions None true None (Some false))) false)
        false
      = SummarizeNodeAges summary false (negb false).
Proof.
  apply (node_ages_summarized_though_ignored
           (mkSourceOptions None true None (Some false)) false false).
  - reflexivity.
  - right. repeat split.
Defined.

(** ** Rooting the target at midpoint *)

Lemma map_target_trees_at_midpoint_trace root_at_midpoint sd trees : ∀ n,
  Forall (λ e, ∃ t, e = MapSplitSupport t ∨ e = Error target_unrooted_message)
         (fst (map_target_trees_at_midpoint root_at_midpoint sd trees n)).
Proof.
  induction trees as [|t trees IH]; intros n; cbn [map_target_trees_at_midpoint].
  - constructor.
  - destruct (root_at_midpoint t) as [t'| | |]; try constructor.
    unfold mbind at 1. unfold action_bind, lift. cbn [app].
    rewrite check_target_rooting_ignores_support.
    destruct (truth (tree_is_rooted t')).
    + specialize (IH (S n)).
      destruct (map_target_trees_at_midpoint root_at_midpoint sd trees (S n))
        as [tr o].
      assert (Hall : Forall (λ e, ∃ t, e = MapSplitSupport t
                                       ∨ e = Error target_unrooted_message)
                       (MapSplitSupport t' :: tr)).
      { constructor; [|exact IH]. exists t'. by left. }
      unfold mbind, action_bind, mret, action_ret, log.
      destruct o; exact Hall.
    + repeat constructor. exists t'. by right.
Qed.

Lemma construct_consensus_outcome opts :
  ∃ tr, construct_consensus opts = (tr, Returned 1%nat)
        ∧ Forall (λ e, ∃ m, e = TreeFromSplits m ∨ e = Warning clamp_message) tr.
Proof.
  unfold construct_consensus.
  destruct (float_gt (min_clade_freq opts) float_one); eexists; split;
    try reflexivity; repeat constructor.
  - exists float_one. by right.
  - exists float_one. by left.
  - exists (min_clade_freq opts). by left.
Qed.

(** The model of the whole run ends with the phase modelled here, for a run
    without [--root-target-at-midpoint]. *)
Lemma main_cli_report_phase root_at_midpoint opts env support_filepaths :
  main_cli opts env support_filepaths
  = ((if (length support_filepaths =? 0)%nat && negb (from_stream opts)
      then sys_exit 1 else mret tt) ;;
     master ← count_sources opts env support_filepaths;
     (if is_mixed_rootings_counted (fst master)
      then mixed_tree_rootings_in_source_error else mret tt) ;;
     report_phase root_at_midpoint false opts env (fst master)).
Proof.
  unfold main_cli, report_phase, target_phase, write_results.
  destruct (_ && _); [reflexivity|].
  unfold mbind, action_bind, mret, action_ret.
  destruct (count_sources opts env support_filepaths) as [tr [[sd tc]| | |]];
    reflexivity.
Qed.

(** X9: with [--root-target-at-midpoint] the run never writes a result:
    for every distribution, every target file, every threshold and whatever
    the midpoint rooting of a target tree does, the part of [main_cli] from
    the target tree on does not return and performs none of the three
    writes.  Without a target file it builds the consensus tree and then
    ends in the uncaught AttributeError raised by [opts.outgroup]. *)
Theorem root_target_at_midpoint_never_writes (root_at_midpoint : Tree → outcome Tree)
    (opts : Options) (env : Environment)
    (master_split_distribution : SplitDistribution) :
  (∀ u, snd (report_phase root_at_midpoint true opts env master_split_distribution)
        ≠ Returned u)
  ∧ Forall (λ e, (∀ n, e ≠ WriteResultTrees n)
                 ∧ e ≠ WriteTreeProbs ∧ e ≠ WriteSplitEdges)
           (fst (report_phase root_at_midpoint true opts env
                   master_split_distribution))
  ∧ (target_tree_file env = None →
     ∃ tr min_freq,
       report_phase root_at_midpoint true opts env master_split_distribution
       = (tr ++ [TreeFromSplits min_freq], Raised "AttributeError"%string)).
Proof.
  unfold report_phase, target_phase.
  destruct (target_tree_file env) as [trees|].
  - pose proof (map_target_trees_at_midpoint_trace root_at_midpoint
                  master_split_distribution trees 0) as Hall.
    destruct (map_target_trees_at_midpoint root_at_midpoint
                master_split_distribution trees 0) as [tr o].
    cbn [fst] in Hall.
    assert (Hall' : Forall (λ e, (∀ n, e ≠ WriteResultTrees n)
                                 ∧ e ≠ WriteTreeProbs ∧ e ≠ WriteSplitEdges) tr).
    { eapply List.Forall_impl; [|exact Hall]. intros e [t [-> | ->]]; done. }
    split_and!; [| |done]; destruct o; simpl; rewrite ?app_nil_r; done.
  - destruct (construct_consensus_outcome opts) as (tr & Htr & Hall).
    rewrite Htr. simpl. rewrite !app_nil_r. split_and!.
    + done.
    + eapply List.Forall_impl; [|exact Hall]. intros e [m [-> | ->]]; done.
    + intros _. unfold construct_consensus in Htr.
      destruct (float_gt (min_clade_freq opts) float_one);
        injection Htr as <-.
      * by exists [Warning clamp_message], float_one.
      * by exists [], (min_clade_freq opts).
Qed.

Lemma root_target_at_midpoint_never_writes_witness :
  ∃ tr min_freq,
    report_phase Returned true (Samples.options_with_burnin 0)
      Samples.plain_environment (SplitDistribution_new Samples.four_taxa)
    = (tr ++ [TreeFromSplits min_freq], Raised "AttributeError"%string).
Proof.
  apply (root_target_at_midpoint_never_writes Returned
           (Samples.options_with_burnin 0) Samples.plain_environment
           (SplitDistribution_new Samples.four_taxa)).
  reflexivity.
Defined.

(** ** The tree-probability table *)

Lemma annotate_tree_freqs_lookup {T} (tree_freqs : list (T * (Qc * Qc))) :
  ∀ idx c k tp,
    annotate_tree_freqs idx c tree_freqs !! k = Some tp →
    ∃ tree count prop,
      tree_freqs !! k = Some (tree, (count, prop))
      ∧ tp_tree tp = tree ∧ tp_count tp = count ∧ tp_probability tp = prop
      ∧ tp_label tp = (idx + k + 1)%nat
      ∧ tp_cumulative_probability tp
        = (c + sum_Qc ((λ x, snd (snd x)) <$> take (S k) tree_freqs))%Qc.
Proof.
  induction tree_freqs as [|[tree [count prop]] rest IH]; intros idx c k tp Hk.
  - destruct k; discriminate Hk.
  - destruct k as [|k]; cbn [annotate_tree_freqs] in Hk.
    + injection Hk as <-. exists tree, count, prop. simpl.
      split_and!; try done; [lia|]. unfold sum_Qc. simpl.
      by rewrite Qcplus_0_r.
    + destruct (IH _ _ _ _ Hk) as (tree' & count' & prop' & H1 & H2 & H3 & H4 & H5 & H6).
      exists tree', count', prop'. split_and!; try done; [lia|].
      rewrite H6. unfold sum_Qc. simpl. by rewrite Qcplus_assoc.
Qed.



Lemma annotate_tree_freqs_length {T} (tree_freqs : list (T * (Qc * Qc))) :
  ∀ idx c, length (annotate_tree_freqs idx c tree_freqs) = length tree_freqs.
Proof.
  induction tree_freqs as [|[tree [count prop]] rest IH]; intros idx c;
    simpl; [done|]. by rewrite IH.
Qed.

Lemma annotate_tree_freqs_lower_bound {T} (tree_freqs : list (T * (Qc * Qc))) :
  Forall (λ x, (0 ≤ snd (snd x))%Qc) tree_freqs →
  ∀ idx c k tp,
    annotate_tree_freqs idx c tree_freqs !! k = Some tp →
    (c ≤ tp_cumulative_probability tp)%Qc.
Proof.
  induction 1 as [|[tree [count prop]] rest Hp _ IH]; intros idx c k tp Hk.
  - destruct k; discriminate Hk.
  - simpl in Hp.
    assert (Hstep : (c ≤ c + prop)%Qc).
    { rewrite <- (Qcplus_0_r c) at 1. apply Qcplus_le_compat; [apply Qcle_refl | exact Hp]. }
    destruct k as [|k]; cbn [annotate_tree_freqs] in Hk.
    + injection Hk as <-. exact Hstep.
    + eapply Qcle_trans; [exact Hstep|]. eapply IH. exact Hk.
Qed.

Lemma annotate_tree_freqs_monotone {T} (tree_freqs : list (T * (Qc * Qc))) :
  Forall (λ x, (0 ≤ snd (snd x))%Qc) tree_freqs →
  ∀ idx c i j tpi tpj,
    (i ≤ j)%nat →
    annotate_tree_freqs idx c tree_freqs !! i = Some tpi →
    annotate_tree_freqs idx c tree_freqs !! j = Some tpj →
    (tp_cumulative_probability tpi ≤ tp_cumulative_probability tpj)%Qc.
Proof.
  induction 1 as [|[tree [count prop]] rest Hp Hrest IH];
    intros idx c i j tpi tpj Hij Hi Hj.
  - destruct i; discriminate Hi.
  - destruct i as [|i], j as [|j]; cbn [annotate_tree_freqs] in Hi, Hj; try lia.
    + injection Hi as <-. injection Hj as <-. apply Qcle_refl.
    + injection Hi as <-. simpl.
      eapply (annotate_tree_freqs_lower_bound rest Hrest). exact Hj.
    + eapply (IH _ _ i j); [lia | exact Hi | exact Hj].
Qed.



(** ** Progress messages *)

Lemma div_succ (f n : Z) :
  2 ≤ f → 0 ≤ n →
  (n + 1) / f = n / f + (if (n + 1) mod f =? 0 then 1 else 0).
Proof.
  intros Hf Hn.
  pose proof (Z.div_mod n f ltac:(lia)) as Hdm.
  pose proof (Z.mod_pos_bound n f ltac:(lia)) as Hr.
  destruct (decide (n mod f + 1 = f)) as [Hlast | Hnot].
  - assert (Hq : n / f + 1 = (n + 1) / f)
      by (apply (Z.div_unique (n + 1) f (n / f + 1) 0); lia).
    assert (Hm : 0 = (n + 1) mod f)
      by (apply (Z.mod_unique (n + 1) f (n / f + 1) 0); lia).
    rewrite <- Hm, <- Hq. reflexivity.
  - assert (Hq : n / f = (n + 1) / f)
      by (apply (Z.div_unique (n + 1) f (n / f) (n mod f + 1)); lia).
    assert (Hm : n mod f + 1 = (n + 1) mod f)
      by (apply (Z.mod_unique (n + 1) f (n / f) (n mod f + 1)); lia).
    rewrite <- Hm, <- Hq.
    destruct (n mod f + 1 =? 0) eqn:E; [apply Z.eqb_eq in E; lia | lia].
Qed.

(** X12: which trees get a progress line.  A log frequency of 1 reports
    every tree; a frequency of 0 or less reports none; a frequency [f] of 2
    or more reports exactly the trees whose index is a positive multiple of
    [f] (never the first tree), which makes [n / f] lines, rounded down, for
    a source of [n + 1] trees. *)
Theorem progress_lines (log_frequency : Z) :
  (∀ tidx, logs_progress log_frequency tidx = true
           ↔ log_frequency = 1
             ∨ (1 < log_frequency ∧ 0 < tidx ∧ (log_frequency | tidx)))
  ∧ (log_frequency ≤ 0 → ∀ tidx, logs_progress log_frequency tidx = false)
  ∧ (2 ≤ log_frequency → ∀ n : nat,
       length (filter (λ t : nat, logs_progress log_frequency (Z.of_nat t) = true)
                      (seq 0 (S n)))
       = Z.to_nat (Z.of_nat n / log_frequency)).
Proof.
  assert (Hiff : ∀ tidx, logs_progress log_frequency tidx = true
                 ↔ log_frequency = 1
                   ∨ (1 < log_frequency ∧ 0 < tidx ∧ (log_frequency | tidx))).
  { intros tidx. unfold logs_progress.
    rewrite orb_true_iff, !andb_true_iff, Z.eqb_eq, !Z.ltb_lt, Z.eqb_eq.
    split.
    - intros [-> | [[Ht Hf] Hm]]; [by left|].
      destruct (decide (log_frequency = 1)) as [->|Hne]; [by left | right].
      split_and!; [lia | done |]. apply Z.mod_divide; [lia | done].
    - intros [-> | (Hf & Ht & Hd)]; [by left | right].
      split_and!; [done | lia |]. apply Z.mod_divide; [lia | done]. }
  split_and!; [exact Hiff | |].
  - intros Hle tidx. destruct (logs_progress log_frequency tidx) eqn:E; [|done].
    apply Hiff in E. lia.
  - intros Hf n. induction n as [|n IH].
    + change (seq 0 1) with [0%nat]. rewrite filter_cons, filter_nil.
      rewrite decide_False; [by rewrite Z.div_0_l by lia|].
      intros H. apply Hiff in H. lia.
    + rewrite seq_S, list.filter_app, List.length_app, IH.
      change (0 + S n)%nat with (S n).
      rewrite filter_cons, filter_nil.
      replace (Z.of_nat (S n)) with (Z.of_nat n + 1) by lia.
      rewrite (div_succ log_frequency (Z.of_nat n)) by lia.
      pose proof (Z.div_pos (Z.of_nat n) log_frequency ltac:(lia) ltac:(lia)).
      destruct ((Z.of_nat n + 1) mod log_frequency =? 0) eqn:E.
      * apply Z.eqb_eq in E. rewrite decide_True; [simpl; lia|].
        apply Hiff. right. split_and!; [lia | lia |].
        apply Z.mod_divide; [lia | done].
      * apply Z.eqb_neq in E. rewrite decide_False; [simpl; lia|].
        intros H'. apply Hiff in H' as [? | (_ & _ & Hd)]; [lia|].
        apply Z.mod_divide in Hd; [done | lia].
Qed.

Lemma progress_lines_witness :
  logs_progress 0 500 = false
  ∧ length (filter (λ t : nat, logs_progress 500 (Z.of_nat t) = true) (seq 0 1001))
    = 2%nat.
Proof.
  destruct (progress_lines 0) as (_ & H0 & _).
  destruct (progress_lines 500) as (_ & _ & H500).
  split.
  - apply H0. lia.
  - apply (H500 ltac:(lia) 1000%nat).
Defined.

(** ** The choice between the serial and the parallel pass *)

Lemma runs_parallel_inv opts support_filepaths :
  runs_parallel opts support_filepaths = true →
  (1 <? length support_filepaths)%nat = true
  ∧ bool_decide (is_Some (multiprocess opts)) = true
  ∧ (length support_filepaths =? 0)%nat = false.
Proof.
  unfold runs_parallel. intros [H1 H2]%andb_true_iff. split_and!; try done.
  apply Nat.ltb_lt in H1. apply Nat.eqb_neq. lia.
Qed.

(** X13: in parallel mode, a process count that is not an integer, or is
    zero or negative, ends the run with one error message and exit code 1;
    the taxa are not looked for, no worker is started and nothing is
    written. *)
Theorem invalid_process_count_exits (opts : Options) (env : Environment)
    (support_filepaths : list Source) :
  runs_parallel opts support_filepaths = true →
  (∀ n, requested_processes opts env support_filepaths = Some n → n ≤ 0) →
  ∃ msg, main_cli opts env support_filepaths = ([Error msg], Exited 1).
Proof.
  intros Hmode Hbad.
  destruct (runs_parallel_inv _ _ Hmode) as (H1 & H2 & H3).
  unfold main_cli, count_sources. rewrite H1, H2, H3. simpl.
  unfold requested_processes in Hbad.
  destruct (multiprocess opts) as [[| | n | s]|] eqn:Hm.
  - assert (Hle : (cpu_count env <=? 0) = true) by (apply Z.leb_le; by apply Hbad).
    exists no_process_message. unfold mbind, action_bind, mret, action_ret.
    simpl. rewrite Hle. reflexivity.
  - assert (Hle : (Z.of_nat (length support_filepaths) <=? 0) = true)
      by (apply Z.leb_le; by apply Hbad).
    exists no_process_message. unfold mbind, action_bind, mret, action_ret.
    simpl. rewrite Hle. reflexivity.
  - assert (Hle : (n <=? 0) = true) by (apply Z.leb_le; by apply Hbad).
    exists no_process_message. unfold mbind, action_bind, mret, action_ret.
    simpl. rewrite Hle. reflexivity.
  - exists not_an_int_message. reflexivity.
  - apply bool_decide_eq_true in H2. by destruct H2.
Qed.

Lemma invalid_process_count_exits_witness :
  ∃ msg, main_cli (Samples.options_parallel 0) Samples.plain_environment
           [Samples.file_a; Samples.file_b]
         = ([Error msg], Exited 1).
Proof.
  apply (invalid_process_count_exits (Samples.options_parallel 0)
           Samples.plain_environment [Samples.file_a; Samples.file_b]).
  - reflexivity.
  - intros n [= <-]. lia.
Defined.

Lemma serial_loop_trace off trees tidx sd tc :
  fst (serial_loop off tidx trees sd tc) = []
  ∨ fst (serial_loop off tidx trees sd tc) = [Error mixed_rootings_message].
Proof.
  destruct (serial_loop_cases off trees tidx sd tc)
    as [(sd' & tc' & -> & _) | ->]; [by left | by right].
Qed.

(** X14: with at most one support file the run never goes parallel,
    whatever [--multiprocessing] says: the taxa are not discovered ahead and
    no worker is started; when the option was given with exactly one file,
    the first thing logged is the warning that serial mode is used. *)
Theorem single_source_runs_serially (opts : Options) (env : Environment)
    (support_filepaths : list Source) :
  (length support_filepaths ≤ 1)%nat →
  Forall (λ e, is_parallel_event e = false)
         (fst (count_sources opts env support_filepaths))
  ∧ (is_Some (multiprocess opts) → length support_filepaths = 1%nat →
     ∃ rest, fst (count_sources opts env support_filepaths)
             = Warning one_source_message :: rest).
Proof.
  intros Hlen. unfold count_sources.
  assert (H1 : (1 <? length support_filepaths)%nat = false)
    by (apply Nat.ltb_ge; lia).
  rewrite H1. cbn [andb]. unfold process_sources_serial.
  set (loop := serial_loop _ _ _ _ _).
  assert (Hloop : fst loop = [] ∨ fst loop = [Error mixed_rootings_message])
    by apply serial_loop_trace.
  destruct loop as [tr o]. simpl in Hloop.
  destruct (bool_decide (is_Some (multiprocess opts))) eqn:Hmp;
    destruct (length support_filepaths =? 1)%nat eqn:Hone; simpl.
  - split.
    + constructor; [done|]. destruct Hloop as [-> | ->]; repeat constructor.
    + intros _ _. by eexists.
  - split.
    + destruct Hloop as [-> | ->]; repeat constructor.
    + intros _ Hl. apply Nat.eqb_neq in Hone. done.
  - split.
    + destruct Hloop as [-> | ->]; repeat constructor.
    + intros Hs. apply bool_decide_eq_false in Hmp. done.
  - split.
    + destruct Hloop as [-> | ->]; repeat constructor.
    + intros Hs. apply bool_decide_eq_false in Hmp. done.
Qed.

Lemma single_source_runs_serially_witness :
  Forall (λ e, is_parallel_event e = false)
         (fst (count_sources (Samples.options_parallel 4) Samples.plain_environment
                 [Samples.file_a]))
  ∧ ∃ rest, fst (count_sources (Samples.options_parallel 4)
                   Samples.plain_environment [Samples.file_a])
            = Warning one_source_message :: rest.
Proof.
  destruct (single_source_runs_serially (Samples.options_parallel 4)
              Samples.plain_environment [Samples.file_a]) as [H1 H2].
  - simpl. lia.
  - split; [exact H1|]. apply H2; [by eexists | reflexivity].
Defined.

Lemma started_workers_fmap ws : started_workers (StartWorker <$> ws) = ws.
Proof.
  induction ws as [|w ws IH]; [done|].
  change (started_workers (StartWorker <$> w :: ws))
    with (w :: started_workers (StartWorker <$> ws)).
  by rewrite IH.
Qed.

(** The counting phase in parallel mode with a valid number of processes:
    at most one warning, then [process_sources_parallel]. *)
Lemma count_sources_parallel_eq opts env support_filepaths n :
  runs_parallel opts support_filepaths = true →
  requested_processes opts env support_filepaths = Some n → 0 < n →
  count_sources opts env support_filepaths
  = ((if n =? 1 then [Warning one_process_message] else [])
       ++ fst (process_sources_parallel n support_filepaths (trprobs_filepath opts)
                 (burnin opts) (arrivals env)),
     snd (process_sources_parallel n support_filepaths (trprobs_filepath opts)
            (burnin opts) (arrivals env))).
Proof.
  intros Hmode Hreq Hpos.
  unfold count_sources. unfold runs_parallel in Hmode. rewrite Hmode.
  assert (Hnum : (match multiprocess opts with
                  | Some MPStar => mret (cpu_count env)
                  | Some MPAt => mret (Z.of_nat (length support_filepaths))
                  | Some (MPInt n) => mret n
                  | Some (MPNotInt _) => log (Error not_an_int_message) ;; sys_exit 1
                  | None => mret 0
                  end : action Z) = ([], Returned n)).
  { unfold requested_processes in Hreq.
    destruct (multiprocess opts) as [[]|]; try discriminate Hreq;
      by injection Hreq as <-. }
  rewrite Hnum. clear Hnum.
  assert (Hle : (n <=? 0) = false) by (apply Z.leb_gt; lia).
  unfold mbind, action_bind, mret, action_ret. rewrite Hle.
  destruct (process_sources_parallel _ _ _ _ _) as [tr o].
  destruct (n =? 1); destruct o; reflexivity.
Qed.

(** The trace of the counting phase in parallel mode with a valid number
    of processes and a first file that has a tree. *)
Lemma count_sources_parallel_trace opts env f fs t ts n :
  runs_parallel opts (f :: fs) = true →
  requested_processes opts env (f :: fs) = Some n → 0 < n →
  src_trees f = t :: ts →
  fst (count_sources opts env (f :: fs))
  = (if n =? 1 then [Warning one_process_message] else [])
      ++ DiscoverTaxa (src_path f)
      :: (StartWorker
            <$> (SplitCountingWorker_init (ns_labels (tree_taxon_namespace t))
                   (trprobs_filepath opts) (burnin opts)
                   <$> seq 0 (Z.to_nat n))).
Proof.
  intros Hmode Hreq Hpos Hf.
  rewrite (count_sources_parallel_eq opts env (f :: fs) n Hmode Hreq Hpos).
  pose proof (process_sources_parallel_unfold n f fs t ts (trprobs_filepath opts)
                (burnin opts) (arrivals env) Hf) as Hun.
  cbv zeta in Hun. rewrite Hun. reflexivity.
Qed.



(** X16: in parallel mode, when the first support file holds no tree, the
    run ends in an uncaught AttributeError right after the attempt to
    discover the taxa, whatever the other files hold: no worker is started
    and nothing is built or written. *)
Theorem empty_first_file_raises (opts : Options) (env : Environment) (f : Source)
    (fs : list Source) (n : Z) :
  runs_parallel opts (f :: fs) = true →
  requested_processes opts env (f :: fs) = Some n → 0 < n →
  src_trees f = [] →
  ∃ tr, main_cli opts env (f :: fs) = (tr, Raised "AttributeError"%string)
        ∧ started_workers tr = []
        ∧ Forall (λ e, is_output e = false) tr.
Proof.
  intros Hmode Hreq Hpos Hf.
  destruct (runs_parallel_inv _ _ Hmode) as (_ & _ & H3).
  assert (Hpar : process_sources_parallel n (f :: fs) (trprobs_filepath opts)
                   (burnin opts) (arrivals env)
                 = ([DiscoverTaxa (src_path f)], Raised "AttributeError"%string)).
  { unfold process_sources_parallel, discover_taxa. rewrite Hf. reflexivity. }
  unfold main_cli. rewrite H3.
  rewrite (count_sources_parallel_eq opts env (f :: fs) n Hmode Hreq Hpos), Hpar.
  unfold mbind, action_bind. cbn [fst snd].
  eexists. split; [reflexivity|].
  destruct (n =? 1); split; try reflexivity; repeat constructor.
Qed.

Lemma empty_first_file_raises_witness :
  ∃ tr, main_cli (Samples.options_parallel 2) Samples.plain_environment
          [Samples.no_stdin; Samples.file_a]
        = (tr, Raised "AttributeError"%string)
        ∧ started_workers tr = []
        ∧ Forall (λ e, is_output e = false) tr.
Proof.
  apply (empty_first_file_raises (Samples.options_parallel 2)
           Samples.plain_environment Samples.no_stdin [Samples.file_a] 2).
  - reflexivity.
  - reflexivity.
  - lia.
  - reflexivity.
Defined.

(** ** What the collation loop waits for *)

Lemma collate_blocked n : ∀ sds maps sd tc,
  (length sds < n)%nat → collate n sds maps sd tc = Blocked.
Proof.
  induction n as [|n IH]; intros sds maps sd tc Hlen; [lia|].
  destruct sds as [|r sds]; [reflexivity|].
  destruct maps as [|m maps]; [reflexivity|].
  simpl in *. apply IH. lia.
Qed.

Lemma worker_trace_puts workers a :
  (length (put_split_dists (worker_trace workers a)) ≤ 1)%nat.
Proof.
  unfold worker_trace. destruct (workers !! a.1) as [w|]; [|simpl; lia].
  destruct (run_alone a.2 w) as [Hp _]. unfold run_trace in Hp.
  rewrite Hp. simpl. lia.
Qed.

Lemma result_queue_length workers (arrivals : list (nat * list Source)) :
  (length (concat (put_split_dists <$> (worker_trace workers <$> arrivals)))
   ≤ length arrivals)%nat.
Proof.
  induction arrivals as [|a arrivals IH]; [simpl; lia|].
  rewrite !fmap_cons. simpl concat. rewrite List.length_app.
  pose proof (worker_trace_puts workers a). simpl. lia.
Qed.

(** X17: the collation loop takes one result per started process before it
    goes on: when fewer workers than [num_processes] deliver a result, the
    call is left waiting on the result queue and never returns, whatever
    the workers that did report have counted. *)
Theorem too_few_results_block (num_processes : Z) (f : Source) (fs : list Source)
    (t : Tree) (ts : list Tree) (calc_tree_probs : bool) (tree_offset : Z)
    (arrivals : list (nat * list Source)) :
  src_trees f = t :: ts →
  (length arrivals < Z.to_nat num_processes)%nat →
  snd (process_sources_parallel num_processes (f :: fs) calc_tree_probs
         tree_offset arrivals) = Blocked.
Proof.
  intros Hf Hlen.
  pose proof (process_sources_parallel_unfold num_processes f fs t ts
                calc_tree_probs tree_offset arrivals Hf) as Hun.
  cbv zeta in Hun. rewrite Hun. cbn [snd].
  apply collate_blocked.
  eapply Nat.le_lt_trans; [apply result_queue_length | exact Hlen].
Qed.

Lemma too_few_results_block_witness :
  snd (process_sources_parallel 2 [Samples.file_a; Samples.file_b] false 0
         [(0%nat, [Samples.file_a; Samples.file_b])]) = Blocked.
Proof.
  apply (too_few_results_block 2 Samples.file_a [Samples.file_b]
           Samples.unrooted_ab [Samples.unrooted_ac] false 0
           [(0%nat, [Samples.file_a; Samples.file_b])]).
  - reflexivity.
  - simpl. lia.
Defined.

(** ** What a worker and the serial pass have counted *)

Lemma length_counted_by_worker off queue :
  Z.of_nat (length (counted_by_worker off queue))
  = foldr (λ s acc, Z.max 0 (Z.of_nat (length (src_trees s)) - Z.max 0 off) + acc)
          0 queue.
Proof.
  unfold counted_by_worker. induction queue as [|s queue IH]; [done|].
  rewrite fmap_cons. simpl concat. rewrite List.length_app, Nat2Z.inj_add, IH.
  rewrite length_drop. simpl foldr. lia.
Qed.

(** X18: a worker that is never asked to stop puts exactly one split
    distribution and one topology map on the result queues, also when it
    found the work queue empty.  The distribution's tree count has grown by
    the number of trees of its tasks past the burn-in, the burn-in being
    taken off every file separately (a file shorter than the burn-in adds
    nothing, a negative burn-in skips nothing), and the sum of tree weights
    by the weights of those trees, added one after the other in floating
    point; without [calc_tree_probs] the topology map is put as it was at
    the start. *)
Theorem worker_publishes_once (queue : list Source) (w : SplitCountingWorker) :
  ∃ sd m,
    put_split_dists (run_trace None queue w) = [sd]
    ∧ put_topology_hash_maps (run_trace None queue w) = [m]
    ∧ total_trees_counted sd
      = total_trees_counted (split_distribution w)
        + foldr (λ s acc,
                   Z.max 0 (Z.of_nat (length (src_trees s)) - Z.max 0 (tree_offset w))
                   + acc) 0 queue
    ∧ sum_of_tree_weights sd
      = foldl float_add (sum_of_tree_weights (split_distribution w))
          (weight_of <$> counted_by_worker (tree_offset w) queue)
    ∧ (calc_tree_probs w = false → m = topology_hash_map (topology_counter w)).
Proof.
  destruct (run_alone queue w) as [Hsd Hm].
  eexists _, _. split; [exact Hsd|]. split; [exact Hm|].
  set (ts := read_by_worker (taxon_namespace w) (tree_offset w) queue).
  destruct (count_trees_tally ts w) as (Htot & _ & Hw).
  split_and!.
  - rewrite Htot. unfold ts.
    by rewrite read_by_worker_length, length_counted_by_worker.
  - rewrite Hw. unfold ts.
    by rewrite (read_by_worker_fmap weight_of (λ _ _, eq_refl)).
  - intros Hcalc. by rewrite count_trees_no_topologies.
Qed.

Lemma worker_publishes_once_witness :
  ∃ sd m,
    put_split_dists
      (run_trace None [] (SplitCountingWorker_init ["a"; "b"]%string false 1 0)) = [sd]
    ∧ put_topology_hash_maps
        (run_trace None [] (SplitCountingWorker_init ["a"; "b"]%string false 1 0)) = [m]
    ∧ total_trees_counted sd = 0
    ∧ m = ∅.
Proof.
  destruct (worker_publishes_once []
              (SplitCountingWorker_init ["a"; "b"]%string false 1 0))
    as (sd & m & H1 & H2 & H3 & _ & H5).
  exists sd, m. split_and!; [exact H1 | exact H2 | exact H3 | by apply H5].
Defined.

Lemma process_sources_serial_loop stdin support_filepaths tree_offset :
  process_sources_serial stdin support_filepaths tree_offset
  = serial_loop tree_offset 0
      (read_trees (TaxonNamespace_new [])
         (yield_from_files (sources_read stdin support_filepaths)))
      (SplitDistribution_new (TaxonNamespace_new [])) TopologyCounter_new.
Proof. by destruct support_filepaths as [[|]|]. Qed.

(** X19: when the serial pass returns it has logged no error, and the
    distribution it returns has counted every tree of the concatenated
    stream of all sources past the first [tree_offset] trees of that
    stream: the count is the stream's length less the burn-in (never below
    zero, and the whole stream for a burn-in of zero or less), and the sum
    of tree weights is that of these trees, added one after the other in
    floating point. *)
Theorem serial_pass_total (stdin : Source) (support_filepaths : option (list Source))
    (tree_offset : Z) (tr : list event) (sd : SplitDistribution)
    (tc : TopologyCounter) :
  process_sources_serial stdin support_filepaths tree_offset
  = (tr, Returned (sd, tc)) →
  tr = []
  ∧ total_trees_counted sd
    = Z.max 0 (Z.of_nat (length (yield_from_files
                                   (sources_read stdin support_filepaths)))
               - Z.max 0 tree_offset)
  ∧ sum_of_tree_weights sd
    = foldl float_add 0%Qc
        (weight_of <$> drop (Z.to_nat tree_offset)
           (yield_from_files (sources_read stdin support_filepaths))).
Proof.
  rewrite process_sources_serial_loop. intros Hrun.
  destruct (serial_loop_cases tree_offset
              (read_trees (TaxonNamespace_new [])
                 (yield_from_files (sources_read stdin support_filepaths))) 0
              (SplitDistribution_new (TaxonNamespace_new [])) TopologyCounter_new)
    as [(sd' & tc' & Heq & Htot & _ & Hw & _) | Heq];
    rewrite Heq in Hrun; [|discriminate Hrun].
  injection Hrun as <- <- <-. split; [reflexivity|].
  rewrite Z.sub_0_r in *.
  split.
  - rewrite Htot, length_drop, read_trees_length. simpl. lia.
  - rewrite Hw, fmap_drop, (read_trees_fmap weight_of (λ _ _, eq_refl)), <- fmap_drop.
    reflexivity.
Qed.

Lemma serial_pass_total_witness :
  ∃ sd, snd (process_sources_serial Samples.no_stdin
               (Some [Samples.file_a; Samples.file_b]) 1)
        = Returned sd
        ∧ total_trees_counted (fst sd) = 3.
Proof.
  destruct (process_sources_serial Samples.no_stdin
              (Some [Samples.file_a; Samples.file_b]) 1)
    as [tr [[sd tc]| c | x |]] eqn:E.
  - exists (sd, tc). split; [reflexivity|].
    destruct (serial_pass_total Samples.no_stdin
                (Some [Samples.file_a; Samples.file_b]) 1 tr sd tc E)
      as (_ & H & _).
    exact H.
  - vm_compute in E. discriminate E.
  - vm_compute in E. discriminate E.
  - vm_compute in E. discriminate E.
Defined.

Lemma serial_loop_uniform off r trees : ∀ tidx sd tc,
  tree_rooting_types_counted sd ⊆ {[ r ]} →
  (∀ x, x ∈ is_rooted <$> drop (Z.to_nat (off - tidx)) trees → x = r) →
  ∃ sd' tc', serial_loop off tidx trees sd tc = ([], Returned (sd', tc')).
Proof.
  induction trees as [|t rest IH]; intros tidx sd tc Hsub Hall.
  - by eexists _, _.
  - cbn [serial_loop]. destruct (off <=? tidx) eqn:Hoff.
    + apply Z.leb_le in Hoff.
      assert (Hz : Z.to_nat (off - tidx) = 0%nat) by lia.
      rewrite Hz in Hall. cbn [drop] in Hall. rewrite fmap_cons in Hall.
      assert (Ht : is_rooted t = r) by (apply Hall; left).
      assert (Hsub' : tree_rooting_types_counted (count_splits_on_tree t sd) ⊆ {[ r ]}).
      { rewrite count_splits_on_tree_rootings, Ht. set_solver. }
      assert (Hsize : (1 <? size (tree_rooting_types_counted
                                    (count_splits_on_tree t sd)))%nat = false).
      { apply Nat.ltb_ge. apply subseteq_size in Hsub'.
        by rewrite size_singleton in Hsub'. }
      rewrite Hsize. apply IH; [exact Hsub'|].
      intros t' Hin. apply Hall. right.
      assert (Hz' : Z.to_nat (off - (tidx + 1)) = 0%nat) by lia.
      by rewrite Hz' in Hin.
    + apply Z.leb_gt in Hoff. apply IH; [exact Hsub|].
      intros t' Hin. apply Hall.
      assert (Hz : Z.to_nat (off - tidx) = S (Z.to_nat (off - (tidx + 1)))) by lia.
      rewrite Hz. exact Hin.
Qed.

Lemma distinct_rootings_size (X : gset (option bool)) x y :
  x ≠ y → x ∈ X → y ∈ X → (2 ≤ size X)%nat.
Proof.
  intros Hne H1 H2.
  assert (Hsub : ({[ x ]} ∪ {[ y ]} : gset (option bool)) ⊆ X) by set_solver.
  apply subseteq_size in Hsub.
  rewrite size_union, !size_singleton in Hsub by set_solver. exact Hsub.
Qed.

(** X20: the serial pass returns, without any message, exactly when all the
    trees past the burn-in have the same rooting state; trees inside the
    burn-in do not matter.  As soon as two counted trees differ in their
    rooting state (rooted, unrooted or unspecified) the pass logs the
    mixed-rootings error and exits with code 1. *)
Theorem serial_pass_outcome (stdin : Source) (support_filepaths : option (list Source))
    (tree_offset : Z) :
  ((∀ t1 t2,
      t1 ∈ drop (Z.to_nat tree_offset)
             (yield_from_files (sources_read stdin support_filepaths)) →
      t2 ∈ drop (Z.to_nat tree_offset)
             (yield_from_files (sources_read stdin support_filepaths)) →
      is_rooted t1 = is_rooted t2) →
   ∃ sd tc, process_sources_serial stdin support_filepaths tree_offset
            = ([], Returned (sd, tc)))
  ∧ (∀ t1 t2,
       t1 ∈ drop (Z.to_nat tree_offset)
              (yield_from_files (sources_read stdin support_filepaths)) →
       t2 ∈ drop (Z.to_nat tree_offset)
              (yield_from_files (sources_read stdin support_filepaths)) →
       is_rooted t1 ≠ is_rooted t2 →
       process_sources_serial stdin support_filepaths tree_offset
       = ([Error mixed_rootings_message], Exited 1)).
Proof.
  rewrite process_sources_serial_loop.
  set (trees := yield_from_files (sources_read stdin support_filepaths)).
  assert (Hread : ∀ n, is_rooted <$> drop n (read_trees (TaxonNamespace_new []) trees)
                       = is_rooted <$> drop n trees).
  { intros n. by rewrite fmap_drop, (read_trees_fmap is_rooted (λ _ _, eq_refl)),
                <- fmap_drop. }
  split.
  - intros Hall.
    destruct (drop (Z.to_nat tree_offset) trees) as [|t0 rest] eqn:Hdrop.
    + apply (serial_loop_uniform tree_offset None); [set_solver|].
      intros x. rewrite Z.sub_0_r, Hread, Hdrop. by intros ?%elem_of_nil.
    + apply (serial_loop_uniform tree_offset (is_rooted t0)); [set_solver|].
      intros x. rewrite Z.sub_0_r, Hread, Hdrop.
      intros (t & -> & Hin)%list_elem_of_fmap.
      apply Hall; [exact Hin | left].
  - intros t1 t2 H1 H2 Hne.
    destruct (serial_loop_cases tree_offset
                (read_trees (TaxonNamespace_new []) trees) 0
                (SplitDistribution_new (TaxonNamespace_new [])) TopologyCounter_new)
      as [(sd' & tc' & _ & _ & Hroot & _ & Hsize) | Heq]; [exfalso | exact Heq].
    rewrite Z.sub_0_r, Hread in *.
    assert (Hle : (size (tree_rooting_types_counted sd') ≤ 1)%nat).
    { apply Hsize. right. intros Hnil.
      apply (f_equal (fmap is_rooted)) in Hnil. rewrite Hread in Hnil.
      apply fmap_nil_inv in Hnil. rewrite Hnil in H1. by apply elem_of_nil in H1. }
    assert (Hin : ∀ t, t ∈ drop (Z.to_nat tree_offset) trees →
                       is_rooted t ∈ tree_rooting_types_counted sd').
    { intros t Ht. rewrite Hroot. apply elem_of_union_r, elem_of_list_to_set.
      by apply list_elem_of_fmap_2. }
    pose proof (distinct_rootings_size _ _ _ Hne (Hin _ H1) (Hin _ H2)). lia.
Qed.

Lemma serial_pass_outcome_witness :
  (∃ sd tc, process_sources_serial Samples.no_stdin
              (Some [Samples.file_rooted; Samples.file_a]) 1
            = ([], Returned (sd, tc)))
  ∧ process_sources_serial Samples.no_stdin
      (Some [Samples.file_rooted; Samples.file_a]) 0
    = ([Error mixed_rootings_message], Exited 1).
Proof.
  split.
  - apply (serial_pass_outcome Samples.no_stdin
             (Some [Samples.file_rooted; Samples.file_a]) 1).
    intros t1 t2 H1 H2.
    vm_compute in H1, H2.
    repeat (apply elem_of_cons in H1 as [-> | H1]);
      try (by apply elem_of_nil in H1);
      repeat (apply elem_of_cons in H2 as [-> | H2]);
      try (by apply elem_of_nil in H2); reflexivity.
  - apply (proj2 (serial_pass_outcome Samples.no_stdin
                    (Some [Samples.file_rooted; Samples.file_a]) 0)
             Samples.rooted_ab Samples.unrooted_ab).
    + vm_compute. left.
    + vm_compute. right. left.
    + discriminate.
Defined.

(** ** The oracle of the split-counting test *)

Section SplitCountOracle.

Import SplitCountTest.

Variable is_trivial_split : Z → Z → bool.
Variable taxa_mask : Z.

Lemma compare_counts_Some (dp_items : list (Z * Qc)) : ∀ paup_counts remaining,
  compare_counts is_trivial_split taxa_mask dp_items paup_counts = Some remaining →
  (∀ s c, (s, c) ∈ dp_items → is_trivial_split s taxa_mask = false →
          paup_counts !! s = Some c)
  ∧ (∀ k, remaining !! k = None
          ↔ paup_counts !! k = None
            ∨ (is_trivial_split k taxa_mask = false ∧ k ∈ dp_items.*1)).
Proof.
  induction dp_items as [|[s c] rest IH]; intros paup remaining Hcmp;
    cbn [compare_counts] in Hcmp.
  - injection Hcmp as <-. split.
    + intros s c Hin. by apply elem_of_nil in Hin.
    + intros k. split; [by left|]. intros [H | [_ H]]; [done|].
      by apply elem_of_nil in H.
  - destruct (is_trivial_split s taxa_mask) eqn:Htriv; cbn [negb] in Hcmp.
    + destruct (IH _ _ Hcmp) as [H1 H2]. split.
      * intros s' c' Hin Hnt. apply elem_of_cons in Hin as [[= -> ->] | Hin].
        -- congruence.
        -- by apply H1.
      * intros k. rewrite H2, fmap_cons, elem_of_cons. cbn [fst].
        split; (intros [H | [Hnt H]]; [by left | right]).
        -- split; [done | by right].
        -- split; [done|]. destruct H as [-> | H]; [congruence | done].
    + destruct (paup !! s) as [c0|] eqn:Hs; [|discriminate Hcmp].
      case_bool_decide as Hc; [subst c0 | discriminate Hcmp].
      destruct (IH _ _ Hcmp) as [H1 H2]. split.
      * intros s' c' Hin Hnt. apply elem_of_cons in Hin as [[= -> ->] | Hin].
        -- exact Hs.
        -- specialize (H1 s' c' Hin Hnt).
           apply lookup_delete_Some in H1 as [_ H1]. exact H1.
      * intros k. rewrite H2, fmap_cons, elem_of_cons. cbn [fst].
        rewrite lookup_delete_None. split.
        -- intros [[-> | H] | [Hnt H]].
           ++ right. split; [done | by left].
           ++ by left.
           ++ right. split; [done | by right].
        -- intros [H | [Hnt [-> | H]]].
           ++ left. by right.
           ++ left. by left.
           ++ right. done.
Qed.

Lemma compare_counts_None (dp_items : list (Z * Qc)) : ∀ paup_counts,
  NoDup dp_items.*1 →
  compare_counts is_trivial_split taxa_mask dp_items paup_counts = None →
  ∃ s c, (s, c) ∈ dp_items ∧ is_trivial_split s taxa_mask = false
         ∧ paup_counts !! s ≠ Some c.
Proof.
  induction dp_items as [|[s c] rest IH]; intros paup Hnd Hcmp;
    cbn [compare_counts] in Hcmp; [discriminate Hcmp|].
  rewrite fmap_cons in Hnd. cbn [fst] in Hnd.
  apply list.NoDup_cons in Hnd as [Hnotin Hnd].
  destruct (is_trivial_split s taxa_mask) eqn:Htriv; cbn [negb] in Hcmp.
  - destruct (IH _ Hnd Hcmp) as (s' & c' & Hin & Hnt & Hne).
    exists s', c'. split_and!; [by right | done | done].
  - destruct (paup !! s) as [c0|] eqn:Hs.
    + case_bool_decide as Hc.
      * subst c0. destruct (IH _ Hnd Hcmp) as (s' & c' & Hin & Hnt & Hne).
        exists s', c'. split_and!; [by right | done |].
        intros Hl. apply Hne. rewrite lookup_delete_Some. split; [|done].
        intros ->. apply Hnotin. apply list_elem_of_fmap.
        by exists (s', c').
      * exists s, c. split_and!; [by left | done |]. congruence.
    + exists s, c. split_and!; [by left | done |]. congruence.
Qed.

Lemma drop_trivial_lookup (remaining_splits : list Z) : ∀ (m : gmap Z Qc) k,
  drop_trivial is_trivial_split taxa_mask remaining_splits m !! k = None
  ↔ m !! k = None
    ∨ (is_trivial_split k taxa_mask = true ∧ k ∈ remaining_splits).
Proof.
  unfold drop_trivial.
  induction remaining_splits as [|s rest IH]; intros m k; cbn [foldl].
  - split; [by left|]. intros [H | [_ H]]; [done|]. by apply elem_of_nil in H.
  - rewrite IH, elem_of_cons.
    destruct (is_trivial_split s taxa_mask) eqn:Htriv.
    + rewrite lookup_delete_None. split.
      * intros [[-> | H] | [Ht H]].
        -- right. split; [done | by left].
        -- by left.
        -- right. split; [done | by right].
      * intros [H | [Ht [-> | H]]].
        -- left. by right.
        -- left. by left.
        -- right. done.
    + split.
      * intros [H | [Ht H]]; [by left|]. right. split; [done | by right].
      * intros [H | [Ht [-> | H]]]; [by left | congruence |]. right. done.
Qed.

(** X21: the assertions of [check_split_counting] hold exactly when the two
    tree totals are equal, every non-trivial split counted by DendroPy is in
    the reference table with the same count, and every non-trivial split of
    the reference table was counted by DendroPy.  Trivial splits are not
    compared: they may be missing or differ on either side. *)
Theorem check_split_counting_passes (dp_total paup_total : Z)
    (dp_items : list (Z * Qc)) (paup_counts : gmap Z Qc) :
  NoDup dp_items.*1 →
  check_split_counting is_trivial_split taxa_mask dp_total paup_total
    dp_items paup_counts = true
  ↔ dp_total = paup_total
    ∧ (∀ s c, (s, c) ∈ dp_items → is_trivial_split s taxa_mask = false →
              paup_counts !! s = Some c)
    ∧ (∀ s, is_trivial_split s taxa_mask = false → is_Some (paup_counts !! s) →
            s ∈ dp_items.*1).
Proof.
  intros Hnd. unfold check_split_counting.
  rewrite andb_true_iff, bool_decide_eq_true.
  destruct (compare_counts is_trivial_split taxa_mask dp_items paup_counts)
    as [remaining|] eqn:Hcmp.
  - destruct (compare_counts_Some _ _ _ Hcmp) as [H1 H2].
    rewrite bool_decide_eq_true, map_size_empty_iff, map_empty.
    split.
    + intros [Htot Hempty]. split_and!; [done | done |].
      intros s Hnt [c Hs].
      specialize (Hempty s). apply drop_trivial_lookup in Hempty.
      destruct Hempty as [Hrem | [Ht _]]; [|congruence].
      apply H2 in Hrem as [Hp | [_ Hin]]; [congruence | done].
    + intros (Htot & _ & Hback). split; [done|].
      intros k. apply drop_trivial_lookup.
      destruct (remaining !! k) as [v|] eqn:Hk; [|by left].
      right. split.
      * destruct (is_trivial_split k taxa_mask) eqn:Ht; [done|].
        assert (Hp : is_Some (paup_counts !! k)).
        { destruct (paup_counts !! k) eqn:Hp; [by eexists|].
          assert (remaining !! k = None) by (apply H2; by left). congruence. }
        assert (remaining !! k = None)
          by (apply H2; right; split; [done | by apply Hback]).
        congruence.
      * apply list_elem_of_fmap. exists (k, v). split; [done|].
        by apply elem_of_map_to_list.
  - split; [intros [_ H]; discriminate H|].
    intros (_ & Hfwd & _).
    destruct (compare_counts_None _ _ Hnd Hcmp) as (s & c & Hin & Hnt & Hne).
    exfalso. apply Hne. by apply Hfwd.
Qed.

End SplitCountOracle.

Lemma check_split_counting_passes_witness :
  SplitCountTest.check_split_counting (λ s m, bool_decide (s = 1 ∨ s = m)) 15 2 2
    [(1, Q2Qc 2); (3, 1%Qc)] {[ 3 := 1%Qc; 15 := Q2Qc 2 ]} = true
  ↔ 2 = 2
    ∧ (∀ s c, (s, c) ∈ [(1, Q2Qc 2); (3, 1%Qc)] →
              bool_decide (s = 1 ∨ s = 15) = false →
              ({[ 3 := 1%Qc; 15 := Q2Qc 2 ]} : gmap Z Qc) !! s = Some c)
    ∧ (∀ s, bool_decide (s = 1 ∨ s = 15) = false →
            is_Some (({[ 3 := 1%Qc; 15 := Q2Qc 2 ]} : gmap Z Qc) !! s) →
            s ∈ [(1, Q2Qc 2); (3, 1%Qc)].*1).
Proof.
  apply (check_split_counting_passes (λ s m, bool_decide (s = 1 ∨ s = m)) 15 2 2
           [(1, Q2Qc 2); (3, 1%Qc)] {[ 3 := 1%Qc; 15 := Q2Qc 2 ]}).
  simpl. apply list.NoDup_cons. split; [set_solver|]. apply list.NoDup_singleton.
Defined.
